(** * VorteX DEX front end: the network client and the swap controller

    A shallow embedding of [src/convex-client.js] (class [ConvexClient]) and
    [src/vortex-interface.js] (class [VorteXInterface]), followed by the
    properties of the repository's specification that concern them and by
    further properties of the two classes, read off the code.

    Layout of the development:
    - [Js]: the fragment of the JavaScript run time the two classes rely on
      (IEEE-754 doubles, [Number(s)], [parseFloat], [toFixed],
      [Number::toString], truthiness, JSON values);
    - [Async]: programs with mutable state, exceptions, UI effects, awaited
      HTTP requests and un-awaited asynchronous calls, and their execution
      against a scripted peer;
    - [ConvexClient], [VorteXInterface]: the methods of the two classes;
    - [EventLoop]: the listeners of the page, run one at a time, with the
      answers of the peer arriving in any order;
    - the theorems.

    Modelling conventions.
    - JavaScript numbers are binary64 values ([spec_float] at precision 53),
      all arithmetic goes through the correctly rounded operations of
      [SpecFloat].
    - Strings are sequences of 8-bit code units; white space is ASCII white
      space.
    - DOM elements whose content the code reads back (the two number inputs)
      live in the state; DOM writes that are never read back, [alert] and
      [console] calls are recorded as events of the trace.
    - [await fetch(...)] followed by [await response.json()] is one
      suspension point that delivers an [HttpOutcome]. *)

From Stdlib Require Import ZArith Bool List Ascii String Lia.
From Stdlib Require Import Floats.SpecFloat.
From stdpp Require Import base option strings gmap.

Local Open Scope Z_scope.

(* ===================================================================== *)
(** * The JavaScript run time *)
(* ===================================================================== *)

Module Js.

(** ** Numbers *)

Definition Number : Type := spec_float.

Definition prec : Z := 53.
Definition emax : Z := 1024.

Definition NaN : Number := S754_nan.
Definition posZero : Number := S754_zero false.
Definition Infinity : Number := S754_infinity false.

(** The double nearest to the integer [z]. *)
Definition num_of_Z (z : Z) : Number := binary_normalize prec emax z 0 false.

(** The double nearest to [(-1)^neg * d * 10^e10] (round to nearest, ties to
    even), the "Number value" of a decimal literal. *)
Definition num_of_decimal (neg : bool) (d e10 : Z) : Number :=
  match d with
  | Zpos p =>
      match e10 with
      | Zneg k =>
          let '(q, e', l) :=
            SFdiv_core_binary prec emax (Zpos p) 0 (Z.pow_pos 10 k) 0 in
          binary_round_aux prec emax neg q e' l
      | _ => binary_round prec emax neg (Z.to_pos (Zpos p * 10 ^ e10)) 0
      end
  | _ => S754_zero neg
  end.

Definition num_mul : Number -> Number -> Number := SFmul prec emax.
Definition num_add : Number -> Number -> Number := SFadd prec emax.

(** [x <= y] and [x < y] on numbers; false as soon as one side is NaN. *)
Definition num_leb : Number -> Number -> bool := SFleb.
Definition num_ltb : Number -> Number -> bool := SFltb.

Definition num_isNaN (x : Number) : bool :=
  match x with S754_nan => true | _ => false end.

(** ToBoolean on a number. *)
Definition num_truthy (x : Number) : bool :=
  match x with
  | S754_nan | S754_zero _ => false
  | _ => true
  end.

(** ** Characters and decimal digits *)

Definition is_digit (c : ascii) : bool :=
  let n := N_of_ascii c in (48 <=? n)%N && (n <=? 57)%N.

Definition digit_val (c : ascii) : Z := Z.of_N (N_of_ascii c) - 48.

Definition digit_char (d : Z) : ascii := ascii_of_N (Z.to_N (48 + d)).

(** TAB, LF, VT, FF, CR and SPACE. *)
Definition is_ws (c : ascii) : bool :=
  let n := N_of_ascii c in ((9 <=? n)%N && (n <=? 13)%N) || (n =? 32)%N.

Fixpoint trim_start (s : string) : string :=
  match s with
  | String c r => if is_ws c then trim_start r else s
  | EmptyString => EmptyString
  end.

Fixpoint trim_end (s : string) : string :=
  match s with
  | String c r =>
      match trim_end r with
      | EmptyString => if is_ws c then EmptyString else String c EmptyString
      | r' => String c r'
      end
  | EmptyString => EmptyString
  end.

Definition trim (s : string) : string := trim_end (trim_start s).

Fixpoint strip_prefix (p s : string) : option string :=
  match p, s with
  | EmptyString, _ => Some s
  | String a p', String b s' =>
      if Ascii.eqb a b then strip_prefix p' s' else None
  | String _ _, EmptyString => None
  end.

(** Reads a maximal run of decimal digits: the integer they denote on top of
    [acc], how many were read, and what follows. *)
Fixpoint span_digits (s : string) (acc n : Z) : Z * Z * string :=
  match s with
  | String c r =>
      if is_digit c then span_digits r (acc * 10 + digit_val c) (n + 1)
      else (acc, n, s)
  | EmptyString => (acc, n, s)
  end.

(** ** String to number

    [StrDecimalLiteral] of ECMA-262: an optional sign, then [Infinity] or
    digits with an optional fraction and an optional exponent. *)

Variant DecLit : Type :=
  | DecInf
  | DecFin (d e10 : Z).

Definition split_sign (s : string) : bool * string :=
  match s with
  | String "+"%char r => (false, r)
  | String "-"%char r => (true, r)
  | _ => (false, s)
  end.

(** [ExponentPart]: [e] or [E], an optional sign, at least one digit. *)
Definition parse_exponent (s : string) : option (Z * string) :=
  match s with
  | String c r =>
      if Ascii.eqb c "e"%char || Ascii.eqb c "E"%char then
        let '(neg, r1) := split_sign r in
        let '(v, n, r2) := span_digits r1 0 0 in
        if n =? 0 then None else Some (if neg then - v else v, r2)
      else None
  | EmptyString => None
  end.

(** The longest prefix of [s] that is a [StrUnsignedDecimalLiteral], as a
    literal and the rest of [s]. *)
Definition parse_unsigned_decimal (s : string) : option (DecLit * string) :=
  match strip_prefix "Infinity" s with
  | Some r => Some (DecInf, r)
  | None =>
      let '(ip, ni, r1) := span_digits s 0 0 in
      let '(d, nf, r2) :=
        match r1 with
        | String "."%char r' => span_digits r' ip 0
        | _ => (ip, 0, r1)
        end in
      if (ni =? 0) && (nf =? 0) then None
      else
        match parse_exponent r2 with
        | Some (ex, r3) => Some (DecFin d (ex - nf), r3)
        | None => Some (DecFin d (- nf), r2)
        end
  end.

Definition parse_decimal (s : string) : option (Number * string) :=
  let '(neg, r) := split_sign s in
  match parse_unsigned_decimal r with
  | Some (DecInf, r') => Some (S754_infinity neg, r')
  | Some (DecFin d e, r') => Some (num_of_decimal neg d e, r')
  | None => None
  end.

(** Digits of [0x..], [0o..] and [0b..] literals. *)
Definition radix_digit (base : Z) (c : ascii) : option Z :=
  let n := Z.of_N (N_of_ascii c) in
  let v :=
    if (48 <=? n) && (n <=? 57) then n - 48
    else if (97 <=? n) && (n <=? 102) then n - 87
    else if (65 <=? n) && (n <=? 70) then n - 55
    else base in
  if v <? base then Some v else None.

Fixpoint radix_digits (base : Z) (s : string) (acc : Z) : option Z :=
  match s with
  | EmptyString => Some acc
  | String c r =>
      match radix_digit base c with
      | Some v => radix_digits base r (acc * base + v)
      | None => None
      end
  end.

Definition radix_of (c : ascii) : option Z :=
  if Ascii.eqb c "x"%char || Ascii.eqb c "X"%char then Some 16
  else if Ascii.eqb c "o"%char || Ascii.eqb c "O"%char then Some 8
  else if Ascii.eqb c "b"%char || Ascii.eqb c "B"%char then Some 2
  else None.

(** [NonDecimalIntegerLiteral]: unsigned, at least one digit. *)
Definition parse_nondecimal (s : string) : option Z :=
  match s with
  | String "0"%char (String c (String d r)) =>
      match radix_of c with
      | Some base => radix_digits base (String d r) 0
      | None => None
      end
  | _ => None
  end.

(** [Number(s)], which is also what [isNaN(s)] and [s <= 0] apply to a
    string operand. *)
Definition StringToNumber (s : string) : Number :=
  match trim s with
  | EmptyString => posZero
  | t =>
      match parse_decimal t with
      | Some (x, EmptyString) => x
      | _ =>
          match parse_nondecimal t with
          | Some n => num_of_Z n
          | None => NaN
          end
      end
  end.

(** The global [parseFloat]. *)
Definition parseFloat (s : string) : Number :=
  match parse_decimal (trim_start s) with
  | Some (x, _) => x
  | None => NaN
  end.

(** ** Number to string *)

(** The decimal digits of [n], most significant first, for [0 <= n]: one
    digit is produced per unit of fuel. *)
Fixpoint digits_fuel (fuel : nat) (n : Z) (acc : string) : string :=
  match fuel with
  | O => acc
  | S fuel' =>
      let acc' := String (digit_char (n mod 10)) acc in
      if n <? 10 then acc' else digits_fuel fuel' (n / 10) acc'
  end.

Definition Z_to_digits (n : Z) : string :=
  digits_fuel (S (Z.to_nat (Z.log2 n))) n EmptyString.

(** Exactly [w] digits: [n mod 10^w], padded with zeros on the left. *)
Fixpoint fixed_width (w : nat) (n : Z) (acc : string) : string :=
  match w with
  | O => acc
  | S w' => fixed_width w' (n / 10) (String (digit_char (n mod 10)) acc)
  end.

Fixpoint zeros (n : nat) : string :=
  match n with
  | O => EmptyString
  | S n' => String "0"%char (zeros n')
  end.

(** A positive finite double [m * 2^e] as a fraction of two integers. *)
Definition ratio (m : positive) (e : Z) : Z * Z :=
  match e with
  | Zneg k => (Zpos m, Z.pow_pos 2 k)
  | _ => (Zpos m * 2 ^ e, 1)
  end.

(** [num / den < 10^n] *)
Definition below_pow10 (num den n : Z) : bool :=
  match n with
  | Zneg k => num * Z.pow_pos 10 k <? den
  | _ => num <? den * 10 ^ n
  end.

(** The least [n >= n0] with [num / den < 10^n]. *)
Fixpoint decimal_exponent (fuel : nat) (num den n0 : Z) : Z :=
  match fuel with
  | O => n0
  | S fuel' =>
      if below_pow10 num den n0 then n0
      else decimal_exponent fuel' num den (n0 + 1)
  end.

(** [num / (den * 10^sc)] as a fraction. *)
Definition scale10 (num den sc : Z) : Z * Z :=
  match sc with
  | Zneg k => (num * Z.pow_pos 10 k, den)
  | _ => (num, den * 10 ^ sc)
  end.

(** The [k]-digit decimals next to [x = num / den] on either side, for [n]
    the decimal exponent of [x]: the one that reads back as [x], the closer
    one if both do (the even one on a tie). The result is the digit string
    and the decimal exponent it is to be printed with. *)
Definition shortest_at (x : Number) (num den n : Z) (k : Z) : option (Z * Z) :=
  let '(a, b) := scale10 num den (n - k) in
  let lo := a / b in
  let r := a mod b in
  let hi := lo + 1 in
  let ok_lo := SFeqb (num_of_decimal false lo (n - k)) x in
  let ok_hi := SFeqb (num_of_decimal false hi (n - k)) x in
  let pick_hi := if hi =? 10 ^ k then Some (10 ^ (k - 1), n + 1) else Some (hi, n) in
  if r =? 0 then Some (lo, n)
  else
    match ok_lo, ok_hi with
    | true, true =>
        match 2 * r ?= b with
        | Lt => Some (lo, n)
        | Gt => pick_hi
        | Eq => if Z.even lo then Some (lo, n) else pick_hi
        end
    | true, false => Some (lo, n)
    | false, true => pick_hi
    | false, false => None
    end.

Fixpoint shortest_from (fuel : nat) (x : Number) (num den n : Z) (k : Z)
  : Z * Z * Z :=
  match fuel with
  | O => (num / den, k, n)
  | S fuel' =>
      match shortest_at x num den n k with
      | Some (s, n') => (s, k, n')
      | None => shortest_from fuel' x num den n (k + 1)
      end
  end.

(** [Number::toString] at radix 10. *)
Definition format_digits (s k n : Z) : string :=
  let ds := fixed_width (Z.to_nat k) s EmptyString in
  if (k <=? n) && (n <=? 21) then ds +:+ zeros (Z.to_nat (n - k))
  else if (0 <? n) && (n <=? 21) then
    fixed_width (Z.to_nat n) (s / 10 ^ (k - n)) EmptyString +:+ "." +:+
    fixed_width (Z.to_nat (k - n)) s EmptyString
  else if (-6 <? n) && (n <=? 0) then
    "0." +:+ zeros (Z.to_nat (- n)) +:+ ds
  else
    let ex := (if n - 1 <? 0 then "-" else "+") +:+ Z_to_digits (Z.abs (n - 1)) in
    if k =? 1 then ds +:+ "e" +:+ ex
    else
      fixed_width 1 (s / 10 ^ (k - 1)) EmptyString +:+ "." +:+
      fixed_width (Z.to_nat (k - 1)) s EmptyString +:+ "e" +:+ ex.

Definition num_to_string (x : Number) : string :=
  match x with
  | S754_nan => "NaN"
  | S754_zero _ => "0"
  | S754_infinity s => if s then "-Infinity" else "Infinity"
  | S754_finite sg m e =>
      let '(num, den) := ratio m e in
      let n := decimal_exponent 640 num den (-324) in
      let '(s, k, n') := shortest_from 17 (S754_finite false m e) num den n 1 in
      (if sg then "-" else "") +:+ format_digits s k n'
  end.

(** [Number.prototype.toFixed(f)]: the integer [n] nearest to [x * 10^f]
    (the larger one on a tie), printed with [f] digits after the point;
    values from [10^21] on fall back to [Number::toString]. *)
Definition round_scaled (m : positive) (e f : Z) : Z :=
  match e with
  | Zneg k => (2 * Zpos m * 10 ^ f + Z.pow_pos 2 k) / (2 * Z.pow_pos 2 k)
  | _ => Zpos m * 2 ^ e * 10 ^ f
  end.

Definition fixed_digits (n f : Z) : string :=
  let ip := Z_to_digits (n / 10 ^ f) in
  if f =? 0 then ip
  else ip +:+ "." +:+ fixed_width (Z.to_nat f) n EmptyString.

Definition toFixed (x : Number) (f : Z) : string :=
  match x with
  | S754_zero _ => fixed_digits 0 f
  | S754_finite sg m e =>
      let '(num, den) := ratio m e in
      (if sg then "-" else "") +:+
      (if below_pow10 num den 21 then fixed_digits (round_scaled m e f) f
       else num_to_string (S754_finite false m e))
  | _ => num_to_string x
  end.

(** ** Values

    What [response.json()] can deliver, [undefined] for the properties an
    object does not have, and the built-in functions an object inherits
    from [Object.prototype] ([VFun name] is the function of that name). *)

#[warnings="-register-all"]
Inductive Value : Type :=
  | VUndefined
  | VNull
  | VBool (b : bool)
  | VNum (x : Number)
  | VStr (s : string)
  | VArr (items : list Value)
  | VObj (fields : list (string * Value))
  | VFun (name : string).

(** ToBoolean: what [if (v)], [!v] and [v || w] test. *)
Definition truthy (v : Value) : bool :=
  match v with
  | VUndefined | VNull => false
  | VBool b => b
  | VNum x => num_truthy x
  | VStr s => negb (String.eqb s "")
  | VArr _ | VObj _ | VFun _ => true
  end.

(** [v || w] *)
Definition or_else (v w : Value) : Value := if truthy v then v else w.

(** ToString, as applied by template literals. A built-in function prints
    as its source text, which names it and hides its body (the form V8 and
    JavaScriptCore give; other engines differ in the white space). *)
Fixpoint to_string (v : Value) : string :=
  match v with
  | VUndefined => "undefined"
  | VNull => "null"
  | VBool b => if b then "true" else "false"
  | VNum x => num_to_string x
  | VStr s => s
  | VArr items =>
      let item (x : Value) : string :=
        match x with
        | VUndefined | VNull => ""
        | _ => to_string x
        end in
      (fix join (l : list Value) : string :=
         match l with
         | [] => ""
         | [x] => item x
         | x :: r => item x +:+ "," +:+ join r
         end) items
  | VObj _ => "[object Object]"
  | VFun name => "function " +:+ name +:+ "() { [native code] }"
  end.

(** The last binding of [k], as [JSON.parse] keeps it. *)
Fixpoint field (fields : list (string * Value)) (k : string) : Value :=
  match fields with
  | [] => VUndefined
  | (k', v) :: r =>
      if existsb (fun kv => String.eqb kv.1 k) r then field r k
      else if String.eqb k' k then v
      else VUndefined
  end.

(** [v.k]: [None] stands for the TypeError raised on [null] and
    [undefined]; the properties read by the code ([value], [errorCode],
    [info], [juice], [address]) exist on objects only. *)
Definition prop (v : Value) (k : string) : option Value :=
  match v with
  | VUndefined | VNull => None
  | VObj fields => Some (field fields k)
  | _ => Some VUndefined
  end.

(** [v?.k] *)
Definition opt_prop (v : Value) (k : string) : Value :=
  match prop v k with
  | Some w => w
  | None => VUndefined
  end.

(** [s.toUpperCase()], on the letters a to z. *)
Definition upper_char (c : ascii) : ascii :=
  let n := N_of_ascii c in
  if (97 <=? n)%N && (n <=? 122)%N then ascii_of_N (n - 32) else c.

Fixpoint toUpperCase (s : string) : string :=
  match s with
  | EmptyString => EmptyString
  | String c r => String (upper_char c) (toUpperCase r)
  end.

(** [s.replace(c, '')] for a pattern [c] of one character: the first
    occurrence of [c] is taken out. *)
Fixpoint remove_first (c : ascii) (s : string) : string :=
  match s with
  | EmptyString => EmptyString
  | String c' r => if Ascii.eqb c' c then r else String c' (remove_first c r)
  end.

(** A parameter declared with a default, [f(x = d)]: the default stands
    in for an argument that is left out and for an explicit [undefined]. *)
Definition default_arg (d : Value) (a : option Value) : Value :=
  match a with
  | None | Some VUndefined => d
  | Some v => v
  end.

(** What every object written as a literal inherits from
    [Object.prototype]: its methods, its [constructor] (the function
    [Object]) and, under [__proto__], the prototype itself. *)
Definition inherited (k : string) : option Value :=
  if String.eqb k "constructor" then Some (VFun "Object")
  else if String.eqb k "__proto__" then Some (VObj [])
  else if existsb (String.eqb k)
            ["toString"; "toLocaleString"; "valueOf"; "hasOwnProperty";
             "isPrototypeOf"; "propertyIsEnumerable"; "__defineGetter__";
             "__defineSetter__"; "__lookupGetter__"; "__lookupSetter__"]
       then Some (VFun k)
  else None.

(** [v === w] for a number [w]. *)
Definition strict_eq_num (v : Value) (w : Number) : bool :=
  match v with
  | VNum x => SFeqb x w
  | _ => false
  end.

End Js.

Import Js.

(* ===================================================================== *)
(** * The objects *)
(* ===================================================================== *)

(** Objects of class [ConvexClient] live in a store and are referred to by
    their location. *)
Definition loc : Type := nat.

(** The fields of a [ConvexClient]. *)
Module Client.

Record t : Type := mk {
  peerUrl : string;
  address : Value;
  keyPair : Value;
  sequence : Number;
  isConnected : bool;
  timeout : Z
}.

(** [new ConvexClient(peerUrl)] *)
Definition new (url : string) : t :=
  {| peerUrl := url; address := VNull; keyPair := VNull;
     sequence := num_of_Z 0; isConnected := false; timeout := 30000 |}.

Definition set_address (v : Value) (c : t) : t :=
  mk (peerUrl c) v (keyPair c) (sequence c) (isConnected c) (timeout c).
Definition set_keyPair (v : Value) (c : t) : t :=
  mk (peerUrl c) (address c) v (sequence c) (isConnected c) (timeout c).
Definition set_sequence (x : Number) (c : t) : t :=
  mk (peerUrl c) (address c) (keyPair c) x (isConnected c) (timeout c).
Definition set_isConnected (b : bool) (c : t) : t :=
  mk (peerUrl c) (address c) (keyPair c) (sequence c) b (timeout c).

End Client.

(** The fields of the [VorteXInterface]. [tokens] is the token registry,
    by its own properties: a symbol is bound to its on-chain address or to
    [null]. *)
Module Vx.

Record t : Type := mk {
  convexClient : option loc;
  isConnected : bool;
  isSwapping : bool;
  tokens : gmap string Value;
  fromToken : string;
  toToken : string;
  fromAmount : Number;
  toAmount : Number
}.

(** The registry the constructor installs. *)
Definition default_tokens : gmap string Value :=
  <["CVX" := VNull]> (<["CVM" := VNull]> (<["PAI" := VNull]>
  (<["USDC" := VNull]> (<["TOKEN" := VNull]> ∅)))).

(** [new VorteXInterface()] *)
Definition new : t :=
  {| convexClient := None; isConnected := false; isSwapping := false;
     tokens := default_tokens; fromToken := "CVX"; toToken := "PAI";
     fromAmount := num_of_Z 0; toAmount := num_of_Z 0 |}.

Definition set_convexClient (c : option loc) (v : t) : t :=
  mk c (isConnected v) (isSwapping v) (tokens v) (fromToken v) (toToken v)
     (fromAmount v) (toAmount v).
Definition set_isConnected (b : bool) (v : t) : t :=
  mk (convexClient v) b (isSwapping v) (tokens v) (fromToken v) (toToken v)
     (fromAmount v) (toAmount v).
Definition set_isSwapping (b : bool) (v : t) : t :=
  mk (convexClient v) (isConnected v) b (tokens v) (fromToken v) (toToken v)
     (fromAmount v) (toAmount v).
Definition set_pair (from to : string) (v : t) : t :=
  mk (convexClient v) (isConnected v) (isSwapping v) (tokens v) from to
     (fromAmount v) (toAmount v).
Definition set_fromAmount (x : Number) (v : t) : t :=
  mk (convexClient v) (isConnected v) (isSwapping v) (tokens v) (fromToken v)
     (toToken v) x (toAmount v).
Definition set_toAmount (x : Number) (v : t) : t :=
  mk (convexClient v) (isConnected v) (isSwapping v) (tokens v) (fromToken v)
     (toToken v) (fromAmount v) x.

End Vx.

(** The whole mutable state: the controller, the store of clients, and the
    values of the elements matched by [.token-input input[type="number"]],
    in document order (the first is the "you pay" field, the second the
    "you receive" field). *)
Record State : Type := mkState {
  vx : Vx.t;
  heap : loc -> Client.t;
  next_loc : loc;
  numberInputs : list string
}.

Definition on_vx (f : Vx.t -> Vx.t) (s : State) : State :=
  mkState (f (vx s)) (heap s) (next_loc s) (numberInputs s).

Definition on_client (l : loc) (f : Client.t -> Client.t) (s : State) : State :=
  mkState (vx s) (fun l' => if Nat.eqb l' l then f (heap s l') else heap s l')
          (next_loc s) (numberInputs s).

Definition on_inputs (f : list string -> list string) (s : State) : State :=
  mkState (vx s) (heap s) (next_loc s) (f (numberInputs s)).

(** Allocation of a fresh client. *)
Definition alloc (c : Client.t) (s : State) : State :=
  mkState (vx s)
          (fun l' => if Nat.eqb l' (next_loc s) then c else heap s l')
          (S (next_loc s)) (numberInputs s).

(* ===================================================================== *)
(** * Asynchronous programs *)
(* ===================================================================== *)

Module Async.

(** An exception: [new Error(message)] and the errors raised by the run
    time ([TypeError], a rejected [fetch], a body that is not JSON). *)
Record JsError : Type := mkError { err_name : string; err_message : string }.

Definition Error (message : string) : JsError := mkError "Error" message.
Definition TypeError (message : string) : JsError := mkError "TypeError" message.

(** The error object as [console.error] receives it. *)
Definition error_value (e : JsError) : Value :=
  VStr (err_name e +:+ ": " +:+ err_message e).

(** A call of [fetch]: the URL, the method, and the object handed to
    [JSON.stringify] for the body. *)
Record Request : Type := mkRequest {
  req_url : string;
  req_method : string;
  req_body : list (string * Value)
}.

(** What comes back: the status line and the body read by
    [response.json()] ([None] when it is not JSON). *)
Record Response : Type := mkResponse {
  status : Z;
  statusText : string;
  body : option Value
}.

(** [response.ok] *)
Definition ok (r : Response) : bool := (200 <=? status r) && (status r <=? 299).

(** A request is answered, or fails in transport (unreachable peer, abort
    at the timeout). *)
Variant HttpOutcome : Type :=
  | Rejected (e : JsError)
  | Responded (r : Response).

Variant Level : Type := LLog | LError.

(** Effects on the page and the console that the code never reads back. *)
Variant Effect : Type :=
  | Alert (text : string)
  | Console (lvl : Level) (args : list Value)
  | Loading (message : string)
  | ButtonsEnabled
  | ConnectionStatus (connected : bool)
  | TokenDisplays (from to : string)
  | BalanceDisplays (fromBalance toBalance : Value)
  | Prompt (position : string).

(** What a run leaves behind besides the state: the requests sent, the
    asynchronous methods started without [await], and the effects. *)
Variant Event : Type :=
  | EvFetch (req : Request)
  | EvCall (name : string)
  | EvUi (e : Effect).

(** Programs. [Await] is the only point where a method is suspended;
    [Spawn] starts an asynchronous method whose promise is dropped. *)
Inductive Prog (A : Type) : Type :=
  | Ret (a : A)
  | Throw (e : JsError)
  | Get (k : State -> Prog A)
  | Modify (f : State -> State) (k : Prog A)
  | Emit (e : Effect) (k : Prog A)
  | Await (req : Request) (k : HttpOutcome -> Prog A)
  | Spawn (name : string) (task : Prog unit) (k : Prog A).

Arguments Ret {A} a.
Arguments Throw {A} e.
Arguments Get {A} k.
Arguments Modify {A} f k.
Arguments Emit {A} e k.
Arguments Await {A} req k.
Arguments Spawn {A} name task k.

Fixpoint bind {A B : Type} (p : Prog A) (f : A -> Prog B) : Prog B :=
  match p with
  | Ret a => f a
  | Throw e => Throw e
  | Get k => Get (fun s => bind (k s) f)
  | Modify g k => Modify g (bind k f)
  | Emit e k => Emit e (bind k f)
  | Await req k => Await req (fun o => bind (k o) f)
  | Spawn name task k => Spawn name task (bind k f)
  end.

#[global] Instance prog_ret : MRet Prog := @Ret.
#[global] Instance prog_bind : MBind Prog := fun A B f p => bind p f.

(** [try { p } catch (error) { h error }] *)
Fixpoint try_catch {A : Type} (p : Prog A) (h : JsError -> Prog A) : Prog A :=
  match p with
  | Ret a => Ret a
  | Throw e => h e
  | Get k => Get (fun s => try_catch (k s) h)
  | Modify g k => Modify g (try_catch k h)
  | Emit e k => Emit e (try_catch k h)
  | Await req k => Await req (fun o => try_catch (k o) h)
  | Spawn name task k => Spawn name task (try_catch k h)
  end.

(** [try { p } finally { f }] *)
Fixpoint try_finally {A : Type} (p : Prog A) (f : Prog unit) : Prog A :=
  match p with
  | Ret a => bind f (fun _ => Ret a)
  | Throw e => bind f (fun _ => Throw e)
  | Get k => Get (fun s => try_finally (k s) f)
  | Modify g k => Modify g (try_finally k f)
  | Emit e k => Emit e (try_finally k f)
  | Await req k => Await req (fun o => try_finally (k o) f)
  | Spawn name task k => Spawn name task (try_finally k f)
  end.

Definition get : Prog State := Get Ret.
Definition modify (f : State -> State) : Prog unit := Modify f (Ret tt).
Definition emit (e : Effect) : Prog unit := Emit e (Ret tt).
Definition throw {A : Type} (e : JsError) : Prog A := Throw e.
Definition spawn (name : string) (task : Prog unit) : Prog unit :=
  Spawn name task (Ret tt).

(** [await fetch(url, ...)]: a rejection is thrown at the caller. *)
Definition fetch (req : Request) : Prog Response :=
  Await req (fun o =>
    match o with
    | Rejected e => Throw e
    | Responded r => Ret r
    end).

(** [await response.json()] *)
Definition json (r : Response) : Prog Value :=
  match body r with
  | Some v => Ret v
  | None => Throw (mkError "SyntaxError" "Unexpected token in JSON")
  end.

(** [v.k] *)
Definition get_prop (v : Value) (k : string) : Prog Value :=
  match prop v k with
  | Some w => Ret w
  | None =>
      Throw (TypeError ("Cannot read properties of " +:+ to_string v +:+
                        " (reading '" +:+ k +:+ "')"))
  end.

Definition console_log (args : list Value) : Prog unit := emit (Console LLog args).
Definition console_error (args : list Value) : Prog unit := emit (Console LError args).

(** ** Running a program to completion

    The peer is a script: its [n]-th answer, counting the requests in the
    order in which they are issued. A method started without [await] runs
    up to its end at the point where it is started. *)

Variant Completion (A : Type) : Type :=
  | Normal (a : A)
  | Thrown (e : JsError).

Arguments Normal {A} a.
Arguments Thrown {A} e.

Definition is_fetch (ev : Event) : bool :=
  match ev with EvFetch _ => true | _ => false end.

(** The requests of a trace, in order. *)
Definition requests (evs : list Event) : list Request :=
  omap (fun ev => match ev with EvFetch r => Some r | _ => None end) evs.

Fixpoint run {A : Type} (peer : nat -> HttpOutcome) (n : nat) (p : Prog A)
    (s : State) : Completion A * State * list Event :=
  match p with
  | Ret a => (Normal a, s, [])
  | Throw e => (Thrown e, s, [])
  | Get k => run peer n (k s) s
  | Modify f k => run peer n k (f s)
  | Emit e k =>
      let '(r, s', evs) := run peer n k s in (r, s', EvUi e :: evs)
  | Await req k =>
      let '(r, s', evs) := run peer (S n) (k (peer n)) s in
      (r, s', EvFetch req :: evs)
  | Spawn name task k =>
      let '(_, s1, evs1) := run peer n task s in
      let '(r, s2, evs2) := run peer (n + length (requests evs1)) k s1 in
      (r, s2, EvCall name :: evs1 ++ evs2)
  end.

End Async.

Import Async.

(* ===================================================================== *)
(** * class ConvexClient (src/convex-client.js) *)
(* ===================================================================== *)

Module ConvexClient.

(** [this], for the client at [self]. *)
Definition this (self : loc) : Prog Client.t := Get (fun s => Ret (heap s self)).

Definition update (self : loc) (f : Client.t -> Client.t) : Prog unit :=
  modify (on_client self f).

Definition demo_key : string :=
  "d82e78594610f708ad47f666bbacbab1711760652cb88bf7515ed6c3ae84a08d".

Definition status_line (r : Response) : string :=
  Z_to_digits (status r) +:+ " " +:+ statusText r.

Definition post (url : string) (fields : list (string * Value)) : Request :=
  {| req_url := url; req_method := "POST"; req_body := fields |}.

(** [setAddress(address)] *)
Definition setAddress (self : loc) (address : Value) : Prog unit :=
  update self (Client.set_address address);;
  update self (Client.set_sequence (num_of_Z 0)).

(** [setKeyPair(keyPair)] *)
Definition setKeyPair (self : loc) (keyPair : Value) : Prog unit :=
  update self (Client.set_keyPair keyPair).

(** [query(source, address = this.address)]; [None] is the omitted
    argument, for which, as for [undefined], the default stands in. *)
Definition query (self : loc) (source : string) (address : option Value)
  : Prog Value :=
  c ← this self;
  let address := default_arg (Client.address c) address in
  try_catch
    (response ← fetch (post (Client.peerUrl c +:+ "/api/v1/query")
                         [("address", address); ("source", VStr source)]);
     if negb (ok response) then
       throw (Error ("Query failed: " +:+ status_line response))
     else
       result ← json response;
       errorCode ← get_prop result "errorCode";
       if truthy errorCode then
         value ← get_prop result "value";
         throw (Error ("Convex error: " +:+ to_string (or_else value errorCode)))
       else mret result)
    (fun error =>
       console_error [VStr "❌ Query failed:"; VStr (err_message error)];;
       throw error).

(** [transact(source)] *)
Definition transact (self : loc) (source : string) : Prog Value :=
  c ← this self;
  if negb (Client.isConnected c) then
    throw (Error "Not connected to Convex network")
  else if negb (truthy (Client.address c)) then
    throw (Error "No address set for transaction")
  else
    try_catch
      (console_log [VStr "📤 Executing transaction:"; VStr source];;
       response ← fetch (post (Client.peerUrl c +:+ "/api/v1/transact")
                           [("address", Client.address c);
                            ("source", VStr source);
                            ("seed", Client.keyPair c)]);
       if negb (ok response) then
         throw (Error ("Transaction failed: " +:+ status_line response))
       else
         result ← json response;
         errorCode ← get_prop result "errorCode";
         if truthy errorCode then
           value ← get_prop result "value";
           throw (Error ("Transaction error: " +:+
                         to_string (or_else value errorCode)))
         else
           update self (fun c' =>
             Client.set_sequence (num_add (Client.sequence c') (num_of_Z 1)) c');;
           console_log [VStr "✅ Transaction completed:"; result];;
           console_log [VStr "⛽ Gas used:";
                        opt_prop (opt_prop result "info") "juice"];;
           mret result)
      (fun error =>
         console_error [VStr "❌ Transaction failed:"; VStr (err_message error)];;
         throw error).

(** [getBalance(address = this.address)] *)
Definition getBalance (self : loc) (address : option Value) : Prog Value :=
  c ← this self;
  let address := default_arg (Client.address c) address in
  try_catch
    (result ← query self ("(balance " +:+ to_string address +:+ ")") None;
     value ← get_prop result "value";
     mret (or_else value (VNum (num_of_Z 0))))
    (fun error =>
       console_error [VStr "Failed to get balance:"; VStr (err_message error)];;
       mret (VNum (num_of_Z 0))).

(** [getAccountInfo(address = this.address)]. [address.replace] exists on
    strings only. *)
Definition getAccountInfo (self : loc) (address : option Value) : Prog Value :=
  c ← this self;
  let address :=
    match address with
    | None | Some VUndefined => Client.address c
    | Some a => a
    end in
  found ← try_catch
    (account ←
       match address with
       | VStr a => mret (remove_first "#" a)
       | VUndefined | VNull =>
           throw (TypeError ("Cannot read properties of " +:+ to_string address
                             +:+ " (reading 'replace')"))
       | _ => throw (TypeError "address.replace is not a function")
       end;
     response ← fetch {| req_url := Client.peerUrl c +:+ "/api/v1/accounts/"
                                    +:+ account;
                         req_method := "GET"; req_body := [] |};
     if ok response then
       info ← json response;
       mret (Some info)
     else mret None)
    (fun error =>
       console_error [VStr "Failed to get account info:";
                      VStr (err_message error)];;
       mret None);
  mret (default VNull found).

(** [buyTokens(tokenAddress, amount)] *)
Definition buyTokens (self : loc) (tokenAddress amount : Value) : Prog Value :=
  let source :=
    "(do (import exchange.torus :as torus) (torus/buy-tokens " +:+
    to_string tokenAddress +:+ " " +:+ to_string amount +:+ "))" in
  transact self source.

(** [sellTokens(tokenAddress, amount)] *)
Definition sellTokens (self : loc) (tokenAddress amount : Value) : Prog Value :=
  let source :=
    "(do (import exchange.torus :as torus) (torus/sell-tokens " +:+
    to_string tokenAddress +:+ " " +:+ to_string amount +:+ "))" in
  transact self source.

(** [getMarket(tokenAddress)] *)
Definition getMarket (self : loc) (tokenAddress : Value) : Prog Value :=
  let source :=
    "(do (import exchange.torus :as torus) (torus/get-market " +:+
    to_string tokenAddress +:+ "))" in
  try_catch
    (result ← query self source None;
     get_prop result "value")
    (fun _ => mret VNull).

(** [requestFaucetCoins()] *)
Definition requestFaucetCoins (self : loc) : Prog unit :=
  c ← this self;
  try_catch
    (response ← fetch (post (Client.peerUrl c +:+ "/api/v1/faucet")
                         [("address", Client.address c);
                          ("amount", VStr "10000000")]);
     if ok response then
       data ← json response;
       console_log [VStr "✅ Received faucet coins:"; data]
     else mret tt)
    (fun _ => console_log [VStr "Faucet not available"]).

(** [createDemoAccount()] *)
Definition createDemoAccount (self : loc) : Prog Value :=
  c ← this self;
  created ← try_catch
    (response ← fetch (post (Client.peerUrl c +:+ "/api/v1/createAccount")
                         [("accountKey", VStr demo_key)]);
     if ok response then
       accountData ← json response;
       address ← get_prop accountData "address";
       setAddress self address;;
       setKeyPair self (VStr demo_key);;
       console_log [VStr "✅ Created new account:"; accountData];;
       requestFaucetCoins self;;
       mret (Some accountData)
     else mret None)
    (fun _ =>
       console_log [VStr "Account creation not available, using demo fallback"];;
       mret None);
  match created with
  | Some accountData => mret accountData
  | None =>
      setAddress self (VStr "#12");;
      setKeyPair self (VStr "demo");;
      c' ← this self;
      console_log [VStr "📱 Using demo account:"; Client.address c'];;
      mret VUndefined
  end.

(** [initialize()] *)
Definition initialize (self : loc) : Prog bool :=
  try_catch
    (console_log [VStr "🔄 Initializing Convex connection..."];;
     testResult ← query self "(+ 2 2 2 1)" (Some (VStr "#12"));
     value ← get_prop testResult "value";
     if negb (strict_eq_num value (num_of_Z 7)) then
       throw (Error "Peer connection test failed")
     else
       update self (Client.set_isConnected true);;
       console_log [VStr "✅ Convex peer connection established"];;
       mret true)
    (fun error =>
       console_error [VStr "❌ Failed to initialize Convex connection:";
                      error_value error];;
       throw error).

(** [static connect(peerServerURL, address = null, keyPair = null)] *)
Definition connect (peerServerURL : string) (address keyPair : Value)
  : Prog loc :=
  s ← get;
  let client := next_loc s in
  modify (alloc (Client.new peerServerURL));;
  initialize client;;
  (if truthy address && truthy keyPair then
     setAddress client address;;
     setKeyPair client keyPair
   else
     createDemoAccount client;; mret tt);;
  mret client.

(** [close()] *)
Definition close (self : loc) : Prog unit :=
  update self (Client.set_isConnected false);;
  update self (Client.set_address VNull);;
  update self (Client.set_keyPair VNull);;
  update self (Client.set_sequence (num_of_Z 0));;
  console_log [VStr "📴 Convex connection closed"].

End ConvexClient.

(* ===================================================================== *)
(** * class VorteXInterface (src/vortex-interface.js) *)
(* ===================================================================== *)

Module VorteXInterface.

Definition this : Prog Vx.t := Get (fun s => Ret (vx s)).

Definition update (f : Vx.t -> Vx.t) : Prog unit := modify (on_vx f).

(** [this.convexClient.m(...)] raises a TypeError when the field is
    [null]. *)
Definition client_of (v : Vx.t) (method : string) : Prog loc :=
  match Vx.convexClient v with
  | Some l => mret l
  | None =>
      throw (TypeError ("Cannot read properties of null (reading '" +:+
                        method +:+ "')"))
  end.

(** [sym === 'CVX' || sym === 'CVM'] *)
Definition is_native (sym : string) : bool :=
  String.eqb sym "CVX" || String.eqb sym "CVM".

(** [this.tokens[sym]]: the registry's own entry for [sym], or else what
    the registry, an object literal, inherits under that name. *)
Definition token_address (v : Vx.t) (sym : string) : Value :=
  match Vx.tokens v !! sym with
  | Some address => address
  | None => default VUndefined (inherited sym)
  end.

(** [updateConnectionStatus(connected)] *)
Definition updateConnectionStatus (connected : bool) : Prog unit :=
  emit (ConnectionStatus connected).

(** [showLoading(message)] *)
Definition showLoading (message : string) : Prog unit :=
  emit (Loading message).

(** [hideLoading()] *)
Definition hideLoading : Prog unit :=
  v ← this;
  updateConnectionStatus (Vx.isConnected v);;
  emit ButtonsEnabled.

(** [showNotification(message, type = 'info')] *)
Definition showNotification (message type : string) : Prog unit :=
  let icon :=
    if String.eqb type "success" then "✅"
    else if String.eqb type "error" then "❌"
    else "ℹ️" in
  emit (Alert (icon +:+ " " +:+ message));;
  console_log [VStr (icon +:+ " " +:+ message)].

(** [updateTokenDisplays()] *)
Definition updateTokenDisplays : Prog unit :=
  v ← this;
  emit (TokenDisplays (Vx.fromToken v) (Vx.toToken v)).

(** [getTokenBalance(tokenSymbol)] *)
Definition getTokenBalance (tokenSymbol : string) : Prog Value :=
  v ← this;
  match Vx.convexClient v with
  | None => mret (VNum (num_of_Z 0))
  | Some client =>
      try_catch
        (let tokenAddress := token_address v tokenSymbol in
         if negb (truthy tokenAddress) || String.eqb tokenSymbol "CVX"
            || String.eqb tokenSymbol "CVM" then
           ConvexClient.getBalance client None
         else
           c ← ConvexClient.this client;
           result ← ConvexClient.query client
                      ("(call " +:+ to_string tokenAddress +:+ " (balance " +:+
                       to_string (Client.address c) +:+ "))") None;
           value ← get_prop result "value";
           mret (or_else value (VNum (num_of_Z 0))))
        (fun error =>
           console_error [VStr ("Failed to get " +:+ tokenSymbol +:+ " balance:");
                          error_value error];;
           mret (VNum (num_of_Z 0)))
  end.

(** [updateBalances()] *)
Definition updateBalances : Prog unit :=
  v ← this;
  if negb (Vx.isConnected v) || negb (bool_decide (is_Some (Vx.convexClient v)))
  then mret tt
  else
    try_catch
      (fromBalance ← getTokenBalance (Vx.fromToken v);
       v' ← this;
       toBalance ← getTokenBalance (Vx.toToken v');
       emit (BalanceDisplays fromBalance toBalance))
      (fun error =>
         console_error [VStr "Failed to update balances:"; error_value error]).

(** [onFromAmountChange(amount)], for the string the input event carries *)
Definition onFromAmountChange (amount : string) : Prog unit :=
  v ← this;
  if negb (Vx.isConnected v) || String.eqb amount ""
     || num_isNaN (StringToNumber amount)
     || num_leb (StringToNumber amount) (num_of_Z 0) then
    modify (on_inputs (fun inputs => <[1%nat := ""]> inputs))
  else
    try_catch
      (update (Vx.set_fromAmount (parseFloat amount));;
       v' ← this;
       let estimatedOutput :=
         num_mul (Vx.fromAmount v') (num_of_decimal false 97 (-2)) in
       s ← get;
       match numberInputs s !! 1%nat with
       | Some _ =>
           modify (on_inputs (fun inputs =>
                     <[1%nat := toFixed estimatedOutput 4]> inputs));;
           update (Vx.set_toAmount estimatedOutput)
       | None => mret tt
       end)
      (fun error =>
         console_error [VStr "Failed to calculate output amount:";
                        error_value error]).

(** [swapTokenPositions()] *)
Definition swapTokenPositions : Prog unit :=
  update (fun v => Vx.set_pair (Vx.toToken v) (Vx.fromToken v) v);;
  updateTokenDisplays;;
  modify (on_inputs (map (fun _ => "")));;
  update (Vx.set_fromAmount (num_of_Z 0));;
  update (Vx.set_toAmount (num_of_Z 0));;
  v ← this;
  if Vx.isConnected v then spawn "updateBalances" updateBalances
  else mret tt.

Definition unsupported_swap_message : string :=
  "Token-to-token swaps not implemented yet. Please swap through CVX.".

Definition invalid_amount_message : string := "Please enter a valid amount".

(** The [try] block of [executeSwap()] *)
Definition executeSwap_try : Prog unit :=
  update (Vx.set_isSwapping true);;
  showLoading "Executing swap...";;
  s ← get;
  value ←
    match head (numberInputs s) with
    | Some value => mret value
    | None =>
        throw (TypeError "Cannot read properties of null (reading 'value')")
    end;
  let amount := parseFloat value in
  if negb (num_truthy amount) || num_leb amount (num_of_Z 0) then
    throw (Error invalid_amount_message)
  else
    v ← this;
    (if is_native (Vx.fromToken v) && negb (is_native (Vx.toToken v)) then
       let tokenAddress := token_address v (Vx.toToken v) in
       client ← client_of v "buyTokens";
       ConvexClient.buyTokens client tokenAddress (VNum amount)
     else if negb (is_native (Vx.fromToken v)) && is_native (Vx.toToken v) then
       let tokenAddress := token_address v (Vx.fromToken v) in
       client ← client_of v "sellTokens";
       ConvexClient.sellTokens client tokenAddress (VNum amount)
     else throw (Error unsupported_swap_message));;
    hideLoading;;
    showNotification "Swap completed successfully!" "success";;
    modify (on_inputs (map (fun _ => "")));;
    update (Vx.set_fromAmount (num_of_Z 0));;
    update (Vx.set_toAmount (num_of_Z 0));;
    spawn "updateBalances" updateBalances.

(** The [catch (error)] block of [executeSwap()] *)
Definition executeSwap_catch (error : JsError) : Prog unit :=
  console_error [VStr "Swap failed:"; error_value error];;
  hideLoading;;
  showNotification ("Swap failed: " +:+ err_message error) "error".

(** [executeSwap()] *)
Definition executeSwap : Prog unit :=
  v ← this;
  if negb (Vx.isConnected v) then
    showNotification "Please connect your wallet first" "error"
  else if Vx.isSwapping v then mret tt
  else
    try_finally
      (try_catch executeSwap_try executeSwap_catch)
      (update (Vx.set_isSwapping false)).

(** [connectWallet()] *)
Definition connectWallet : Prog unit :=
  try_catch
    (showLoading "Connecting to Convex...";;
     client ← ConvexClient.connect "http://peer.convex.live:8080" VNull VNull;
     update (Vx.set_convexClient (Some client));;
     update (Vx.set_isConnected true);;
     updateConnectionStatus true;;
     spawn "updateBalances" updateBalances;;
     hideLoading;;
     showNotification "Connected to Convex network!" "success")
    (fun error =>
       console_error [VStr "Failed to connect wallet:"; error_value error];;
       hideLoading;;
       showNotification
         "Failed to connect to Convex network. Please try again." "error").

(** [toggleConnection()] *)
Definition toggleConnection : Prog unit :=
  v ← this;
  if Vx.isConnected v then
    client ← client_of v "close";
    ConvexClient.close client;;
    update (Vx.set_convexClient None);;
    update (Vx.set_isConnected false);;
    updateConnectionStatus false;;
    showNotification "Disconnected from Convex" "info"
  else connectWallet.

(** [showTokenSelector(position)], for the answer [selected] given to the
    prompt ([None] when it is dismissed). The text of the prompt lists the
    other symbols of the registry. *)
Definition showTokenSelector (position : string) (selected : option string)
  : Prog unit :=
  emit (Prompt position);;
  v ← this;
  match selected with
  | Some selectedToken =>
      let symbol := toUpperCase selectedToken in
      if negb (String.eqb selectedToken "")
         && bool_decide (is_Some (Vx.tokens v !! symbol)) then
        (if String.eqb position "from"
         then update (fun v => Vx.set_pair symbol (Vx.toToken v) v)
         else update (fun v => Vx.set_pair (Vx.fromToken v) symbol v));;
        updateTokenDisplays;;
        v' ← this;
        if Vx.isConnected v' then spawn "updateBalances" updateBalances
        else mret tt
      else mret tt
  | None => mret tt
  end.

(** ** The listeners installed by [setupEventListeners()] *)

(** The [input] event of the "you pay" field: the field holds [value] when
    the listener reads [e.target.value]. *)
Definition onInput (value : string) : Prog unit :=
  modify (on_inputs (fun inputs => <[0%nat := value]> inputs));;
  onFromAmountChange value.

(** The callback of [setInterval(..., 15000)]. *)
Definition onTimer : Prog unit :=
  v ← this;
  if Vx.isConnected v then spawn "updateBalances" updateBalances
  else mret tt.

End VorteXInterface.

(* ===================================================================== *)
(** * Footprints of programs *)
(* ===================================================================== *)

(** [Within F P p]: every state update of [p] is one of [F], and every
    event [p] can leave (spawned methods included) satisfies [P]. *)
Section Footprint.

Variable F : (State -> State) -> Prop.
Variable P : Event -> Prop.

Inductive Within : forall {A : Type}, Prog A -> Prop :=
  | within_ret {A} (a : A) : Within (Ret a)
  | within_throw {A} (e : JsError) : Within (@Throw A e)
  | within_get {A} (k : State -> Prog A) :
      (forall s, Within (k s)) -> Within (Get k)
  | within_modify {A} (f : State -> State) (k : Prog A) :
      F f -> Within k -> Within (Modify f k)
  | within_emit {A} (e : Effect) (k : Prog A) :
      P (EvUi e) -> Within k -> Within (Emit e k)
  | within_await {A} (req : Request) (k : HttpOutcome -> Prog A) :
      P (EvFetch req) -> (forall o, Within (k o)) -> Within (Await req k)
  | within_spawn {A} (name : string) (task : Prog unit) (k : Prog A) :
      P (EvCall name) -> Within task -> Within k ->
      Within (Spawn name task k).

End Footprint.

(** Programs that leave the state alone. *)
Definition ReadOnly {A : Type} (p : Prog A) : Prop :=
  Within (fun _ => False) (fun _ => True) p.

(** Projections of the result of a run. *)
Definition completion {A : Type} (o : Completion A * State * list Event)
  : Completion A := o.1.1.
Definition final {A : Type} (o : Completion A * State * list Event)
  : State := o.1.2.
Definition events {A : Type} (o : Completion A * State * list Event)
  : list Event := o.2.

(** ** The requests of the client *)

(** The request [query(source, address)] sends. *)
Definition query_request (c : Client.t) (source : string) (address : Value)
  : Request :=
  ConvexClient.post (Client.peerUrl c +:+ "/api/v1/query")
                    [("address", address); ("source", VStr source)].

(** The request [transact(source)] sends. *)
Definition transact_request (c : Client.t) (source : string) : Request :=
  ConvexClient.post (Client.peerUrl c +:+ "/api/v1/transact")
                    [("address", Client.address c); ("source", VStr source);
                     ("seed", Client.keyPair c)].

Definition is_query (ev : Event) : Prop :=
  exists c source address, ev = EvFetch (query_request c source address).

Definition is_transact (ev : Event) : Prop :=
  exists c source, ev = EvFetch (transact_request c source).

(** The native-balance query of [getBalance()]: [(balance <account>)]. *)
Definition native_balance_query (c : Client.t) : Request :=
  query_request c ("(balance " +:+ to_string (Client.address c) +:+ ")")
                (Client.address c).

(** The contract balance query of [getTokenBalance]:
    [(call <address> (balance <account>))]. *)
Definition contract_balance_query (c : Client.t) (tokenAddress : Value)
  : Request :=
  query_request c
    ("(call " +:+ to_string tokenAddress +:+ " (balance " +:+
     to_string (Client.address c) +:+ "))")
    (Client.address c).

(* ===================================================================== *)
(** * Vocabulary of the statements *)
(* ===================================================================== *)

(** ** Reading a printed number *)

(** What follows the first decimal point of [s], if there is one. *)
Fixpoint decimal_part (s : string) : option string :=
  match s with
  | EmptyString => None
  | String c r => if Ascii.eqb c "."%char then Some r else decimal_part r
  end.

Fixpoint all_digits (s : string) : bool :=
  match s with
  | EmptyString => true
  | String c r => is_digit c && all_digits r
  end.

(** [|x| < 10^21], compared exactly: the range in which [toFixed] prints
    positional digits. *)
Definition below_1e21 (x : Number) : bool :=
  match x with
  | S754_zero _ => true
  | S754_finite _ m e => let '(num, den) := ratio m e in below_pow10 num den 21
  | _ => false
  end.

(** The error [transact] raises on an answer that carries an error code. *)
Definition transaction_error (r : Response) (result errorCode : Value)
  : JsError :=
  if ok r then
    Error ("Transaction error: " +:+
           to_string (or_else (opt_prop result "value") errorCode))
  else Error ("Transaction failed: " +:+ ConvexClient.status_line r).

(** What is left of a swap that failed with [error]: the trace of the
    [catch] block of [executeSwap], after the loading state was shown. *)
Definition failed_swap_trace (error : JsError) : list Event :=
  [EvUi (Loading "Executing swap...");
   EvUi (Console LError [VStr "Swap failed:"; error_value error]);
   EvUi (ConnectionStatus true);
   EvUi ButtonsEnabled;
   EvUi (Alert ("❌ Swap failed: " +:+ err_message error));
   EvUi (Console LLog [VStr ("❌ Swap failed: " +:+ err_message error)])].

(** Events other than the start of an asynchronous method and a notice
    to the user. *)
Definition not_a_call (ev : Event) : Prop :=
  match ev with
  | EvCall _ | EvUi (Alert _) => False
  | _ => True
  end.

(** The notice of a completed swap. *)
Definition swap_completed : Event :=
  EvUi (Alert "✅ Swap completed successfully!").

(** The notice of a swap that failed with [error]. *)
Definition swap_failed (error : JsError) : Event :=
  EvUi (Alert ("❌ Swap failed: " +:+ err_message error)).

(** The start of the balance refresh. *)
Definition balances_refreshed : Event := EvCall "updateBalances".

(** ** Answers of the peer *)

(** What [query] and [transact] take for a success: an answer with a 2xx
    status whose body is JSON, is neither [null] nor missing, and has no
    [errorCode], or one that is falsy. *)
Definition accepted_answer (o : HttpOutcome) (result : Value) : Prop :=
  exists r errorCode,
    o = Responded r /\ ok r = true /\ body r = Some result /\
    prop result "errorCode" = Some errorCode /\ truthy errorCode = false.

(** What [createDemoAccount] takes for a created account: an answer with
    a 2xx status whose body is JSON and is neither [null] nor missing;
    [address] is what its [address] property holds ([undefined] when it
    has none). *)
Definition account_created (o : HttpOutcome) (accountData address : Value)
  : Prop :=
  exists r,
    o = Responded r /\ ok r = true /\ body r = Some accountData /\
    prop accountData "address" = Some address.

(** The request of [createDemoAccount]. *)
Definition create_account_request (c : Client.t) : Request :=
  ConvexClient.post (Client.peerUrl c +:+ "/api/v1/createAccount")
                    [("accountKey", VStr ConvexClient.demo_key)].

(** The request of [requestFaucetCoins] for [address]. *)
Definition faucet_request (c : Client.t) (address : Value) : Request :=
  ConvexClient.post (Client.peerUrl c +:+ "/api/v1/faucet")
                    [("address", address); ("amount", VStr "10000000")].

(** The request of [getAccountInfo] for the account [address]. *)
Definition account_info_request (c : Client.t) (address : string) : Request :=
  {| req_url := Client.peerUrl c +:+ "/api/v1/accounts/" +:+
                remove_first "#" address;
     req_method := "GET"; req_body := [] |}.

(** The test of [initialize]: the answer to [(+ 2 2 2 1)] is accepted and
    its value is the number 7. *)
Definition peer_available (o : HttpOutcome) : Prop :=
  exists result,
    accepted_answer o result /\
    strict_eq_num (opt_prop result "value") (num_of_Z 7) = true.

(** ** Comparing states *)

(** [s'] differs from [s] in the client at [self] at most. *)
Definition same_but_client (self : loc) (s s' : State) : Prop :=
  vx s' = vx s /\ numberInputs s' = numberInputs s /\
  next_loc s' = next_loc s /\
  forall l, l <> self -> heap s' l = heap s l.

(** ** Balance lookups *)

(** The query [getTokenBalance] sends for [sym] through [client]. *)
Definition balance_request (s : State) (client : loc) (sym : string)
  : Request :=
  let tokenAddress := VorteXInterface.token_address (vx s) sym in
  if negb (truthy tokenAddress) || VorteXInterface.is_native sym
  then native_balance_query (heap s client)
  else contract_balance_query (heap s client) tokenAddress.

(** ** Text *)

(** Strings of ASCII characters, on which [toUpperCase] is the run time's
    [String.prototype.toUpperCase]. *)
Fixpoint ascii_only (s : string) : bool :=
  match s with
  | EmptyString => true
  | String c r => (N_of_ascii c <? 128)%N && ascii_only r
  end.

(* ===================================================================== *)
(** * The event loop *)
(* ===================================================================== *)

(** Listeners run one at a time. A listener runs until it returns or until
    its first [Await]; there it is parked with the request it waits for,
    and taken up again, alone, when the answer arrives. Answers arrive in
    any order, and other listeners run in between. The only point where a
    method lets others run is [await fetch(...)]: the body of an answer is
    taken to arrive with it ([await response.json()] goes on at once), and
    so does the [await] of a method of this program, which goes on as soon
    as that method is through. *)
Module EventLoop.

(** A parked method: the request it waits for and what it does with the
    answer. *)
Definition Task : Type := Request * (HttpOutcome -> Prog unit).

Variant Status (A : Type) : Type :=
  | Done (r : Completion A)
  | Blocked (req : Request) (k : HttpOutcome -> Prog A).

Arguments Done {A} r.
Arguments Blocked {A} req k.

(** Runs [p] up to its end or its first [Await]. The result carries the
    methods [p] started without [await] that are parked now, and the events
    left. *)
Fixpoint advance {A : Type} (p : Prog A) (s : State)
  : Status A * State * list Task * list Event :=
  match p with
  | Ret a => (Done (Normal a), s, [], [])
  | Throw e => (Done (Thrown e), s, [], [])
  | Get k => advance (k s) s
  | Modify f k => advance k (f s)
  | Emit e k =>
      let '(st, s', tasks, evs) := advance k s in (st, s', tasks, EvUi e :: evs)
  | Await req k => (Blocked req k, s, [], [EvFetch req])
  | Spawn name task k =>
      let '(st1, s1, tasks1, evs1) := advance task s in
      let parked :=
        match st1 with
        | Blocked req kt => [(req, kt)]
        | Done _ => []
        end in
      let '(st2, s2, tasks2, evs2) := advance k s1 in
      (st2, s2, tasks1 ++ parked ++ tasks2, EvCall name :: evs1 ++ evs2)
  end.

(** The page at rest between two listeners: the state and the parked
    methods. *)
Record Loop : Type := mkLoop {
  state : State;
  pending : list Task
}.

(** Runs the listener or the resumed method [p] on top of [tasks]. *)
Definition launch (p : Prog unit) (s : State) (tasks : list Task) : Loop :=
  let '(st, s', spawned, _) := advance p s in
  mkLoop s'
    (tasks ++ spawned ++
     match st with
     | Blocked req k => [(req, k)]
     | Done _ => []
     end).

(** What the user and the timer can trigger. *)
Inductive Listener : Prog unit -> Prop :=
  | on_connect_click : Listener VorteXInterface.toggleConnection
  | on_swap_click : Listener VorteXInterface.executeSwap
  | on_arrow_click : Listener VorteXInterface.swapTokenPositions
  | on_input value : Listener (VorteXInterface.onInput value)
  | on_selector_click position selected :
      Listener (VorteXInterface.showTokenSelector position selected)
  | on_timer : Listener VorteXInterface.onTimer.

Inductive step : Loop -> Loop -> Prop :=
  | step_listener c p :
      Listener p -> step c (launch p (state c) (pending c))
  | step_answer c before req k after o :
      pending c = before ++ (req, k) :: after ->
      step c (launch (k o) (state c) (before ++ after)).

(** The configurations the page can be in, starting with no swap under
    way and nothing parked. *)
Inductive reachable : Loop -> Prop :=
  | reachable_start s :
      Vx.isSwapping (vx s) = false -> reachable (mkLoop s [])
  | reachable_step c c' : reachable c -> step c c' -> reachable c'.

(** The parked methods that wait for the answer to a transaction. *)
Definition awaits_transact (t : Task) : Prop := is_transact (EvFetch t.1).

End EventLoop.

(** ** Programs that keep out of the way of a swap *)

(** State updates that leave the in-flight flag alone. *)
Definition keeps_flag (f : State -> State) : Prop :=
  forall s, Vx.isSwapping (vx (f s)) = Vx.isSwapping (vx s).

Definition not_transact (ev : Event) : Prop := ~ is_transact ev.

(** [Quiet p]: [p], the methods it starts included, never touches
    [isSwapping] and never sends a transaction. *)
Abbreviation Quiet := (Within keeps_flag not_transact).

(** [Straight p]: [p] itself never waits (the methods it starts may). *)
Inductive Straight : forall {A : Type}, Prog A -> Prop :=
  | straight_ret {A} (a : A) : Straight (Ret a)
  | straight_throw {A} (e : JsError) : Straight (@Throw A e)
  | straight_get {A} (k : State -> Prog A) :
      (forall s, Straight (k s)) -> Straight (Get k)
  | straight_modify {A} (f : State -> State) (k : Prog A) :
      Straight k -> Straight (Modify f k)
  | straight_emit {A} (e : Effect) (k : Prog A) :
      Straight k -> Straight (Emit e k)
  | straight_spawn {A} (name : string) (task : Prog unit) (k : Prog A) :
      Straight k -> Straight (Spawn name task k).

(** A parked method that keeps within a footprint. *)
Definition task_within (F : (State -> State) -> Prop) (P : Event -> Prop)
    (t : EventLoop.Task) : Prop :=
  P (EvFetch t.1) /\ forall o, Within F P (t.2 o).

(** What is left of [executeSwap] once its transaction is sent: a method
    that, given the answer, goes straight to its end without touching the
    flag or sending a transaction, and then clears the flag. *)
Definition finishes_swap (k : HttpOutcome -> Prog unit) : Prop :=
  exists inner : HttpOutcome -> Prog unit,
    forall o,
      k o = try_finally (inner o) (VorteXInterface.update (Vx.set_isSwapping false))
      /\ Quiet (inner o) /\ Straight (inner o).

(** ** One swap at a time *)

(** A parked method that is quiet. *)
Definition quiet_task : EventLoop.Task -> Prop :=
  task_within keeps_flag not_transact.

(** The parked rest of [executeSwap]: it waits for the answer to its
    transaction and then finishes the swap. *)
Definition swap_task (t : EventLoop.Task) : Prop :=
  EventLoop.awaits_transact t /\ finishes_swap t.2.

(** The page at rest is in one of two conditions. Either no swap is under
    way: the flag is clear and every parked method is quiet. Or one is: the
    flag is set, one parked method is the rest of [executeSwap], and all the
    others are quiet. *)
Definition one_swap (c : EventLoop.Loop) : Prop :=
  (Vx.isSwapping (vx (EventLoop.state c)) = false /\
   Forall quiet_task (EventLoop.pending c))
  \/
  (Vx.isSwapping (vx (EventLoop.state c)) = true /\
   exists before t after,
     EventLoop.pending c = before ++ t :: after /\
     swap_task t /\ Forall quiet_task (before ++ after)).

(** ** What no listener writes *)

(** State updates that leave the token registry alone. *)
Definition keeps_registry (f : State -> State) : Prop :=
  forall s, Vx.tokens (vx (f s)) = Vx.tokens (vx s).

(** The configurations the page reaches from [c]. *)
Definition reaches : EventLoop.Loop -> EventLoop.Loop -> Prop :=
  rtc EventLoop.step.

(** ** Invariants of the page at rest *)

(** [turn I p s Q B Q']: running [p] from [s] up to its end or its first
    [Await] keeps the invariant [I] of the page at rest, in this sense. If
    [p] ends, [Q] holds of its completion and the state; if it is parked,
    [B] holds of the state it leaves, and when it is taken up again, from
    any state in which [I] holds, it goes on in the same way towards [Q'],
    leaving a state in which [I] holds wherever it is parked again. A
    method started without [await] runs first; the caller goes on from the
    state in which that method ends or is parked, and the parked method,
    taken up again later, has to leave [I] in place at its end. *)
Fixpoint turn (I : State -> Prop) {A : Type} (p : Prog A) (s : State)
    (Q : Completion A -> State -> Prop) (B : State -> Prop)
    (Q' : Completion A -> State -> Prop) : Prop :=
  match p with
  | Ret a => Q (Normal a) s
  | Throw e => Q (Thrown e) s
  | Get k => turn I (k s) s Q B Q'
  | Modify f k => turn I k (f s) Q B Q'
  | Emit _ k => turn I k s Q B Q'
  | Await _ k => B s /\ forall o s', I s' -> turn I (k o) s' Q' I Q'
  | Spawn _ task k =>
      turn I task s (fun _ s1 => turn I k s1 Q B Q')
           (fun s1 => turn I k s1 Q B Q') (fun _ s1 => I s1)
  end.

(** A listener that keeps [I]. *)
Definition keeps (I : State -> Prop) (p : Prog unit) : Prop :=
  forall s, I s -> turn I p s (fun _ s' => I s') I (fun _ s' => I s').

(** A parked method that keeps [I] when it is taken up again. *)
Definition resumable (I : State -> Prop) (t : EventLoop.Task) : Prop :=
  forall o s, I s -> turn I (t.2 o) s (fun _ s' => I s') I (fun _ s' => I s').

(** The controller says it is connected exactly when it holds a client. *)
Definition coherent (s : State) : Prop :=
  Vx.isConnected (vx s) = true <-> is_Some (Vx.convexClient (vx s)).

(* ===================================================================== *)
(** * Concrete scenarios *)
(* ===================================================================== *)

(** A swap is in flight on a connected controller. *)
Definition st_in_flight : State :=
  mkState (Vx.set_isSwapping true (Vx.set_isConnected true Vx.new))
          (fun _ => Client.new "http://peer.convex.live:8080") 0%nat
          ["100"; ""].

Definition peer_down : nat -> HttpOutcome :=
  fun _ => Rejected (TypeError "Failed to fetch").

(** A connected controller with its client, "100" typed in the "you pay"
    field and a stale estimate in the "you receive" field. *)
Definition demo_client : Client.t :=
  Client.set_isConnected true
    (Client.set_keyPair (VStr "demo")
       (Client.set_address (VStr "#12")
          (Client.new "http://peer.convex.live:8080"))).

Definition st_connected : State :=
  mkState (Vx.set_convexClient (Some 0%nat) (Vx.set_isConnected true Vx.new))
          (fun _ => demo_client) 1%nat ["100"; "12.5000"].

(** The same page before the wallet is connected. *)
Definition st_fresh : State :=
  mkState Vx.new (fun _ => Client.new "http://peer.convex.live:8080") 0%nat
          ["100"; "12.5000"].

(** A controller whose registry knows an on-chain address for PAI. *)
Definition st_registered : State :=
  mkState
    (Vx.mk (Some 0%nat) true false (<["PAI" := VStr "#4242"]> Vx.default_tokens)
           "CVX" "PAI" (num_of_Z 0) (num_of_Z 0))
    (fun _ => demo_client) 1%nat ["100"; ""].

(** A peer that answers every request with the balance 5. *)
Definition peer_five : nat -> HttpOutcome :=
  fun _ => Responded (mkResponse 200 "OK" (Some (VObj [("value", VNum (num_of_Z 5))]))).

(** The peer rejects the transaction for lack of funds, with status 200. *)
Definition funds_response : Response :=
  mkResponse 200 "OK"
    (Some (VObj [("errorCode", VStr "FUNDS");
                 ("value", VStr "Insufficient funds")])).

Definition peer_funds : nat -> HttpOutcome := fun _ => Responded funds_response.

(** An answer that has an [errorCode] field, holding the empty string. *)
Definition blank_code_response : Response :=
  mkResponse 200 "OK"
    (Some (VObj [("errorCode", VStr ""); ("value", VNum (num_of_Z 1))])).

Definition peer_blank_code : nat -> HttpOutcome :=
  fun _ => Responded blank_code_response.

(** A connected controller set to swap PAI for USDC, amount left blank. *)
Definition st_token_pair_blank : State :=
  mkState
    (Vx.set_pair "PAI" "USDC"
       (Vx.set_convexClient (Some 0%nat) (Vx.set_isConnected true Vx.new)))
    (fun _ => demo_client) 1%nat [""; ""].

(** The same pair with an amount. *)
Definition st_token_pair : State :=
  mkState
    (Vx.set_pair "PAI" "USDC"
       (Vx.set_convexClient (Some 0%nat) (Vx.set_isConnected true Vx.new)))
    (fun _ => demo_client) 1%nat ["100"; "97.0000"].

(** A connected controller set to swap CVX for CVM, amount zero. *)
Definition st_native_pair_zero : State :=
  mkState
    (Vx.set_pair "CVX" "CVM"
       (Vx.set_convexClient (Some 0%nat) (Vx.set_isConnected true Vx.new)))
    (fun _ => demo_client) 1%nat ["0"; ""].

(** The same pair with an amount. *)
Definition st_native_pair : State :=
  mkState
    (Vx.set_pair "CVM" "CVX"
       (Vx.set_convexClient (Some 0%nat) (Vx.set_isConnected true Vx.new)))
    (fun _ => demo_client) 1%nat ["100"; "97.0000"].

(** The page after one click on the swap button of [st_connected]: the
    rest of [executeSwap] is parked on its transaction. *)
Definition loop_swap_parked : EventLoop.Loop :=
  EventLoop.launch VorteXInterface.executeSwap st_connected [].

(** The transaction it waits for. *)
Definition buy_100 : Request :=
  transact_request demo_client
    "(do (import exchange.torus :as torus) (torus/buy-tokens null 100))".

(** A peer that answers every request with the value 7; it passes the
    test of [initialize]. *)
Definition peer_seven : nat -> HttpOutcome :=
  fun _ => Responded (mkResponse 200 "OK" (Some (VObj [("value", VNum (num_of_Z 7))]))).

(** A peer that answers every request with the account "#1234". *)
Definition peer_account : nat -> HttpOutcome :=
  fun _ => Responded (mkResponse 200 "OK" (Some (VObj [("address", VStr "#1234")]))).

(* ===================================================================== *)
(** * Running composed programs *)
(* ===================================================================== *)

Lemma requests_app (l1 l2 : list Event) :
  requests (l1 ++ l2) = requests l1 ++ requests l2.
Proof. unfold requests. apply omap_app. Qed.

(** Sequencing: the second program starts in the state the first one
    leaves, and the peer's script goes on where the first one stopped. *)
Lemma run_bind {A B : Type} (p : Prog A) (f : A -> Prog B) peer n s :
  run peer n (bind p f) s =
  match run peer n p s with
  | (Normal a, s1, evs1) =>
      let '(r, s2, evs2) := run peer (n + length (requests evs1)) (f a) s1 in
      (r, s2, evs1 ++ evs2)
  | (Thrown e, s1, evs1) => (Thrown e, s1, evs1)
  end.
Proof.
  revert B f n s.
  induction p as [A a|A e|A k IH|A g k IH|A ef k IH|A req k IH|A name task _ k IH]
    using Prog_ind; intros B f n s; simpl.
  - rewrite Nat.add_0_r. by destruct (run peer n (f a) s) as [[r s2] evs2].
  - done.
  - apply IH.
  - apply IH.
  - rewrite IH. destruct (run peer n k s) as [[[a|e] s1] evs1]; simpl; [|done].
    by destruct (run peer _ (f a) s1) as [[r s2] evs2].
  - rewrite IH. destruct (run peer (S n) (k (peer n)) s) as [[[a|e] s1] evs1];
      simpl; [|done].
    rewrite <- Nat.add_succ_comm.
    by destruct (run peer _ (f a) s1) as [[r s2] evs2].
  - destruct (run peer n task s) as [[r0 s0] evs0]. rewrite IH.
    destruct (run peer _ k s0) as [[[a|e] s1] evs1]; simpl; [|done].
    rewrite requests_app, length_app, Nat.add_assoc.
    destruct (run peer _ (f a) s1) as [[r s2] evs2]. by rewrite <- app_assoc.
Qed.

Lemma run_mbind {A B : Type} (p : Prog A) (f : A -> Prog B) peer n s :
  run peer n (p ≫= f) s =
  match run peer n p s with
  | (Normal a, s1, evs1) =>
      let '(r, s2, evs2) := run peer (n + length (requests evs1)) (f a) s1 in
      (r, s2, evs1 ++ evs2)
  | (Thrown e, s1, evs1) => (Thrown e, s1, evs1)
  end.
Proof. apply run_bind. Qed.

(** [try/catch]: the handler runs where the protected block stopped. *)
Lemma run_try_catch {A : Type} (p : Prog A) (h : JsError -> Prog A) peer n s :
  run peer n (try_catch p h) s =
  match run peer n p s with
  | (Normal a, s1, evs1) => (Normal a, s1, evs1)
  | (Thrown e, s1, evs1) =>
      let '(r, s2, evs2) := run peer (n + length (requests evs1)) (h e) s1 in
      (r, s2, evs1 ++ evs2)
  end.
Proof.
  revert h n s.
  induction p as [A a|A e|A k IH|A g k IH|A ef k IH|A req k IH|A name task _ k IH]
    using Prog_ind; intros h n s; simpl.
  - done.
  - rewrite Nat.add_0_r. by destruct (run peer n (h e) s) as [[r s2] evs2].
  - apply IH.
  - apply IH.
  - rewrite IH. destruct (run peer n k s) as [[[a|e] s1] evs1]; simpl; [done|].
    by destruct (run peer _ (h e) s1) as [[r s2] evs2].
  - rewrite IH. destruct (run peer (S n) (k (peer n)) s) as [[[a|e] s1] evs1];
      simpl; [done|].
    rewrite <- Nat.add_succ_comm.
    by destruct (run peer _ (h e) s1) as [[r s2] evs2].
  - destruct (run peer n task s) as [[r0 s0] evs0]. rewrite IH.
    destruct (run peer _ k s0) as [[[a|e] s1] evs1]; simpl; [done|].
    rewrite requests_app, length_app, Nat.add_assoc.
    destruct (run peer _ (h e) s1) as [[r s2] evs2]. by rewrite <- app_assoc.
Qed.

(** [try/finally]: the [finally] block runs in both cases; the completion
    of the protected block stands unless the [finally] block throws. *)
Lemma run_try_finally {A : Type} (p : Prog A) (f : Prog unit) peer n s :
  run peer n (try_finally p f) s =
  let '(r1, s1, evs1) := run peer n p s in
  let '(r2, s2, evs2) := run peer (n + length (requests evs1)) f s1 in
  (match r2 with Normal _ => r1 | Thrown e => Thrown e end, s2, evs1 ++ evs2).
Proof.
  revert f n s.
  induction p as [A a|A e|A k IH|A g k IH|A ef k IH|A req k IH|A name task _ k IH]
    using Prog_ind; intros f n s; simpl.
  - rewrite Nat.add_0_r, run_bind.
    destruct (run peer n f s) as [[[u|e] s2] evs2]; simpl; [|done].
    by rewrite app_nil_r.
  - rewrite Nat.add_0_r, run_bind.
    destruct (run peer n f s) as [[[u|e'] s2] evs2]; simpl; [|done].
    by rewrite app_nil_r.
  - apply IH.
  - apply IH.
  - rewrite IH. destruct (run peer n k s) as [[r1 s1] evs1]; simpl.
    by destruct (run peer _ f s1) as [[r2 s2] evs2].
  - rewrite IH. destruct (run peer (S n) (k (peer n)) s) as [[r1 s1] evs1]; simpl.
    rewrite <- Nat.add_succ_comm.
    by destruct (run peer _ f s1) as [[r2 s2] evs2].
  - destruct (run peer n task s) as [[r0 s0] evs0]. rewrite IH.
    destruct (run peer _ k s0) as [[r1 s1] evs1]; simpl.
    rewrite requests_app, length_app, Nat.add_assoc.
    destruct (run peer _ f s1) as [[r2 s2] evs2]. by rewrite <- app_assoc.
Qed.

(* ===================================================================== *)
(** * Footprints are sound and compose *)
(* ===================================================================== *)

Section FootprintFacts.

Context (F : (State -> State) -> Prop) (P : Event -> Prop).

Lemma within_bind {A B : Type} (p : Prog A) (f : A -> Prog B) :
  Within F P p -> (forall a, Within F P (f a)) -> Within F P (bind p f).
Proof.
  intros Hp Hf. induction Hp; simpl; try (constructor; auto); auto.
Qed.

Lemma within_mbind {A B : Type} (p : Prog A) (f : A -> Prog B) :
  Within F P p -> (forall a, Within F P (f a)) -> Within F P (p ≫= f).
Proof. apply within_bind. Qed.

Lemma within_try_catch {A : Type} (p : Prog A) (h : JsError -> Prog A) :
  Within F P p -> (forall e, Within F P (h e)) -> Within F P (try_catch p h).
Proof.
  intros Hp Hh. induction Hp; simpl; try (constructor; auto); auto.
Qed.

Lemma within_try_finally {A : Type} (p : Prog A) (f : Prog unit) :
  Within F P p -> Within F P f -> Within F P (try_finally p f).
Proof.
  intros Hp Hf. induction Hp; simpl; try (constructor; auto); auto.
  - apply within_bind; [done|]. intros _. constructor.
  - apply within_bind; [done|]. intros _. constructor.
Qed.

(** A run stays within the footprint: the final state is related to the
    initial one by any preorder the updates of [F] respect, and every
    event of the trace satisfies [P]. *)
Lemma within_run (R : State -> State -> Prop) {A : Type} (p : Prog A) :
  (forall s, R s s) ->
  (forall s1 s2 s3, R s1 s2 -> R s2 s3 -> R s1 s3) ->
  (forall f s, F f -> R s (f s)) ->
  Within F P p ->
  forall peer n s,
    R s (final (run peer n p s)) /\ Forall P (events (run peer n p s)).
Proof.
  intros Hrefl Htrans HF Hp. unfold final, events.
  induction Hp as [A a|A e|A k _ IH|A f k Hf _ IH|A e k He _ IH
                  |A req k Hreq _ IH|A name task k Hname _ IHt _ IHk];
    intros peer n s; simpl.
  - split; [apply Hrefl | constructor].
  - split; [apply Hrefl | constructor].
  - apply IH.
  - destruct (IH peer n (f s)) as [H1 H2]. split; [|done].
    eapply Htrans; [apply HF, Hf | done].
  - destruct (IH peer n s) as [H1 H2].
    destruct (run peer n k s) as [[r s'] evs]; simpl in *.
    split; [done | by constructor].
  - destruct (IH (peer n) peer (S n) s) as [H1 H2].
    destruct (run peer (S n) (k (peer n)) s) as [[r s'] evs]; simpl in *.
    split; [done | by constructor].
  - destruct (IHt peer n s) as [H1 H2].
    destruct (run peer n task s) as [[r1 s1] evs1]; simpl in *.
    destruct (IHk peer (n + length (requests evs1))%nat s1) as [H3 H4].
    destruct (run peer _ k s1) as [[r2 s2] evs2]; simpl in *.
    split; [by eapply Htrans | constructor; [done | by apply Forall_app]].
Qed.

End FootprintFacts.

Lemma within_mono (F F' : (State -> State) -> Prop) (P P' : Event -> Prop)
    {A : Type} (p : Prog A) :
  (forall f, F f -> F' f) -> (forall ev, P ev -> P' ev) ->
  Within F P p -> Within F' P' p.
Proof. intros HF HP Hp. induction Hp; constructor; auto. Qed.

(** A read-only program returns the state it was given. *)
Lemma read_only_run {A : Type} (p : Prog A) peer n s :
  ReadOnly p -> final (run peer n p s) = s.
Proof.
  intros Hp. symmetry.
  eapply (within_run _ _ (fun s1 s2 => s1 = s2) p); [done | congruence | | exact Hp].
  intros f s' [].
Qed.

Create HintDb footprint.

(** Walks through a program, splitting on what it branches on. *)
Ltac footprint :=
  repeat first
    [ progress intros
    | match goal with
      | |- Within _ _ (match ?x with _ => _ end) => destruct x
      | |- Within _ _ (_ ≫= _) => apply within_mbind
      | |- Within _ _ (bind _ _) => apply within_bind
      | |- Within _ _ (prog_bind _ _ _ _) => apply within_bind
      | |- Within _ _ (try_catch _ _) => apply within_try_catch
      | |- Within _ _ (try_finally _ _) => apply within_try_finally
      | |- Within _ _ (Ret _) => apply within_ret
      | |- Within _ _ (mret _) => apply within_ret
      | |- Within _ _ (Throw _) => apply within_throw
      | |- Within _ _ (throw _) => apply within_throw
      | |- Within _ _ (Get _) => apply within_get
      | |- Within _ _ (Modify _ _) => apply within_modify
      | |- Within _ _ (Emit _ _) => apply within_emit
      | |- Within _ _ (Await _ _) => apply within_await
      | |- Within _ _ (Spawn _ _ _) => apply within_spawn
      end
    | solve [eauto with footprint] ].

(* ===================================================================== *)
(** * Footprints of the methods *)
(* ===================================================================== *)

Section MethodFootprints.

Context (F : (State -> State) -> Prop) (P : Event -> Prop).
Hypothesis console_allowed : forall lvl args, P (EvUi (Console lvl args)).

Lemma console_log_within args : Within F P (console_log args).
Proof using console_allowed. unfold console_log, emit. footprint. Qed.

Lemma console_error_within args : Within F P (console_error args).
Proof using console_allowed. unfold console_error, emit. footprint. Qed.

Lemma get_prop_within v k : Within F P (get_prop v k).
Proof. unfold get_prop. footprint. Qed.

Lemma json_within r : Within F P (json r).
Proof. unfold json. footprint. Qed.

Hint Resolve console_log_within console_error_within get_prop_within
  json_within : footprint.

(** The read side: [query] and what is built on it send queries only and
    write nothing. *)
Section Reads.

Hypothesis query_allowed : forall ev, is_query ev -> P ev.

Lemma query_within self source address :
  Within F P (ConvexClient.query self source address).
Proof using console_allowed query_allowed.
  unfold ConvexClient.query, ConvexClient.this, fetch. footprint.
  apply query_allowed. by eexists _, _, _.
Qed.

Hint Resolve query_within : footprint.

Lemma getBalance_within self address :
  Within F P (ConvexClient.getBalance self address).
Proof using console_allowed query_allowed.
  unfold ConvexClient.getBalance, ConvexClient.this. footprint.
Qed.

Lemma getMarket_within self tokenAddress :
  Within F P (ConvexClient.getMarket self tokenAddress).
Proof using console_allowed query_allowed.
  unfold ConvexClient.getMarket. footprint.
Qed.

Hint Resolve getBalance_within : footprint.

Lemma getTokenBalance_within tokenSymbol :
  Within F P (VorteXInterface.getTokenBalance tokenSymbol).
Proof using console_allowed query_allowed.
  unfold VorteXInterface.getTokenBalance, VorteXInterface.this,
    ConvexClient.this.
  footprint.
Qed.

Hint Resolve getTokenBalance_within : footprint.

Hypothesis balances_allowed :
  forall fromBalance toBalance,
    P (EvUi (BalanceDisplays fromBalance toBalance)).

Lemma updateBalances_within : Within F P VorteXInterface.updateBalances.
Proof using console_allowed query_allowed balances_allowed.
  unfold VorteXInterface.updateBalances, VorteXInterface.this, emit.
  footprint.
Qed.

End Reads.

(** The write side: [transact] sends one request to [/api/v1/transact]
    and touches the client it is called on. *)
Section Writes.

Hypothesis transact_allowed : forall ev, is_transact ev -> P ev.
Hypothesis client_update_allowed : forall self f, F (on_client self f).

Lemma transact_within self source :
  Within F P (ConvexClient.transact self source).
Proof using console_allowed transact_allowed client_update_allowed.
  unfold ConvexClient.transact, ConvexClient.this, ConvexClient.update,
    fetch, modify.
  footprint.
  apply transact_allowed. by eexists _, _.
Qed.

Hint Resolve transact_within : footprint.

Lemma buyTokens_within self tokenAddress amount :
  Within F P (ConvexClient.buyTokens self tokenAddress amount).
Proof using console_allowed transact_allowed client_update_allowed.
  unfold ConvexClient.buyTokens. footprint.
Qed.

Lemma sellTokens_within self tokenAddress amount :
  Within F P (ConvexClient.sellTokens self tokenAddress amount).
Proof using console_allowed transact_allowed client_update_allowed.
  unfold ConvexClient.sellTokens. footprint.
Qed.

End Writes.

End MethodFootprints.


Lemma updateBalances_read_only : ReadOnly VorteXInterface.updateBalances.
Proof. apply updateBalances_within; done. Qed.

Lemma getTokenBalance_read_only sym :
  ReadOnly (VorteXInterface.getTokenBalance sym).
Proof. apply getTokenBalance_within; done. Qed.

Lemma getBalance_read_only self address :
  ReadOnly (ConvexClient.getBalance self address).
Proof. apply getBalance_within; done. Qed.

(* ===================================================================== *)
(** * The re-entrancy guard of executeSwap *)
(* ===================================================================== *)

(** Invoked while [isSwapping] is set, [executeSwap] returns at once: it
    completes normally, leaves the whole state as it found it and sends no
    request; in the connected state it leaves no trace at all
    (disconnected, the only trace is the "connect your wallet" notice). *)
Lemma executeSwap_guard peer n st :
  Vx.isSwapping (vx st) = true ->
  completion (run peer n VorteXInterface.executeSwap st) = Normal tt /\
  final (run peer n VorteXInterface.executeSwap st) = st /\
  requests (events (run peer n VorteXInterface.executeSwap st)) = [] /\
  (Vx.isConnected (vx st) = true ->
   events (run peer n VorteXInterface.executeSwap st) = []).
Proof.
  intros Hswapping.
  unfold VorteXInterface.executeSwap, VorteXInterface.this. simpl.
  rewrite Hswapping.
  destruct (Vx.isConnected (vx st)); simpl; by repeat split.
Qed.

(* ===================================================================== *)
(** * onFromAmountChange on an invalid amount *)
(* ===================================================================== *)

(** Reading [this] costs nothing. *)
Lemma run_this {A : Type} (f : Vx.t -> Prog A) peer n s :
  run peer n (VorteXInterface.this ≫= f) s = run peer n (f (vx s)) s.
Proof. reflexivity. Qed.

Lemma run_client_this {A : Type} self (f : Client.t -> Prog A) peer n s :
  run peer n (ConvexClient.this self ≫= f) s = run peer n (f (heap s self)) s.
Proof. reflexivity. Qed.

Lemma num_leb_zero_cases (x : Number) :
  num_leb x (num_of_Z 0) = true <->
  SFeqb x (num_of_Z 0) = true \/ num_ltb x (num_of_Z 0) = true.
Proof.
  unfold num_leb, num_ltb, SFleb, SFltb, SFeqb.
  destruct (SFcompare x (num_of_Z 0)) as [[]|]; intuition discriminate.
Qed.

(** C7. On an amount that is empty, not numeric ([Number(amount)] is NaN),
    zero or negative, [onFromAmountChange] only clears the output field
    (the second number input, when the page has one): the controller,
    [fromAmount] and [toAmount] included, the clients and the other inputs
    stay as they were, nothing is computed and nothing is sent or shown. *)
Theorem onFromAmountChange_invalid_clears_output peer n st amount :
  amount = "" \/
  num_isNaN (StringToNumber amount) = true \/
  SFeqb (StringToNumber amount) (num_of_Z 0) = true \/
  num_ltb (StringToNumber amount) (num_of_Z 0) = true ->
  let o := run peer n (VorteXInterface.onFromAmountChange amount) st in
  completion o = Normal tt /\
  final o = on_inputs (fun inputs => <[1%nat := ""]> inputs) st /\
  Vx.fromAmount (vx (final o)) = Vx.fromAmount (vx st) /\
  Vx.toAmount (vx (final o)) = Vx.toAmount (vx st) /\
  events o = [].
Proof.
  intros Hbad o.
  assert (Hguard :
    negb (Vx.isConnected (vx st)) || String.eqb amount ""
    || num_isNaN (StringToNumber amount)
    || num_leb (StringToNumber amount) (num_of_Z 0) = true).
  { destruct Hbad as [->|[Hnan|Hle]].
    - rewrite String.eqb_refl. by rewrite orb_true_r.
    - rewrite Hnan. by rewrite !orb_true_r.
    - apply num_leb_zero_cases in Hle. rewrite Hle. by rewrite !orb_true_r. }
  subst o. unfold VorteXInterface.onFromAmountChange.
  rewrite run_this, Hguard. done.
Qed.

Lemma onFromAmountChange_invalid_clears_output_witness :
  num_isNaN (StringToNumber "12abc") = true /\
  numberInputs
    (final (run peer_down 0 (VorteXInterface.onFromAmountChange "12abc")
                st_connected)) = ["100"; ""].
Proof.
  split; [reflexivity|].
  rewrite (proj1 (proj2 (onFromAmountChange_invalid_clears_output
                           peer_down 0%nat st_connected "12abc"
                           (or_intror (or_introl eq_refl))))).
  reflexivity.
Defined.

(* ===================================================================== *)
(** * swapTokenPositions *)
(* ===================================================================== *)

(** The state one application leaves: the pair exchanged, every number
    input emptied, both amounts zero. The balance refresh it starts when
    connected writes nothing. *)
#[local] Opaque VorteXInterface.updateBalances.

Lemma swapTokenPositions_final peer n st :
  final (run peer n VorteXInterface.swapTokenPositions st) =
  on_vx (Vx.set_toAmount (num_of_Z 0))
    (on_vx (Vx.set_fromAmount (num_of_Z 0))
       (on_inputs (map (fun _ => ""))
          (on_vx (fun v => Vx.set_pair (Vx.toToken v) (Vx.fromToken v) v) st))).
Proof.
  unfold VorteXInterface.swapTokenPositions, VorteXInterface.update,
    VorteXInterface.updateTokenDisplays, VorteXInterface.this, modify, emit,
    spawn.
  simpl. destruct (Vx.isConnected (vx st)); [|done].
  simpl. set (s1 := on_vx _ _).
  pose proof (read_only_run VorteXInterface.updateBalances peer n s1
                updateBalances_read_only) as Hro.
  unfold final in *.
  destruct (run peer n VorteXInterface.updateBalances s1) as [[r s2] evs].
  simpl in *. exact Hro.
Qed.

#[local] Transparent VorteXInterface.updateBalances.

(** C8. [swapTokenPositions] exchanges [fromToken] and [toToken] and zeroes
    both amounts; applied twice it restores the original pair (and both
    amounts are zero again). *)
Theorem swapTokenPositions_involutive peer1 n1 peer2 n2 st :
  let s1 := final (run peer1 n1 VorteXInterface.swapTokenPositions st) in
  let s2 := final (run peer2 n2 VorteXInterface.swapTokenPositions s1) in
  (Vx.fromToken (vx s1) = Vx.toToken (vx st) /\
   Vx.toToken (vx s1) = Vx.fromToken (vx st) /\
   Vx.fromAmount (vx s1) = num_of_Z 0 /\
   Vx.toAmount (vx s1) = num_of_Z 0) /\
  (Vx.fromToken (vx s2) = Vx.fromToken (vx st) /\
   Vx.toToken (vx s2) = Vx.toToken (vx st) /\
   Vx.fromAmount (vx s2) = num_of_Z 0 /\
   Vx.toAmount (vx s2) = num_of_Z 0).
Proof.
  intros s1 s2. subst s2 s1. rewrite !swapTokenPositions_final. simpl.
  by repeat split.
Qed.

(* ===================================================================== *)
(** * query and getBalance *)
(* ===================================================================== *)

(** Runs a program on symbolic data, splitting on the peer's answer and on
    what the code tests in it. *)
Ltac exec_step :=
  match goal with
  | |- context [match ?peer ?n with Rejected _ => _ | Responded _ => _ end] =>
      destruct (peer n) eqn:?
  | |- context [negb (ok ?r)] => destruct (ok r) eqn:?
  | |- context [if ok ?r then _ else _] => destruct (ok r) eqn:?
  | |- context [json ?r] => unfold json; destruct (body r) eqn:?
  | |- context [get_prop ?v ?k] => unfold get_prop at 1; destruct (prop v k) eqn:?
  | |- context [if truthy ?v then _ else _] => destruct (truthy v) eqn:?
  end.

Ltac exec := simpl; repeat (exec_step; simpl).

(** [query] sends exactly one request, the one for its arguments, and
    leaves the state alone, whatever the peer answers. *)
Lemma query_sends_one peer n st self source address :
  let o := run peer n (ConvexClient.query self source address) st in
  final o = st /\
  requests (events o) =
    [query_request (heap st self) source
       (default_arg (Client.address (heap st self)) address)].
Proof.
  unfold ConvexClient.query. rewrite run_client_this.
  unfold fetch, throw, console_error, emit. exec; done.
Qed.

(** The three ways a query fails: the transport fails, the status is not
    2xx, or the answer carries an [errorCode] the code takes for one. *)
Lemma query_failures peer n st self source address :
  (exists e, peer n = Rejected e) \/
  (exists r, peer n = Responded r /\ ok r = false) \/
  (exists r result errorCode,
     peer n = Responded r /\ body r = Some result /\
     prop result "errorCode" = Some errorCode /\ truthy errorCode = true) ->
  exists e,
    completion (run peer n (ConvexClient.query self source address) st)
    = Thrown e.
Proof.
  intros Hfail.
  unfold ConvexClient.query. rewrite run_client_this.
  unfold fetch, throw, console_error, emit.
  destruct Hfail as [[e He]|[(r & Hr & Hok)|(r & result & ec & Hr & Hb & Hp & Ht)]];
    simpl; rewrite ?He, ?Hr; exec; simplify_eq; try congruence; by eexists.
Qed.

(** [getBalance] completes normally and writes nothing, whatever the
    peer answers. *)
Lemma getBalance_never_throws peer n st self address :
  let o := run peer n (ConvexClient.getBalance self address) st in
  (exists balance, completion o = Normal balance) /\ final o = st.
Proof.
  intros o. split.
  - subst o. unfold ConvexClient.getBalance. rewrite run_client_this.
    rewrite run_try_catch, run_mbind.
    destruct (run peer n (ConvexClient.query _ _ _) st) as [[[result|e] s1] evs1].
    + unfold get_prop. destruct (prop result "value"); simpl; by eexists.
    + simpl. by eexists.
  - apply read_only_run, getBalance_read_only.
Qed.



(* ===================================================================== *)
(** * getTokenBalance: native balance or contract balance *)
(* ===================================================================== *)

(** [getBalance()] sends the native-balance query and nothing else. *)
Lemma getBalance_sends_native peer n st self :
  requests (events (run peer n (ConvexClient.getBalance self None) st)) =
  [native_balance_query (heap st self)].
Proof.
  unfold ConvexClient.getBalance. rewrite run_client_this.
  rewrite run_try_catch, run_mbind.
  pose proof (query_sends_one peer n st self
    ("(balance " +:+ to_string (Client.address (heap st self)) +:+ ")") None)
    as [_ Hreq].
  unfold events in *. simpl default_arg in *.
  destruct (run peer n (ConvexClient.query _ _ _) st) as [[[result|e] s1] evs1];
    simpl in Hreq.
  - unfold get_prop. destruct (prop result "value"); simpl;
      by rewrite !requests_app, Hreq.
  - simpl. by rewrite !requests_app, Hreq.
Qed.

(** The two queries cannot be confused: their sources differ from the
    second character on. *)
Lemma native_is_not_contract c c' tokenAddress :
  native_balance_query c <> contract_balance_query c' tokenAddress.
Proof.
  unfold native_balance_query, contract_balance_query, query_request,
    ConvexClient.post.
  intros H. injection H as _ _ H. simpl in H. discriminate H.
Qed.

(** Symbols the registry binds to [null], and symbols it does not know
    that are not the name of an inherited member either, have no address
    as far as the lookup is concerned. *)
Lemma unregistered_has_no_address (v : Vx.t) (sym : string) :
  Vx.tokens v !! sym = Some VNull \/
  (Vx.tokens v !! sym = None /\ inherited sym = None) ->
  truthy (VorteXInterface.token_address v sym) = false.
Proof.
  unfold VorteXInterface.token_address. by intros [-> | [-> ->]].
Qed.

(** A truthy lookup comes from an entry of the registry or from an
    inherited member. *)
Lemma address_has_origin (v : Vx.t) (sym : string) :
  truthy (VorteXInterface.token_address v sym) = true ->
  is_Some (Vx.tokens v !! sym) \/ is_Some (inherited sym).
Proof.
  unfold VorteXInterface.token_address.
  destruct (Vx.tokens v !! sym) as [address|]; [by left; eexists|].
  destruct (inherited sym) as [member|]; [by right; eexists | done].
Qed.

(** The constructor's registry binds every symbol to [null]. *)
Lemma default_tokens_have_no_address (sym : string) :
  Vx.default_tokens !! sym = None \/ Vx.default_tokens !! sym = Some VNull.
Proof.
  unfold Vx.default_tokens.
  rewrite !lookup_insert, lookup_empty. repeat case_decide; auto.
Qed.

(** What [getTokenBalance] sends, in full. *)
Lemma getTokenBalance_requests peer n st sym :
  requests (events (run peer n (VorteXInterface.getTokenBalance sym) st)) =
  match Vx.convexClient (vx st) with
  | None => []
  | Some client =>
      let tokenAddress := VorteXInterface.token_address (vx st) sym in
      if negb (truthy tokenAddress) || VorteXInterface.is_native sym
      then [native_balance_query (heap st client)]
      else [contract_balance_query (heap st client) tokenAddress]
  end.
Proof.
  unfold VorteXInterface.getTokenBalance. rewrite run_this.
  destruct (Vx.convexClient (vx st)) as [client|]; [|done].
  rewrite run_try_catch. unfold VorteXInterface.is_native.
  rewrite orb_assoc. cbv zeta.
  destruct (negb (truthy _) || String.eqb sym "CVX" || String.eqb sym "CVM").
  - pose proof (getBalance_sends_native peer n st client) as Hreq.
    unfold events in *.
    destruct (run peer n (ConvexClient.getBalance client None) st)
      as [[[balance|e] s1] evs1]; simpl in *; [done|].
    by rewrite !requests_app, Hreq.
  - rewrite run_client_this, run_mbind.
    pose proof (query_sends_one peer n st client
      ("(call " +:+ to_string (VorteXInterface.token_address (vx st) sym) +:+
       " (balance " +:+ to_string (Client.address (heap st client)) +:+ "))")
      None) as [_ Hreq].
    unfold events in *. simpl default_arg in *.
    destruct (run peer n (ConvexClient.query _ _ _) st)
      as [[[result|e] s1] evs1]; simpl in Hreq.
    + unfold get_prop. destruct (prop result "value"); simpl;
        by rewrite !requests_app, Hreq.
    + simpl. by rewrite !requests_app, Hreq.
Qed.




(** With an address registered for PAI the lookup is a contract call. *)
Example getTokenBalance_registered :
  requests (events (run peer_five 0 (VorteXInterface.getTokenBalance "PAI")
                        st_registered)) =
  [query_request demo_client "(call #4242 (balance #12))" (VStr "#12")].
Proof. reflexivity. Qed.

(* ===================================================================== *)
(** * transact and the peer's errorCode *)
(* ===================================================================== *)

Local Ltac finish := simpl; repeat split; try done; eauto.

(** C3, as amended. When the answer to the transaction carries an
    [errorCode] that the code takes for one (a truthy value), whatever the
    HTTP status, [transact] raises an error and leaves the whole state, the
    sequence counter of the client included, as it was. With a session
    established (client connected, address set) the request was indeed sent,
    the error names the peer's message or code when the status is 2xx, and
    it is reported on the console before it is raised again. *)
Theorem transact_errorCode_raises peer n st self source r result errorCode :
  peer n = Responded r ->
  body r = Some result ->
  prop result "errorCode" = Some errorCode ->
  truthy errorCode = true ->
  let c := heap st self in
  let o := run peer n (ConvexClient.transact self source) st in
  (exists e, completion o = Thrown e) /\
  final o = st /\
  Client.sequence (heap (final o) self) = Client.sequence c /\
  (Client.isConnected c = true -> truthy (Client.address c) = true ->
   let e := transaction_error r result errorCode in
   completion o = Thrown e /\
   events o =
     [EvUi (Console LLog [VStr "📤 Executing transaction:"; VStr source]);
      EvFetch (transact_request c source);
      EvUi (Console LError [VStr "❌ Transaction failed:"; VStr (err_message e)])]).
Proof.
  intros Hpeer Hbody Hcode Htruthy c o.
  assert (Hvalue : prop result "value" = Some (opt_prop result "value")).
  { unfold opt_prop. destruct result; simpl in *; done. }
  subst o. unfold ConvexClient.transact. rewrite run_client_this. fold c.
  unfold transaction_error.
  destruct (Client.isConnected c); [|by finish].
  destruct (truthy (Client.address c)); [|by finish].
  unfold fetch, throw, console_log, console_error, emit, json.
  simpl. rewrite Hpeer. simpl.
  destruct (ok r); simpl; [|by finish].
  rewrite Hbody. simpl. unfold get_prop. rewrite Hcode. simpl.
  rewrite Htruthy. rewrite Hvalue. by finish.
Qed.

Lemma transact_errorCode_raises_witness :
  (peer_funds 0%nat = Responded funds_response /\
   truthy (VStr "FUNDS") = true) /\
  completion (run peer_funds 0
                (ConvexClient.transact 0%nat "(transfer #13 1000)") st_connected)
  = Thrown (Error "Transaction error: Insufficient funds") /\
  Client.sequence
    (heap (final (run peer_funds 0
                    (ConvexClient.transact 0%nat "(transfer #13 1000)")
                    st_connected)) 0%nat)
  = Client.sequence (heap st_connected 0%nat).
Proof.
  split; [by split|].
  pose proof (transact_errorCode_raises peer_funds 0%nat st_connected 0%nat
                "(transfer #13 1000)" funds_response
                (VObj [("errorCode", VStr "FUNDS");
                       ("value", VStr "Insufficient funds")])
                (VStr "FUNDS") eq_refl eq_refl eq_refl eq_refl) as H.
  simpl in H. destruct H as (_ & _ & Hseq & Hsession).
  split; [exact (proj1 (Hsession eq_refl eq_refl)) | exact Hseq].
Defined.

(** C3, as the specification states it, fails: an answer with status 200
    that carries an [errorCode] field holding the empty string is taken for
    a success; [transact] returns it and counts the transaction. *)
Lemma transact_blank_errorCode_accepted :
  prop (VObj [("errorCode", VStr ""); ("value", VNum (num_of_Z 1))]) "errorCode"
  = Some (VStr "") /\
  completion (run peer_blank_code 0
                (ConvexClient.transact 0%nat "(transfer #13 1000)") st_connected)
  = Normal (VObj [("errorCode", VStr ""); ("value", VNum (num_of_Z 1))]) /\
  Client.sequence (heap st_connected 0%nat) = num_of_Z 0 /\
  Client.sequence
    (heap (final (run peer_blank_code 0
                    (ConvexClient.transact 0%nat "(transfer #13 1000)")
                    st_connected)) 0%nat)
  = num_of_Z 1.
Proof. repeat split. Qed.

(* ===================================================================== *)
(** * toFixed prints the requested number of decimals *)
(* ===================================================================== *)

Lemma is_digit_digit_char (d : Z) : 0 <= d < 10 -> is_digit (digit_char d) = true.
Proof.
  intros Hd.
  assert (d = 0 \/ d = 1 \/ d = 2 \/ d = 3 \/ d = 4 \/ d = 5 \/ d = 6 \/
          d = 7 \/ d = 8 \/ d = 9) as Hcases by lia.
  repeat (destruct Hcases as [-> | Hcases]; [reflexivity|]). by subst.
Qed.

Lemma is_digit_not_point (c : ascii) : is_digit c = true -> Ascii.eqb c "." = false.
Proof.
  intros Hc. destruct (Ascii.eqb_spec c "."%char) as [->|]; [discriminate|done].
Qed.

Lemma digits_fuel_all_digits fuel n acc :
  all_digits acc = true -> all_digits (digits_fuel fuel n acc) = true.
Proof.
  revert n acc. induction fuel as [|fuel IH]; intros n acc Hacc; simpl; [done|].
  assert (all_digits (String (digit_char (n mod 10)) acc) = true) as Hstep.
  { simpl. rewrite is_digit_digit_char, Hacc; [done|].
    apply Z.mod_pos_bound. lia. }
  destruct (n <? 10); [done|]. by apply IH.
Qed.

Lemma Z_to_digits_all_digits n : all_digits (Z_to_digits n) = true.
Proof. by apply digits_fuel_all_digits. Qed.

Lemma fixed_width_all_digits w n acc :
  all_digits acc = true -> all_digits (fixed_width w n acc) = true.
Proof.
  revert n acc. induction w as [|w IH]; intros n acc Hacc; simpl; [done|].
  apply IH. simpl. rewrite is_digit_digit_char, Hacc; [done|].
  apply Z.mod_pos_bound. lia.
Qed.

Lemma fixed_width_length w n acc :
  String.length (fixed_width w n acc) = (w + String.length acc)%nat.
Proof.
  revert n acc. induction w as [|w IH]; intros n acc; simpl; [done|].
  rewrite IH. simpl. lia.
Qed.

(** Digits, then a point: the decimal part is what comes after. *)
Lemma decimal_part_after_digits (ip frac : string) :
  all_digits ip = true -> decimal_part (ip +:+ "." +:+ frac) = Some frac.
Proof.
  induction ip as [|c ip IH]; simpl; [done|].
  intros [Hc Hip]%andb_true_iff. by rewrite (is_digit_not_point c Hc), IH.
Qed.

Lemma fixed_digits_decimal_part (n f : Z) :
  0 < f ->
  decimal_part (fixed_digits n f) = Some (fixed_width (Z.to_nat f) n "").
Proof.
  intros Hf. unfold fixed_digits.
  destruct (Z.eqb_spec f 0) as [->|_]; [lia|].
  apply decimal_part_after_digits, Z_to_digits_all_digits.
Qed.

(** Below [10^21], [x.toFixed(f)] has exactly [f] digits after the point. *)
Lemma toFixed_decimals (x : Number) (f : Z) :
  0 < f -> below_1e21 x = true ->
  exists frac,
    decimal_part (toFixed x f) = Some frac /\
    String.length frac = Z.to_nat f /\ all_digits frac = true.
Proof.
  intros Hf Hx. exists (fixed_width (Z.to_nat f)
    match x with
    | S754_finite _ m e => round_scaled m e f
    | _ => 0
    end "").
  split; [|split].
  - destruct x as [sg|sg| |sg m e]; try done.
    + by apply fixed_digits_decimal_part.
    + unfold toFixed, below_1e21 in *. destruct (ratio m e) as [num den].
      rewrite Hx. destruct sg.
      * change (decimal_part ("-" +:+ ?s)) with (decimal_part s).
        by apply fixed_digits_decimal_part.
      * change ("" +:+ ?s) with s. by apply fixed_digits_decimal_part.
  - rewrite fixed_width_length. simpl. lia.
  - by apply fixed_width_all_digits.
Qed.

(* ===================================================================== *)
(** * onFromAmountChange on a valid amount *)
(* ===================================================================== *)

(** C6, as amended. In the connected state, on an amount that is not
    empty and for which [Number(amount)] is a number above zero,
    [onFromAmountChange] stores [parseFloat(amount)] in [fromAmount],
    computes the estimate [fromAmount * 0.97] in double precision, and, when
    the page has the output field, writes the estimate printed by
    [toFixed(4)] into it and stores the estimate in [toAmount]. For "100"
    the field receives "97.0000". Whenever the estimate is below [10^21]
    what is written has exactly four digits after the decimal point. *)
Theorem onFromAmountChange_estimate peer n st amount old :
  Vx.isConnected (vx st) = true ->
  amount <> "" ->
  num_isNaN (StringToNumber amount) = false ->
  num_leb (StringToNumber amount) (num_of_Z 0) = false ->
  numberInputs st !! 1%nat = Some old ->
  let estimatedOutput := num_mul (parseFloat amount) (num_of_decimal false 97 (-2)) in
  let o := run peer n (VorteXInterface.onFromAmountChange amount) st in
  completion o = Normal tt /\
  Vx.fromAmount (vx (final o)) = parseFloat amount /\
  Vx.toAmount (vx (final o)) = estimatedOutput /\
  numberInputs (final o) = <[1%nat := toFixed estimatedOutput 4]> (numberInputs st) /\
  numberInputs (final o) !! 1%nat = Some (toFixed estimatedOutput 4) /\
  (amount = "100" -> toFixed estimatedOutput 4 = "97.0000") /\
  (below_1e21 estimatedOutput = true ->
   exists frac,
     decimal_part (toFixed estimatedOutput 4) = Some frac /\
     String.length frac = 4%nat /\ all_digits frac = true).
Proof.
  intros Hconnected Hnonempty Hnum Hpos Hfield estimatedOutput o.
  assert (Hguard :
    negb (Vx.isConnected (vx st)) || String.eqb amount ""
    || num_isNaN (StringToNumber amount)
    || num_leb (StringToNumber amount) (num_of_Z 0) = false).
  { rewrite Hconnected, Hnum, Hpos.
    by destruct (String.eqb_spec amount ""). }
  assert (Hrun : o = (Normal tt,
            on_vx (Vx.set_toAmount estimatedOutput)
              (on_inputs (fun inputs => <[1%nat := toFixed estimatedOutput 4]> inputs)
                 (on_vx (Vx.set_fromAmount (parseFloat amount)) st)), [])).
  { subst o. unfold VorteXInterface.onFromAmountChange.
    rewrite run_this, Hguard. simpl. by rewrite Hfield. }
  rewrite Hrun. unfold completion, final. simpl.
  repeat split.
  - apply list_lookup_insert_eq. by eapply lookup_lt_Some.
  - by intros ->.
  - intros Hbelow. by apply (toFixed_decimals estimatedOutput 4).
Qed.

Lemma onFromAmountChange_estimate_witness :
  (Vx.isConnected (vx st_connected) = true /\ "100" <> "" /\
   num_isNaN (StringToNumber "100") = false /\
   num_leb (StringToNumber "100") (num_of_Z 0) = false /\
   numberInputs st_connected !! 1%nat = Some "12.5000") /\
  numberInputs
    (final (run peer_down 0 (VorteXInterface.onFromAmountChange "100")
                st_connected)) = ["100"; "97.0000"].
Proof.
  split; [by repeat split|].
  pose proof (onFromAmountChange_estimate peer_down 0%nat st_connected "100"
                "12.5000" eq_refl ltac:(done) eq_refl eq_refl eq_refl)
    as (_ & _ & _ & Hinputs & _ & Hhundred & _).
  rewrite Hinputs, (Hhundred eq_refl). reflexivity.
Defined.

(** C6, as the specification states it, fails: before the wallet is
    connected "100" yields no estimate; the output field is emptied and
    [fromAmount] and [toAmount] keep their value. *)
Lemma onFromAmountChange_disconnected_no_estimate :
  Vx.isConnected (vx st_fresh) = false /\
  numberInputs st_fresh = ["100"; "12.5000"] /\
  numberInputs
    (final (run peer_down 0 (VorteXInterface.onFromAmountChange "100") st_fresh))
  = ["100"; ""] /\
  Vx.toAmount
    (vx (final (run peer_down 0 (VorteXInterface.onFromAmountChange "100")
                     st_fresh)))
  = num_of_Z 0.
Proof. repeat split. Qed.

(** From [10^21] on the estimate is not printed with four decimals either:
    [toFixed] falls back to the exponential notation. *)
Example onFromAmountChange_huge_amount :
  numberInputs
    (final (run peer_down 0 (VorteXInterface.onFromAmountChange "1e22")
                st_connected)) = ["100"; "9.7e+21"].
Proof. vm_compute. reflexivity. Qed.

(** The amount the guard accepts is [Number(amount)], the amount the
    estimate is computed from is [parseFloat(amount)]: a hexadecimal
    literal passes the guard as 16 and is estimated as 0. *)
Example onFromAmountChange_hex_amount :
  num_leb (StringToNumber "0x10") (num_of_Z 0) = false /\
  numberInputs
    (final (run peer_down 0 (VorteXInterface.onFromAmountChange "0x10")
                st_connected)) = ["100"; "0.0000"].
Proof. vm_compute. done. Qed.

(* ===================================================================== *)
(** * executeSwap on a pair it does not support *)
(* ===================================================================== *)

Lemma isSwapping_reset (st : State) :
  Vx.isSwapping (vx st) = false ->
  on_vx (Vx.set_isSwapping false) (on_vx (Vx.set_isSwapping true) st) = st.
Proof. destruct st as [[]]; simpl. by intros ->. Qed.

(** A pair that is neither a buy (native to token) nor a sell (token to
    native) reaches the last branch: with a swap allowed to begin and a
    positive amount entered, the [try] block raises the unsupported-swap
    error without a request, and [executeSwap] reports it and returns the
    state as it was. *)
Lemma executeSwap_unsupported peer n st value :
  Vx.isConnected (vx st) = true ->
  Vx.isSwapping (vx st) = false ->
  head (numberInputs st) = Some value ->
  num_truthy (parseFloat value) = true ->
  num_leb (parseFloat value) (num_of_Z 0) = false ->
  VorteXInterface.is_native (Vx.fromToken (vx st))
  = VorteXInterface.is_native (Vx.toToken (vx st)) ->
  let error := Error VorteXInterface.unsupported_swap_message in
  completion (run peer n VorteXInterface.executeSwap_try st) = Thrown error /\
  requests (events (run peer n VorteXInterface.executeSwap_try st)) = [] /\
  run peer n VorteXInterface.executeSwap st
  = (Normal tt, st, failed_swap_trace error).
Proof.
  intros Hconnected Hidle Hinput Htruthy Hpos Hpair error.
  assert (Htry : run peer n VorteXInterface.executeSwap_try st =
                 (Thrown error, on_vx (Vx.set_isSwapping true) st,
                  [EvUi (Loading "Executing swap...")])).
  { unfold VorteXInterface.executeSwap_try, VorteXInterface.update,
      VorteXInterface.showLoading, VorteXInterface.this, modify, emit, get.
    remember (num_of_Z 0) as zero eqn:Hzero.
    simpl. rewrite Hinput. simpl. rewrite Htruthy, Hpos. simpl.
    rewrite Hpair.
    by destruct (VorteXInterface.is_native (Vx.toToken (vx st))). }
  rewrite Htry. split; [done|]. split; [done|].
  unfold VorteXInterface.executeSwap.
  rewrite run_this, Hconnected, Hidle. simpl negb. cbv iota.
  rewrite run_try_finally, run_try_catch, Htry.
  simpl. rewrite Hconnected. by rewrite (isSwapping_reset st Hidle).
Qed.

(** The errors of [executeSwap] are told apart by their message. *)
Lemma unsupported_is_not_invalid_amount :
  Error VorteXInterface.unsupported_swap_message
  <> Error VorteXInterface.invalid_amount_message.
Proof. discriminate. Qed.

(** C1, as amended. For every token-to-token pair (neither side is CVX or
    CVM), [executeSwap] in the connected state, with no swap in flight and a
    positive amount in the input field, fails with the unsupported-swap
    error, which differs from the invalid-amount error, before any request
    is sent: the [try] block raises it having sent nothing, and
    [executeSwap] as a whole reports "Swap failed: Token-to-token swaps not
    implemented yet. Please swap through CVX.", sends nothing and leaves the
    state as it was. *)
Theorem executeSwap_token_to_token peer n st value :
  Vx.isConnected (vx st) = true ->
  Vx.isSwapping (vx st) = false ->
  head (numberInputs st) = Some value ->
  num_truthy (parseFloat value) = true ->
  num_leb (parseFloat value) (num_of_Z 0) = false ->
  VorteXInterface.is_native (Vx.fromToken (vx st)) = false ->
  VorteXInterface.is_native (Vx.toToken (vx st)) = false ->
  let error := Error VorteXInterface.unsupported_swap_message in
  let o := run peer n VorteXInterface.executeSwap st in
  completion (run peer n VorteXInterface.executeSwap_try st) = Thrown error /\
  requests (events (run peer n VorteXInterface.executeSwap_try st)) = [] /\
  error <> Error VorteXInterface.invalid_amount_message /\
  events o = failed_swap_trace error /\
  requests (events o) = [] /\
  final o = st.
Proof.
  intros Hconnected Hidle Hinput Htruthy Hpos Hfrom Hto error o.
  destruct (executeSwap_unsupported peer n st value) as (Htry & Hreq & Hrun);
    try done; [congruence|].
  subst o. rewrite Hrun.
  repeat split; try done.
Qed.

Lemma executeSwap_token_to_token_witness :
  (Vx.isConnected (vx st_token_pair) = true /\
   Vx.isSwapping (vx st_token_pair) = false /\
   head (numberInputs st_token_pair) = Some "100" /\
   num_truthy (parseFloat "100") = true /\
   num_leb (parseFloat "100") (num_of_Z 0) = false /\
   VorteXInterface.is_native (Vx.fromToken (vx st_token_pair)) = false /\
   VorteXInterface.is_native (Vx.toToken (vx st_token_pair)) = false) /\
  events (run peer_five 0 VorteXInterface.executeSwap st_token_pair)
  = failed_swap_trace (Error VorteXInterface.unsupported_swap_message).
Proof.
  split; [by repeat split|].
  exact (proj1 (proj2 (proj2 (proj2
    (executeSwap_token_to_token peer_five 0%nat st_token_pair "100"
       eq_refl eq_refl eq_refl eq_refl eq_refl eq_refl eq_refl))))).
Defined.

(** C1, as the specification states it, fails: with the amount left blank
    a token-to-token swap in the connected state fails with the
    invalid-amount error, not with the unsupported-swap error. *)
Lemma executeSwap_token_to_token_blank_amount :
  Vx.isConnected (vx st_token_pair_blank) = true /\
  VorteXInterface.is_native (Vx.fromToken (vx st_token_pair_blank)) = false /\
  VorteXInterface.is_native (Vx.toToken (vx st_token_pair_blank)) = false /\
  completion (run peer_five 0 VorteXInterface.executeSwap_try st_token_pair_blank)
  = Thrown (Error VorteXInterface.invalid_amount_message) /\
  events (run peer_five 0 VorteXInterface.executeSwap st_token_pair_blank)
  = failed_swap_trace (Error VorteXInterface.invalid_amount_message) /\
  Error VorteXInterface.invalid_amount_message
  <> Error VorteXInterface.unsupported_swap_message.
Proof. repeat split. discriminate. Qed.

(** C10, as amended. A native-to-native pair (both sides among CVX and
    CVM, CVX to CVM and CVM to CVX included) is neither a buy nor a sell: in
    the connected state, with no swap in flight and a positive amount in
    the input field, [executeSwap] takes the last branch and fails with the
    same error as for a token-to-token pair, before any request is sent. *)
Theorem executeSwap_native_to_native peer n st value :
  Vx.isConnected (vx st) = true ->
  Vx.isSwapping (vx st) = false ->
  head (numberInputs st) = Some value ->
  num_truthy (parseFloat value) = true ->
  num_leb (parseFloat value) (num_of_Z 0) = false ->
  VorteXInterface.is_native (Vx.fromToken (vx st)) = true ->
  VorteXInterface.is_native (Vx.toToken (vx st)) = true ->
  let error := Error VorteXInterface.unsupported_swap_message in
  let o := run peer n VorteXInterface.executeSwap st in
  completion (run peer n VorteXInterface.executeSwap_try st) = Thrown error /\
  requests (events (run peer n VorteXInterface.executeSwap_try st)) = [] /\
  events o = failed_swap_trace error /\
  requests (events o) = [] /\
  final o = st.
Proof.
  intros Hconnected Hidle Hinput Htruthy Hpos Hfrom Hto error o.
  destruct (executeSwap_unsupported peer n st value) as (Htry & Hreq & Hrun);
    try done; [congruence|].
  subst o. rewrite Hrun. by repeat split.
Qed.

Lemma executeSwap_native_to_native_witness :
  (Vx.isConnected (vx st_native_pair) = true /\
   Vx.isSwapping (vx st_native_pair) = false /\
   head (numberInputs st_native_pair) = Some "100" /\
   num_truthy (parseFloat "100") = true /\
   num_leb (parseFloat "100") (num_of_Z 0) = false /\
   VorteXInterface.is_native (Vx.fromToken (vx st_native_pair)) = true /\
   VorteXInterface.is_native (Vx.toToken (vx st_native_pair)) = true) /\
  events (run peer_five 0 VorteXInterface.executeSwap st_native_pair)
  = failed_swap_trace (Error VorteXInterface.unsupported_swap_message).
Proof.
  split; [by repeat split|].
  exact (proj1 (proj2 (proj2
    (executeSwap_native_to_native peer_five 0%nat st_native_pair "100"
       eq_refl eq_refl eq_refl eq_refl eq_refl eq_refl eq_refl)))).
Defined.

(** C10, as stated, fails: with the amount zero a native-to-native swap
    does not reach the last branch; it fails with the invalid-amount
    error. *)
Lemma executeSwap_native_to_native_zero_amount :
  Vx.isConnected (vx st_native_pair_zero) = true /\
  VorteXInterface.is_native (Vx.fromToken (vx st_native_pair_zero)) = true /\
  VorteXInterface.is_native (Vx.toToken (vx st_native_pair_zero)) = true /\
  completion (run peer_five 0 VorteXInterface.executeSwap_try st_native_pair_zero)
  = Thrown (Error VorteXInterface.invalid_amount_message) /\
  events (run peer_five 0 VorteXInterface.executeSwap st_native_pair_zero)
  = failed_swap_trace (Error VorteXInterface.invalid_amount_message) /\
  Error VorteXInterface.invalid_amount_message
  <> Error VorteXInterface.unsupported_swap_message.
Proof. repeat split. discriminate. Qed.

(* ===================================================================== *)
(** * How executeSwap completes *)
(* ===================================================================== *)

Lemma no_call_in (evs : list Event) :
  Forall not_a_call evs ->
  (forall name, ~ In (EvCall name) evs) /\ ~ In swap_completed evs.
Proof.
  intros Hall. rewrite Forall_forall in Hall.
  split; [intros name Hin | intros Hin].
  - apply (Hall (EvCall name)). by apply list_elem_of_In.
  - apply (Hall swap_completed). by apply list_elem_of_In.
Qed.

(** [buyTokens] and [sellTokens] start no asynchronous method. *)
Lemma buyTokens_no_call peer n st self tokenAddress amount :
  Forall not_a_call
    (events (run peer n (ConvexClient.buyTokens self tokenAddress amount) st)).
Proof.
  eapply (within_run (fun _ => True) not_a_call (fun _ _ => True)); try done.
  apply buyTokens_within; [done | by intros ev (c & src & ->) | done].
Qed.

Lemma sellTokens_no_call peer n st self tokenAddress amount :
  Forall not_a_call
    (events (run peer n (ConvexClient.sellTokens self tokenAddress amount) st)).
Proof.
  eapply (within_run (fun _ => True) not_a_call (fun _ _ => True)); try done.
  apply sellTokens_within; [done | by intros ev (c & src & ->) | done].
Qed.

#[local] Opaque ConvexClient.buyTokens ConvexClient.sellTokens
  VorteXInterface.updateBalances.

(** The [try] block either runs to its end, past the notice of success
    and the start of the balance refresh, or raises an error before it has
    started any asynchronous method. *)
Lemma executeSwap_try_outcomes peer n st :
  match run peer n VorteXInterface.executeSwap_try st with
  | (Normal _, _, evs) => In swap_completed evs /\ In balances_refreshed evs
  | (Thrown _, _, evs) => Forall not_a_call evs
  end.
Proof.
  unfold VorteXInterface.executeSwap_try, VorteXInterface.update,
    VorteXInterface.showLoading, VorteXInterface.this, modify, emit, get,
    spawn.
  remember (num_of_Z 0) as zero eqn:Hzero.
  simpl.
  destruct (head (numberInputs st)) as [value|]; simpl;
    [|by repeat constructor].
  destruct (negb (num_truthy (parseFloat value)) || num_leb (parseFloat value) zero);
    simpl; [by repeat constructor|].
  destruct (VorteXInterface.is_native (Vx.fromToken (vx st))),
           (VorteXInterface.is_native (Vx.toToken (vx st))); simpl;
    try (by repeat constructor).
  - (* native to token: buy *)
    unfold VorteXInterface.client_of. simpl.
    destruct (Vx.convexClient (vx st)) as [client|]; simpl;
      [|by repeat constructor].
    rewrite run_mbind.
    pose proof (buyTokens_no_call peer n (on_vx (Vx.set_isSwapping true) st)
                  client
                  (VorteXInterface.token_address
                     (Vx.set_isSwapping true (vx st)) (Vx.toToken (vx st)))
                  (VNum (parseFloat value))) as Hquiet.
    unfold events in Hquiet.
    destruct (run peer n (ConvexClient.buyTokens _ _ _) _)
      as [[[result|e] s1] evs1]; simpl in *.
    + destruct (run peer _ VorteXInterface.updateBalances _) as [[r2 s2] evs2].
      unfold swap_completed, balances_refreshed.
      split; right; apply in_or_app; right;
        repeat (first [left; reflexivity | right]).
    + by constructor.
  - (* token to native: sell *)
    unfold VorteXInterface.client_of. simpl.
    destruct (Vx.convexClient (vx st)) as [client|]; simpl;
      [|by repeat constructor].
    rewrite run_mbind.
    pose proof (sellTokens_no_call peer n (on_vx (Vx.set_isSwapping true) st)
                  client
                  (VorteXInterface.token_address
                     (Vx.set_isSwapping true (vx st)) (Vx.fromToken (vx st)))
                  (VNum (parseFloat value))) as Hquiet.
    unfold events in Hquiet.
    destruct (run peer n (ConvexClient.sellTokens _ _ _) _)
      as [[[result|e] s1] evs1]; simpl in *.
    + destruct (run peer _ VorteXInterface.updateBalances _) as [[r2 s2] evs2].
      unfold swap_completed, balances_refreshed.
      split; right; apply in_or_app; right;
        repeat (first [left; reflexivity | right]).
    + by constructor.
Qed.

#[local] Transparent ConvexClient.buyTokens ConvexClient.sellTokens
  VorteXInterface.updateBalances.

(** The [catch] block notifies the user of the failure and starts
    nothing. *)
Lemma executeSwap_catch_run peer n st error :
  run peer n (VorteXInterface.executeSwap_catch error) st =
  (Normal tt, st,
   [EvUi (Console LError [VStr "Swap failed:"; error_value error]);
    EvUi (ConnectionStatus (Vx.isConnected (vx st)));
    EvUi ButtonsEnabled;
    swap_failed error;
    EvUi (Console LLog [VStr ("❌ Swap failed: " +:+ err_message error)])]).
Proof. reflexivity. Qed.

(** C2, as amended. Every run of [executeSwap] that begins (connected, no
    swap in flight) completes normally with the in-flight flag cleared,
    whether the swap succeeded or failed. The balances are refreshed
    ([updateBalances] is started) when the swap succeeded, after the notice
    of success; when it failed the user is notified of the failure and no
    refresh is started. *)
Theorem executeSwap_completion peer n st :
  Vx.isConnected (vx st) = true ->
  Vx.isSwapping (vx st) = false ->
  let o := run peer n VorteXInterface.executeSwap st in
  completion o = Normal tt /\
  Vx.isSwapping (vx (final o)) = false /\
  ((In swap_completed (events o) /\ In balances_refreshed (events o)) \/
   ((exists error, In (swap_failed error) (events o)) /\
    ~ In swap_completed (events o) /\
    forall name, ~ In (EvCall name) (events o))).
Proof.
  intros Hconnected Hidle o. subst o.
  unfold VorteXInterface.executeSwap.
  rewrite run_this, Hconnected, Hidle. simpl negb. cbv iota.
  rewrite run_try_finally, run_try_catch.
  pose proof (executeSwap_try_outcomes peer n st) as Htry.
  destruct (run peer n VorteXInterface.executeSwap_try st)
    as [[[[]|error] s1] evs1].
  - simpl. rewrite app_nil_r. split; [done|]. split; [done|]. by left.
  - rewrite executeSwap_catch_run. simpl.
    split; [done|]. split; [done|]. right.
    apply no_call_in in Htry as [Hcalls Hnotice].
    rewrite app_nil_r. setoid_rewrite in_app_iff.
    split; [|split].
    + exists error. right. simpl. tauto.
    + intros [Hin|Hin]; [done|].
      unfold swap_completed, swap_failed in Hin. simpl in Hin.
      repeat (destruct Hin as [Hin|Hin]; [discriminate Hin|]). done.
    + intros name [Hin|Hin]; [by eapply Hcalls|].
      unfold swap_failed in Hin. simpl in Hin.
      repeat (destruct Hin as [Hin|Hin]; [discriminate Hin|]). done.
Qed.

Lemma executeSwap_completion_witness :
  (Vx.isConnected (vx st_connected) = true /\
   Vx.isSwapping (vx st_connected) = false) /\
  Vx.isSwapping (vx (final (run peer_five 0 VorteXInterface.executeSwap
                                st_connected))) = false.
Proof.
  split; [by split|].
  exact (proj1 (proj2 (executeSwap_completion peer_five 0%nat st_connected
                         eq_refl eq_refl))).
Defined.

(** C2, as the specification states it, fails: a swap that fails (here the
    peer rejects the transaction for lack of funds) clears the flag but
    starts no balance refresh. *)
Lemma executeSwap_failure_skips_refresh :
  Vx.isConnected (vx st_connected) = true /\
  Vx.isSwapping (vx st_connected) = false /\
  In (swap_failed (Error "Transaction error: Insufficient funds"))
     (events (run peer_funds 0 VorteXInterface.executeSwap st_connected)) /\
  ~ In balances_refreshed
       (events (run peer_funds 0 VorteXInterface.executeSwap st_connected)).
Proof.
  split; [done|]. split; [done|]. split.
  - vm_compute. tauto.
  - vm_compute. intros H.
    repeat (destruct H as [H|H]; [discriminate H|]). done.
Qed.

(** The same swap accepted by the peer ends with the refresh. *)
Example executeSwap_success_refreshes :
  In swap_completed
     (events (run peer_five 0 VorteXInterface.executeSwap st_connected)) /\
  In balances_refreshed
     (events (run peer_five 0 VorteXInterface.executeSwap st_connected)) /\
  requests (events (run peer_five 0 VorteXInterface.executeSwap st_connected))
  = [transact_request demo_client
       "(do (import exchange.torus :as torus) (torus/buy-tokens null 100))";
     native_balance_query demo_client;
     native_balance_query demo_client].
Proof. vm_compute. tauto. Qed.

(* ===================================================================== *)
(** * One swap at a time, under every interleaving *)
(* ===================================================================== *)

Import EventLoop.

(** ** Advancing composed programs *)

Lemma advance_bind {A B : Type} (p : Prog A) (f : A -> Prog B) s :
  advance (bind p f) s =
  match advance p s with
  | (Done (Normal a), s1, tasks1, evs1) =>
      let '(st, s2, tasks2, evs2) := advance (f a) s1 in
      (st, s2, tasks1 ++ tasks2, evs1 ++ evs2)
  | (Done (Thrown e), s1, tasks1, evs1) => (Done (Thrown e), s1, tasks1, evs1)
  | (Blocked req k, s1, tasks1, evs1) =>
      (Blocked req (fun o => bind (k o) f), s1, tasks1, evs1)
  end.
Proof.
  revert B f s.
  induction p as [A a|A e|A k IH|A g k IH|A ef k IH|A req k IH|A name task _ k IH]
    using Prog_ind; intros B f s; simpl.
  - by destruct (advance (f a) s) as [[[st s2] tasks2] evs2].
  - done.
  - apply IH.
  - apply IH.
  - rewrite IH.
    destruct (advance k s) as [[[[[a|e]|req k'] s1] tasks1] evs1]; simpl; try done.
    by destruct (advance (f a) s1) as [[[st s2] tasks2] evs2].
  - done.
  - destruct (advance task s) as [[[st0 s0] tasks0] evs0]. rewrite IH.
    destruct (advance k s0) as [[[[[a|e]|req k'] s1] tasks1] evs1]; simpl; try done.
    destruct (advance (f a) s1) as [[[st s2] tasks2] evs2].
    by rewrite <- !app_assoc.
Qed.

Lemma advance_try_catch {A : Type} (p : Prog A) (h : JsError -> Prog A) s :
  advance (try_catch p h) s =
  match advance p s with
  | (Done (Normal a), s1, tasks1, evs1) => (Done (Normal a), s1, tasks1, evs1)
  | (Done (Thrown e), s1, tasks1, evs1) =>
      let '(st, s2, tasks2, evs2) := advance (h e) s1 in
      (st, s2, tasks1 ++ tasks2, evs1 ++ evs2)
  | (Blocked req k, s1, tasks1, evs1) =>
      (Blocked req (fun o => try_catch (k o) h), s1, tasks1, evs1)
  end.
Proof.
  revert h s.
  induction p as [A a|A e|A k IH|A g k IH|A ef k IH|A req k IH|A name task _ k IH]
    using Prog_ind; intros h s; simpl.
  - done.
  - by destruct (advance (h e) s) as [[[st s2] tasks2] evs2].
  - apply IH.
  - apply IH.
  - rewrite IH.
    destruct (advance k s) as [[[[[a|e]|req k'] s1] tasks1] evs1]; simpl; try done.
    by destruct (advance (h e) s1) as [[[st s2] tasks2] evs2].
  - done.
  - destruct (advance task s) as [[[st0 s0] tasks0] evs0]. rewrite IH.
    destruct (advance k s0) as [[[[[a|e]|req k'] s1] tasks1] evs1]; simpl; try done.
    destruct (advance (h e) s1) as [[[st s2] tasks2] evs2].
    by rewrite <- !app_assoc.
Qed.

(** [finally] blocks that only update the state. *)
Lemma advance_try_finally {A : Type} (p : Prog A) (g : State -> State) s :
  advance (try_finally p (modify g)) s =
  match advance p s with
  | (Done r, s1, tasks1, evs1) => (Done r, g s1, tasks1, evs1)
  | (Blocked req k, s1, tasks1, evs1) =>
      (Blocked req (fun o => try_finally (k o) (modify g)), s1, tasks1, evs1)
  end.
Proof.
  revert s.
  induction p as [A a|A e|A k IH|A f k IH|A ef k IH|A req k IH|A name task _ k IH]
    using Prog_ind; intros s; simpl.
  - done.
  - done.
  - apply IH.
  - apply IH.
  - rewrite IH.
    by destruct (advance k s) as [[[[r|req k'] s1] tasks1] evs1].
  - done.
  - destruct (advance task s) as [[[st0 s0] tasks0] evs0]. rewrite IH.
    by destruct (advance k s0) as [[[[r|req k'] s1] tasks1] evs1].
Qed.

(** ** Footprints under the event loop *)

Lemma within_advance (F : (State -> State) -> Prop) (P : Event -> Prop)
    (R : State -> State -> Prop) {A : Type} (p : Prog A) :
  (forall s, R s s) ->
  (forall s1 s2 s3, R s1 s2 -> R s2 s3 -> R s1 s3) ->
  (forall f s, F f -> R s (f s)) ->
  Within F P p ->
  forall s,
    let '(st, s', tasks, evs) := advance p s in
    R s s' /\ Forall P evs /\ Forall (task_within F P) tasks /\
    match st with
    | Blocked req k => P (EvFetch req) /\ forall o, Within F P (k o)
    | Done _ => True
    end.
Proof.
  intros Hrefl Htrans HF Hp.
  induction Hp as [A a|A e|A k _ IH|A f k Hf _ IH|A e k He _ IH
                  |A req k Hreq Hk _|A name task k Hname _ IHt _ IHk];
    intros s; simpl.
  - repeat split; auto.
  - repeat split; auto.
  - apply IH.
  - specialize (IH (f s)).
    destruct (advance k (f s)) as [[[st s'] tasks] evs].
    destruct IH as (H1 & H2 & H3 & H4). repeat split; try done.
    eapply Htrans; [apply HF, Hf | done].
  - specialize (IH s). destruct (advance k s) as [[[st s'] tasks] evs].
    destruct IH as (H1 & H2 & H3 & H4). repeat split; try done.
    by constructor.
  - repeat split; auto.
  - specialize (IHt s). destruct (advance task s) as [[[st1 s1] tasks1] evs1].
    destruct IHt as (H1 & H2 & H3 & H4).
    specialize (IHk s1). destruct (advance k s1) as [[[st2 s2] tasks2] evs2].
    destruct IHk as (H5 & H6 & H7 & H8).
    split; [by eapply Htrans|]. split; [constructor; [done | by apply Forall_app]|].
    split; [|done].
    apply Forall_app. split; [done|]. apply Forall_app. split; [|done].
    destruct st1 as [r|req kt]; [constructor|].
    constructor; [|constructor]. done.
Qed.

(** A straight program ends where it is started. *)
Lemma straight_advance {A : Type} (p : Prog A) s :
  Straight p -> exists r, (advance p s).1.1.1 = Done r.
Proof.
  intros Hp. revert s.
  induction Hp as [A a|A e|A k _ IH|A f k _ IH|A e k _ IH|A name task k _ IH];
    intros s; simpl; eauto.
  - destruct (IH s) as [r Hr].
    destruct (advance k s) as [[[st s'] tasks] evs]. simpl in *. eauto.
  - destruct (advance task s) as [[[st1 s1] tasks1] evs1].
    destruct (IH s1) as [r Hr].
    destruct (advance k s1) as [[[st s'] tasks] evs]. simpl in *. eauto.
Qed.

Lemma straight_bind {A B : Type} (p : Prog A) (f : A -> Prog B) :
  Straight p -> (forall a, Straight (f a)) -> Straight (bind p f).
Proof. intros Hp Hf. induction Hp; simpl; try (constructor; auto); auto. Qed.

Lemma straight_mbind {A B : Type} (p : Prog A) (f : A -> Prog B) :
  Straight p -> (forall a, Straight (f a)) -> Straight (p ≫= f).
Proof. apply straight_bind. Qed.

Lemma straight_try_catch {A : Type} (p : Prog A) (h : JsError -> Prog A) :
  Straight p -> (forall e, Straight (h e)) -> Straight (try_catch p h).
Proof. intros Hp Hh. induction Hp; simpl; try (constructor; auto); auto. Qed.

(** ** The quiet methods *)

Lemma effect_not_transact e : not_transact (EvUi e).
Proof. intros (c & source & H). discriminate H. Qed.

Lemma call_not_transact name : not_transact (EvCall name).
Proof. intros (c & source & H). discriminate H. Qed.

(** A query has two fields in its body, a transaction three. *)
Lemma query_not_transact ev : is_query ev -> not_transact ev.
Proof.
  intros (c & source & address & ->) (c' & source' & H). discriminate H.
Qed.

Lemma post_not_transact url fields :
  length fields <> 3%nat -> not_transact (EvFetch (ConvexClient.post url fields)).
Proof.
  intros Hlen (c & source & H). injection H as _ ->. by apply Hlen.
Qed.

Lemma on_client_keeps_flag self f : keeps_flag (on_client self f).
Proof. by intros s. Qed.

Lemma on_inputs_keeps_flag f : keeps_flag (on_inputs f).
Proof. by intros s. Qed.

Lemma alloc_keeps_flag c : keeps_flag (alloc c).
Proof. by intros s. Qed.

Lemma on_vx_keeps_flag f :
  (forall v, Vx.isSwapping (f v) = Vx.isSwapping v) -> keeps_flag (on_vx f).
Proof. intros Hf s. apply Hf. Qed.

#[local] Hint Resolve effect_not_transact call_not_transact query_not_transact
  on_client_keeps_flag on_inputs_keeps_flag alloc_keeps_flag : footprint.
#[local] Hint Extern 1 (keeps_flag (on_vx _)) =>
  apply on_vx_keeps_flag; intros ?; reflexivity : footprint.
#[local] Hint Extern 1 (not_transact (EvFetch (ConvexClient.post _ _))) =>
  apply post_not_transact; simpl; lia : footprint.

Lemma query_quiet self source address :
  Quiet (ConvexClient.query self source address).
Proof. apply query_within; auto with footprint. Qed.

Lemma getTokenBalance_quiet sym : Quiet (VorteXInterface.getTokenBalance sym).
Proof. apply getTokenBalance_within; auto with footprint. Qed.

Lemma updateBalances_quiet : Quiet VorteXInterface.updateBalances.
Proof. apply updateBalances_within; auto with footprint. Qed.

#[local] Hint Resolve query_quiet updateBalances_quiet : footprint.

Lemma connect_quiet url address keyPair :
  Quiet (ConvexClient.connect url address keyPair).
Proof.
  unfold ConvexClient.connect, ConvexClient.initialize,
    ConvexClient.createDemoAccount, ConvexClient.requestFaucetCoins,
    ConvexClient.setAddress, ConvexClient.setKeyPair, ConvexClient.update,
    ConvexClient.this, fetch, json, get_prop, console_log, console_error,
    throw, get, modify, emit.
  footprint.
Qed.

#[local] Hint Resolve connect_quiet : footprint.

Lemma toggleConnection_quiet : Quiet VorteXInterface.toggleConnection.
Proof.
  unfold VorteXInterface.toggleConnection, VorteXInterface.connectWallet,
    VorteXInterface.client_of, VorteXInterface.showLoading,
    VorteXInterface.hideLoading, VorteXInterface.showNotification,
    VorteXInterface.updateConnectionStatus, VorteXInterface.update,
    VorteXInterface.this, ConvexClient.close, ConvexClient.update,
    console_log, console_error, throw, modify, emit, spawn.
  footprint.
Qed.

Lemma swapTokenPositions_quiet : Quiet VorteXInterface.swapTokenPositions.
Proof.
  unfold VorteXInterface.swapTokenPositions,
    VorteXInterface.updateTokenDisplays, VorteXInterface.update,
    VorteXInterface.this, modify, emit, spawn.
  footprint.
Qed.

Lemma onInput_quiet value : Quiet (VorteXInterface.onInput value).
Proof.
  unfold VorteXInterface.onInput, VorteXInterface.onFromAmountChange,
    VorteXInterface.update, VorteXInterface.this, console_error, get, modify,
    emit.
  footprint.
Qed.

Lemma showTokenSelector_quiet position selected :
  Quiet (VorteXInterface.showTokenSelector position selected).
Proof.
  unfold VorteXInterface.showTokenSelector,
    VorteXInterface.updateTokenDisplays, VorteXInterface.update,
    VorteXInterface.this, modify, emit, spawn.
  footprint.
Qed.

Lemma onTimer_quiet : Quiet VorteXInterface.onTimer.
Proof.
  unfold VorteXInterface.onTimer, VorteXInterface.this, spawn.
  footprint.
Qed.

(** ** executeSwap under the event loop *)

Ltac straight :=
  repeat first
    [ progress intros
    | match goal with
      | |- Straight (match ?x with _ => _ end) => destruct x
      | |- Straight (_ ≫= _) => apply straight_mbind
      | |- Straight (bind _ _) => apply straight_bind
      | |- Straight (prog_bind _ _ _ _) => apply straight_bind
      | |- Straight (try_catch _ _) => apply straight_try_catch
      | |- Straight _ => constructor
      end ].

Lemma advance_mbind {A B : Type} (p : Prog A) (f : A -> Prog B) s :
  advance (p ≫= f) s =
  match advance p s with
  | (Done (Normal a), s1, tasks1, evs1) =>
      let '(st, s2, tasks2, evs2) := advance (f a) s1 in
      (st, s2, tasks1 ++ tasks2, evs1 ++ evs2)
  | (Done (Thrown e), s1, tasks1, evs1) => (Done (Thrown e), s1, tasks1, evs1)
  | (Blocked req k, s1, tasks1, evs1) =>
      (Blocked req (fun o => k o ≫= f), s1, tasks1, evs1)
  end.
Proof. apply advance_bind. Qed.

(** [transact] fails at once, or is parked on its request; given the
    answer it goes straight to its end, quietly. *)
Lemma transact_advance self source s :
  let '(st, s', tasks, evs) := advance (ConvexClient.transact self source) s in
  s' = s /\ tasks = [] /\
  match st with
  | Done (Normal _) => False
  | Done (Thrown _) => True
  | Blocked req k =>
      is_transact (EvFetch req) /\ forall o, Quiet (k o) /\ Straight (k o)
  end.
Proof.
  unfold ConvexClient.transact, ConvexClient.this, ConvexClient.update, fetch,
    json, get_prop, console_log, console_error, throw, modify, emit.
  simpl.
  destruct (Client.isConnected (heap s self)); simpl; [|done].
  destruct (truthy (Client.address (heap s self))); simpl; [|done].
  split; [done|]. split; [done|]. split; [by eexists _, _|].
  intros o. split; [footprint | straight].
Qed.

Lemma buyTokens_advance self tokenAddress amount s :
  let '(st, s', tasks, evs) :=
    advance (ConvexClient.buyTokens self tokenAddress amount) s in
  s' = s /\ tasks = [] /\
  match st with
  | Done (Normal _) => False
  | Done (Thrown _) => True
  | Blocked req k =>
      is_transact (EvFetch req) /\ forall o, Quiet (k o) /\ Straight (k o)
  end.
Proof. apply transact_advance. Qed.

Lemma sellTokens_advance self tokenAddress amount s :
  let '(st, s', tasks, evs) :=
    advance (ConvexClient.sellTokens self tokenAddress amount) s in
  s' = s /\ tasks = [] /\
  match st with
  | Done (Normal _) => False
  | Done (Thrown _) => True
  | Blocked req k =>
      is_transact (EvFetch req) /\ forall o, Quiet (k o) /\ Straight (k o)
  end.
Proof. apply transact_advance. Qed.

(** What follows the transaction in the [try] block of [executeSwap]. *)
Lemma swap_epilogue_quiet :
  Quiet (VorteXInterface.hideLoading;;
         VorteXInterface.showNotification "Swap completed successfully!" "success";;
         modify (on_inputs (map (fun _ => "")));;
         VorteXInterface.update (Vx.set_fromAmount (num_of_Z 0));;
         VorteXInterface.update (Vx.set_toAmount (num_of_Z 0));;
         spawn "updateBalances" VorteXInterface.updateBalances) /\
  Straight (VorteXInterface.hideLoading;;
            VorteXInterface.showNotification "Swap completed successfully!" "success";;
            modify (on_inputs (map (fun _ => "")));;
            VorteXInterface.update (Vx.set_fromAmount (num_of_Z 0));;
            VorteXInterface.update (Vx.set_toAmount (num_of_Z 0));;
            spawn "updateBalances" VorteXInterface.updateBalances).
Proof.
  unfold VorteXInterface.hideLoading, VorteXInterface.showNotification,
    VorteXInterface.updateConnectionStatus, VorteXInterface.update,
    VorteXInterface.this, console_log, modify, emit, spawn.
  split; [footprint | straight].
Qed.

Lemma executeSwap_catch_quiet error :
  Quiet (VorteXInterface.executeSwap_catch error) /\
  Straight (VorteXInterface.executeSwap_catch error).
Proof.
  unfold VorteXInterface.executeSwap_catch, VorteXInterface.hideLoading,
    VorteXInterface.showNotification, VorteXInterface.updateConnectionStatus,
    VorteXInterface.this, console_log, console_error, emit.
  split; [footprint | straight].
Qed.

#[local] Opaque ConvexClient.buyTokens ConvexClient.sellTokens
  VorteXInterface.updateBalances.

(** The [try] block sets the flag, and then fails before anything is sent
    or is parked on its transaction. *)
Lemma executeSwap_try_advance s :
  let '(st, s', tasks, evs) := advance VorteXInterface.executeSwap_try s in
  Vx.isSwapping (vx s') = true /\ tasks = [] /\
  match st with
  | Done (Normal _) => False
  | Done (Thrown _) => True
  | Blocked req k =>
      is_transact (EvFetch req) /\ forall o, Quiet (k o) /\ Straight (k o)
  end.
Proof.
  unfold VorteXInterface.executeSwap_try, VorteXInterface.update,
    VorteXInterface.showLoading, VorteXInterface.this,
    VorteXInterface.client_of, modify, emit, get, throw.
  remember (num_of_Z 0) as zero eqn:Hzero.
  simpl.
  destruct (head (numberInputs s)) as [value|]; simpl; [|done].
  destruct (negb (num_truthy (parseFloat value)) || num_leb (parseFloat value) zero);
    simpl; [done|].
  destruct (VorteXInterface.is_native (Vx.fromToken (vx s))),
           (VorteXInterface.is_native (Vx.toToken (vx s))); simpl; try done.
  - destruct (Vx.convexClient (vx s)) as [client|]; simpl; [|done].
    rewrite advance_mbind.
    pose proof (buyTokens_advance client
                  (VorteXInterface.token_address
                     (Vx.set_isSwapping true (vx s)) (Vx.toToken (vx s)))
                  (VNum (parseFloat value))
                  (on_vx (Vx.set_isSwapping true) s)) as Hbuy.
    destruct (advance (ConvexClient.buyTokens _ _ _) _)
      as [[[[[result|e]|req k] s1] tasks1] evs1];
      destruct Hbuy as (-> & -> & Hk); try done.
    simpl. split; [done|]. split; [done|].
    destruct Hk as [Hreq Hk]. split; [done|].
    intros o. destruct (Hk o) as [Hquiet Hstraight]. subst zero.
    split.
    + apply within_mbind; [done|]. intros _. apply swap_epilogue_quiet.
    + apply straight_mbind; [done|]. intros _. apply swap_epilogue_quiet.
  - destruct (Vx.convexClient (vx s)) as [client|]; simpl; [|done].
    rewrite advance_mbind.
    pose proof (sellTokens_advance client
                  (VorteXInterface.token_address
                     (Vx.set_isSwapping true (vx s)) (Vx.fromToken (vx s)))
                  (VNum (parseFloat value))
                  (on_vx (Vx.set_isSwapping true) s)) as Hsell.
    destruct (advance (ConvexClient.sellTokens _ _ _) _)
      as [[[[[result|e]|req k] s1] tasks1] evs1];
      destruct Hsell as (-> & -> & Hk); try done.
    simpl. split; [done|]. split; [done|].
    destruct Hk as [Hreq Hk]. split; [done|].
    intros o. destruct (Hk o) as [Hquiet Hstraight]. subst zero.
    split.
    + apply within_mbind; [done|]. intros _. apply swap_epilogue_quiet.
    + apply straight_mbind; [done|]. intros _. apply swap_epilogue_quiet.
Qed.

#[local] Transparent ConvexClient.buyTokens ConvexClient.sellTokens
  VorteXInterface.updateBalances.

(** The [catch] block runs to its end at once and parks nothing. *)
Lemma executeSwap_catch_advance error s :
  advance (VorteXInterface.executeSwap_catch error) s =
  (Done (Normal tt), s, [],
   [EvUi (Console LError [VStr "Swap failed:"; error_value error]);
    EvUi (ConnectionStatus (Vx.isConnected (vx s)));
    EvUi ButtonsEnabled;
    swap_failed error;
    EvUi (Console LLog [VStr ("❌ Swap failed: " +:+ err_message error)])]).
Proof. reflexivity. Qed.

#[local] Opaque VorteXInterface.executeSwap_try
  VorteXInterface.executeSwap_catch.

(** [executeSwap] as a listener: it returns with the flag as it found it,
    or it is parked on its transaction with the flag set, having found it
    clear. *)
Lemma executeSwap_advance s :
  let '(st, s', tasks, evs) := advance VorteXInterface.executeSwap s in
  tasks = [] /\
  match st with
  | Done _ => Vx.isSwapping (vx s') = Vx.isSwapping (vx s)
  | Blocked req k =>
      Vx.isSwapping (vx s) = false /\ Vx.isSwapping (vx s') = true /\
      is_transact (EvFetch req) /\ finishes_swap k
  end.
Proof.
  unfold VorteXInterface.executeSwap, VorteXInterface.this. simpl.
  destruct (Vx.isConnected (vx s)); simpl; [|done].
  destruct (Vx.isSwapping (vx s)) eqn:Hflag; simpl; [done|].
  unfold VorteXInterface.update at 1.
  rewrite advance_try_finally, advance_try_catch.
  pose proof (executeSwap_try_advance s) as Htry.
  destruct (advance VorteXInterface.executeSwap_try s)
    as [[[[[[]|error]|req k] s1] tasks1] evs1];
    destruct Htry as (Hset & -> & Hk).
  - done.
  - by rewrite executeSwap_catch_advance.
  - split; [done|]. split; [done|]. split; [done|]. destruct Hk as [Hreq Hk].
    split; [done|].
    exists (fun o => try_catch (k o) VorteXInterface.executeSwap_catch).
    intros o. split; [done|]. destruct (Hk o) as [Hquiet Hstraight]. split.
    + apply within_try_catch; [done|]. intros e. apply executeSwap_catch_quiet.
    + apply straight_try_catch; [done|]. intros e. apply executeSwap_catch_quiet.
Qed.

#[local] Transparent VorteXInterface.executeSwap_try
  VorteXInterface.executeSwap_catch.

(** ** The invariant of the event loop *)

Lemma quiet_launch (p : Prog unit) s tasks :
  Quiet p ->
  Vx.isSwapping (vx (state (launch p s tasks))) = Vx.isSwapping (vx s) /\
  exists new,
    pending (launch p s tasks) = tasks ++ new /\ Forall quiet_task new.
Proof.
  intros Hp. unfold launch.
  pose proof (within_advance keeps_flag not_transact
                (fun a b => Vx.isSwapping (vx b) = Vx.isSwapping (vx a)) p)
    as Hadv.
  specialize (Hadv ltac:(done) ltac:(intros; congruence)
                ltac:(intros f ? Hf; apply Hf) Hp s).
  destruct (advance p s) as [[[st s'] spawned] evs].
  destruct Hadv as (Hflag & _ & Hspawned & Hst). simpl.
  split; [done|]. eexists. split; [done|].
  apply Forall_app. split; [done|].
  destruct st as [r|req k]; [constructor|].
  constructor; [done|constructor].
Qed.

Lemma executeSwap_launch s tasks :
  let c := launch VorteXInterface.executeSwap s tasks in
  (Vx.isSwapping (vx (state c)) = Vx.isSwapping (vx s) /\ pending c = tasks)
  \/
  (Vx.isSwapping (vx s) = false /\ Vx.isSwapping (vx (state c)) = true /\
   exists t, pending c = tasks ++ [t] /\ swap_task t).
Proof.
  unfold launch. pose proof (executeSwap_advance s) as Hadv.
  destruct (advance VorteXInterface.executeSwap s)
    as [[[[r|req k] s'] spawned] evs]; destruct Hadv as [-> Hst]; simpl.
  - left. by rewrite app_nil_r.
  - right. destruct Hst as (Hclear & Hset & Hreq & Hk).
    split; [done|]. split; [done|]. by exists (req, k).
Qed.

(** The answer to the transaction of a swap ends the swap. *)
Lemma swap_answer_launch k o s tasks :
  finishes_swap k ->
  Vx.isSwapping (vx (state (launch (k o) s tasks))) = false /\
  exists new,
    pending (launch (k o) s tasks) = tasks ++ new /\ Forall quiet_task new.
Proof.
  intros [inner Hinner]. destruct (Hinner o) as (-> & Hquiet & Hstraight).
  unfold launch, VorteXInterface.update. rewrite advance_try_finally.
  pose proof (within_advance keeps_flag not_transact (fun _ _ => True)
                (inner o)) as Hadv.
  specialize (Hadv ltac:(done) ltac:(done) ltac:(done) Hquiet s).
  destruct (straight_advance (inner o) s Hstraight) as [r Hr].
  destruct (advance (inner o) s) as [[[st s'] spawned] evs].
  simpl in Hr. subst st. destruct Hadv as (_ & _ & Hspawned & _). simpl.
  split; [done|]. exists spawned. by rewrite app_nil_r.
Qed.

Lemma listener_cases p :
  Listener p -> p = VorteXInterface.executeSwap \/ Quiet p.
Proof.
  intros []; [right|by left|right..].
  - apply toggleConnection_quiet.
  - apply swapTokenPositions_quiet.
  - apply onInput_quiet.
  - apply showTokenSelector_quiet.
  - apply onTimer_quiet.
Qed.

(** Two ways of taking one element out of the same list. *)
Lemma split_twice {T : Type} (b1 a1 b2 a2 : list T) (x y : T) :
  b1 ++ x :: a1 = b2 ++ y :: a2 ->
  (b1 = b2 /\ x = y /\ a1 = a2) \/
  (exists m, b2 = b1 ++ x :: m /\ a1 = m ++ y :: a2) \/
  (exists m, b1 = b2 ++ y :: m /\ a2 = m ++ x :: a1).
Proof.
  revert b2. induction b1 as [|z b1 IH]; intros [|w b2] H; simpl in H.
  - injection H as -> ->. by left.
  - injection H as -> ->. right. left. by exists b2.
  - injection H as -> <-. right. right. by exists b1.
  - injection H as -> H. destruct (IH _ H) as [(-> & -> & ->)|[[m [-> ->]]|[m [-> ->]]]].
    + by left.
    + right. left. by exists m.
    + right. right. by exists m.
Qed.

Lemma quiet_task_not_swap t : quiet_task t -> ~ awaits_transact t.
Proof. by intros [Hreq _]. Qed.

Lemma one_swap_step c c' : one_swap c -> step c c' -> one_swap c'.
Proof.
  intros Hc Hstep. destruct Hstep as [c p Hp|c b req k a o Hpending].
  - (* a listener runs *)
    destruct (listener_cases p Hp) as [->|Hquiet].
    + destruct (executeSwap_launch (state c) (pending c))
        as [[Hflag Htasks]|(Hclear & Hset & t & Htasks & Ht)].
      * destruct Hc as [[Hidle Hall]|(Hbusy & before & t & after & Hsplit & Ht & Hall)].
        -- left. rewrite Hflag, Htasks. by split.
        -- right. rewrite Hflag, Htasks. split; [done|]. by exists before, t, after.
      * destruct Hc as [[Hidle Hall]|(Hbusy & _)]; [|congruence].
        right. split; [done|]. exists (pending c), t, []. rewrite app_nil_r.
        by split.
    + destruct (quiet_launch p (state c) (pending c) Hquiet)
        as (Hflag & new & Htasks & Hnew).
      destruct Hc as [[Hidle Hall]|(Hbusy & before & t & after & Hsplit & Ht & Hall)].
      * left. rewrite Hflag, Htasks. split; [done|]. by apply Forall_app.
      * right. rewrite Hflag, Htasks. split; [done|].
        exists before, t, (after ++ new). rewrite Hsplit, <- app_assoc. simpl.
        split; [done|]. split; [done|]. rewrite app_assoc. by apply Forall_app.
  - (* an answer arrives *)
    destruct Hc as [[Hidle Hall]|(Hbusy & before & t & after & Hsplit & Ht & Hall)].
    + rewrite Hpending in Hall. apply Forall_app in Hall as [Hb Ha].
      apply Forall_cons in Ha as [[_ Hk] Ha]. simpl in Hk.
      destruct (quiet_launch (k o) (state c) (b ++ a) (Hk o))
        as (Hflag & new & Htasks & Hnew).
      left. rewrite Hflag, Htasks. split; [done|].
      apply Forall_app. split; [|done]. by apply Forall_app.
    + rewrite Hpending in Hsplit.
      destruct (split_twice _ _ _ _ _ _ Hsplit)
        as [(<- & <- & <-)|[[m [-> ->]]|[m [-> ->]]]].
      * (* the answer to the transaction *)
        destruct Ht as [_ Hk]. simpl in Hk.
        destruct (swap_answer_launch k o (state c) (b ++ a) Hk)
          as (Hflag & new & Htasks & Hnew).
        left. rewrite Hflag, Htasks. split; [done|]. by apply Forall_app.
      * (* the answer to a request parked before it *)
        rewrite <- app_assoc in Hall. simpl in Hall.
        apply Forall_app in Hall as [Hb Hrest].
        apply Forall_cons in Hrest as [[_ Hk] Hrest]. simpl in Hk.
        lazymatch goal with
        | |- one_swap (launch _ _ ?tasks) =>
            destruct (quiet_launch (k o) (state c) tasks (Hk o))
              as (Hflag & new & Htasks & Hnew)
        end.
        right. rewrite Hflag, Htasks. split; [done|].
        exists (b ++ m), t, (after ++ new).
        split; [by rewrite <- !app_assoc|]. split; [done|].
        rewrite <- app_assoc, !Forall_app in *. tauto.
      * (* the answer to a request parked after it *)
        rewrite Forall_app in Hall. destruct Hall as [Hb Hrest].
        apply Forall_app in Hrest as [Hm Hrest].
        apply Forall_cons in Hrest as [[_ Hk] Hrest]. simpl in Hk.
        lazymatch goal with
        | |- one_swap (launch _ _ ?tasks) =>
            destruct (quiet_launch (k o) (state c) tasks (Hk o))
              as (Hflag & new & Htasks & Hnew)
        end.
        right. rewrite Hflag, Htasks. split; [done|].
        exists before, t, (m ++ a ++ new).
        split; [by rewrite <- !app_assoc|]. split; [done|].
        rewrite !Forall_app. tauto.
Qed.

Lemma reachable_one_swap c : reachable c -> one_swap c.
Proof.
  induction 1 as [s Hs|c c' _ IH Hstep].
  - left. by split.
  - by eapply one_swap_step.
Qed.

(** C4. [executeSwap] never issues two concurrent transact calls. In every
    configuration the page can reach from its start, whatever the user
    clicks and in whatever order the answers of the peer arrive, at most
    one parked method waits for the answer to a transaction. The guard
    behind it: invoked while [isSwapping] is set, [executeSwap] returns at
    once as a no-op; it completes normally, leaves the whole state as it
    found it and sends no request (in the connected state it leaves no
    trace at all). *)
Theorem executeSwap_no_concurrent_transact :
  (forall c i j t1 t2,
     reachable c ->
     pending c !! i = Some t1 -> pending c !! j = Some t2 ->
     awaits_transact t1 -> awaits_transact t2 ->
     i = j) /\
  (forall peer n st,
     Vx.isSwapping (vx st) = true ->
     completion (run peer n VorteXInterface.executeSwap st) = Normal tt /\
     final (run peer n VorteXInterface.executeSwap st) = st /\
     requests (events (run peer n VorteXInterface.executeSwap st)) = [] /\
     (Vx.isConnected (vx st) = true ->
      events (run peer n VorteXInterface.executeSwap st) = [])).
Proof.
  split; [|apply executeSwap_guard].
  intros c i j t1 t2 Hc Hi Hj H1 H2.
  assert (Hpos : forall before t after n u,
             Forall quiet_task (before ++ after) ->
             (before ++ t :: after) !! n = Some u -> awaits_transact u ->
             n = length before).
  { intros before t after n u Hall Hn Hu.
    apply Forall_app in Hall as [Hb Ha]. rewrite Forall_forall in Hb, Ha.
    destruct (Nat.lt_trichotomy n (length before)) as [Hlt|[->|Hgt]]; [|done|].
    - rewrite lookup_app_l in Hn by done.
      destruct (quiet_task_not_swap u); [|done].
      apply Hb. by eapply list_elem_of_lookup_2.
    - rewrite lookup_app_r in Hn by lia.
      destruct (n - length before)%nat as [|n'] eqn:Hn'; [lia|]. simpl in Hn.
      destruct (quiet_task_not_swap u); [|done].
      apply Ha. by eapply list_elem_of_lookup_2. }
  destruct (reachable_one_swap c Hc)
    as [[_ Hall]|(_ & before & t & after & Hsplit & _ & Hall)].
  - rewrite Forall_forall in Hall. destruct (quiet_task_not_swap t1); [|done].
    apply Hall. by eapply list_elem_of_lookup_2.
  - rewrite Hsplit in Hi, Hj.
    rewrite (Hpos _ _ _ _ _ Hall Hi H1), (Hpos _ _ _ _ _ Hall Hj H2). done.
Qed.

Lemma executeSwap_no_concurrent_transact_witness :
  (reachable loop_swap_parked /\
   (exists k, pending loop_swap_parked !! 0%nat = Some (buy_100, k)) /\
   forall j t, pending loop_swap_parked !! j = Some t ->
               awaits_transact t -> 0%nat = j) /\
  (Vx.isSwapping (vx st_in_flight) = true /\
   final (run peer_down 0%nat VorteXInterface.executeSwap st_in_flight)
   = st_in_flight).
Proof.
  assert (Hreach : reachable loop_swap_parked).
  { apply (reachable_step (mkLoop st_connected [])).
    - by apply reachable_start.
    - apply (step_listener (mkLoop st_connected [])), on_swap_click. }
  assert (Hhead : exists k,
             pending loop_swap_parked !! 0%nat = Some (buy_100, k))
    by (by eexists).
  split; [split; [done|split]|split].
  - done.
  - intros j t Hj Ht. destruct Hhead as [k Hk].
    apply (proj1 executeSwap_no_concurrent_transact loop_swap_parked
             0%nat j (buy_100, k) t Hreach Hk Hj); [|done].
    by eexists demo_client, _.
  - reflexivity.
  - exact (proj1 (proj2 (proj2 executeSwap_no_concurrent_transact peer_down
                           0%nat st_in_flight eq_refl))).
Defined.

(* ===================================================================== *)
(** * The client: query and transact in full *)
(* ===================================================================== *)

(** What the code reads in an accepted answer. *)
Lemma accepted_answer_inv o result :
  accepted_answer o result ->
  exists r errorCode,
    o = Responded r /\ ok r = true /\ body r = Some result /\
    prop result "errorCode" = Some errorCode /\ truthy errorCode = false /\
    prop result "value" = Some (opt_prop result "value").
Proof.
  intros (r & ec & Ho & Hok & Hbody & Hcode & Hfalsy).
  exists r, ec. repeat split; try done.
  unfold opt_prop. by destruct result.
Qed.

(** X1. [query] returns normally exactly when the peer's answer is an
    accepted one, and then it returns the parsed body as it is. Whatever
    the answer, it sends one request, the one for its source and its
    address (the address of the client when none is given, or
    [undefined]), and leaves the state alone. *)
Theorem query_outcome peer n st self source address :
  let o := run peer n (ConvexClient.query self source address) st in
  (forall result,
     completion o = Normal result <-> accepted_answer (peer n) result) /\
  final o = st /\
  requests (events o) =
    [query_request (heap st self) source
       (default_arg (Client.address (heap st self)) address)].
Proof.
  intros o. split; [|apply query_sends_one].
  intros result. subst o. unfold accepted_answer, ConvexClient.query.
  rewrite run_client_this.
  unfold fetch, throw, console_error, emit. split.
  - exec; unfold completion; simpl; intros H; simplify_eq; by eexists _, _.
  - intros (r & ec & Ho & Hok & Hbody & Hcode & Hfalsy).
    simpl. rewrite Ho. simpl. rewrite Hok. simpl.
    unfold json. rewrite Hbody. simpl. unfold get_prop. rewrite Hcode. simpl.
    by rewrite Hfalsy.
Qed.

(** An explicit [undefined] is an omitted address: the request carries
    the address of the client. *)
Example query_explicit_undefined :
  requests (events (run peer_five 0
                      (ConvexClient.query 0%nat "(+ 1 2)" (Some VUndefined))
                      st_connected))
  = [query_request demo_client "(+ 1 2)" (VStr "#12")].
Proof. reflexivity. Qed.



(** Names the result of the run in the goal, so that it is analysed
    once. *)
Ltac name_run :=
  match goal with
  | |- context [run ?peer ?n ?p ?s] =>
      let H := fresh "Hrun" in
      destruct (run peer n p s) as [[? ?] ?] eqn:H; revert H
  end.

(** X3. Without a session [transact] fails at once: on a client that is
    not connected with "Not connected to Convex network", on a connected
    client without an address with "No address set for transaction". In
    both cases no request is sent, nothing is logged and the state is
    untouched. *)
Theorem transact_requires_session peer n st self source :
  let c := heap st self in
  Client.isConnected c = false \/ truthy (Client.address c) = false ->
  run peer n (ConvexClient.transact self source) st =
  (Thrown (Error (if Client.isConnected c
                  then "No address set for transaction"
                  else "Not connected to Convex network")), st, []).
Proof.
  intros c Hnone. unfold ConvexClient.transact. rewrite run_client_this.
  fold c. destruct (Client.isConnected c); [|done].
  destruct Hnone as [?| ->]; done.
Qed.

Lemma transact_requires_session_witness :
  Client.isConnected (heap st_fresh 0%nat) = false /\
  run peer_five 0 (ConvexClient.transact 0%nat "(transfer #13 1000)") st_fresh
  = (Thrown (Error "Not connected to Convex network"), st_fresh, []).
Proof.
  split; [reflexivity|].
  exact (transact_requires_session peer_five 0%nat st_fresh 0%nat
           "(transfer #13 1000)" (or_introl eq_refl)).
Defined.

(** The state [transact] leaves. *)
Lemma transact_final peer n st self source :
  match run peer n (ConvexClient.transact self source) st with
  | (Normal _, s, _) =>
      s = on_client self
            (fun c => Client.set_sequence
                        (num_add (Client.sequence c) (num_of_Z 1)) c) st
  | (Thrown _, s, _) => s = st
  end.
Proof.
  name_run.
  unfold ConvexClient.transact, ConvexClient.update. rewrite run_client_this.
  unfold fetch, throw, console_log, console_error, emit, modify.
  destruct (Client.isConnected (heap st self)); simpl; [|by intros [= <- <- <-]].
  destruct (truthy (Client.address (heap st self))); simpl;
    [|by intros [= <- <- <-]].
  exec; by intros [= <- <- <-].
Qed.

(** X4. The sequence counter counts the transactions that went through:
    a call of [transact] that returns normally has added one to the
    counter of its client and changed nothing else; a call that throws
    leaves the whole state as it was. *)
Theorem transact_counts_successes peer n st self source :
  let o := run peer n (ConvexClient.transact self source) st in
  match completion o with
  | Normal _ =>
      final o =
      on_client self
        (fun c => Client.set_sequence
                    (num_add (Client.sequence c) (num_of_Z 1)) c) st
  | Thrown _ => final o = st
  end.
Proof.
  intros o. subst o. unfold completion, final.
  pose proof (transact_final peer n st self source) as Hfinal.
  by destruct (run peer n (ConvexClient.transact self source) st)
    as [[[result|e] s] evs].
Qed.

(** X5. [transact] returns normally exactly when its client is connected
    and has an address and the peer's answer is an accepted one; it then
    returns the parsed body. With a session it sends one request, the
    transaction, whatever comes back; without one it sends none. *)
Theorem transact_outcome peer n st self source :
  let c := heap st self in
  let o := run peer n (ConvexClient.transact self source) st in
  (forall result,
     completion o = Normal result <->
     Client.isConnected c = true /\ truthy (Client.address c) = true /\
     accepted_answer (peer n) result) /\
  requests (events o) =
    if Client.isConnected c && truthy (Client.address c)
    then [transact_request c source] else [].
Proof.
  intros c o. subst o. unfold completion, events, accepted_answer. name_run.
  unfold ConvexClient.transact, ConvexClient.update. rewrite run_client_this.
  fold c.
  unfold fetch, throw, console_log, console_error, emit, modify.
  destruct (Client.isConnected c); simpl;
    [|intros [= <- <- <-]; split; [|done]; intros result;
      split; [done | by intros [? _]]].
  destruct (truthy (Client.address c)); simpl;
    [|intros [= <- <- <-]; split; [|done]; intros result;
      split; [done | by intros (_ & ? & _)]].
  exec; intros [= <- <- <-]; (split; [|done]); intros result; simpl;
    (split; [intros H; simplify_eq
            |intros (_ & _ & r' & ec & ? & ? & ? & ? & ?); simplify_eq;
             try congruence]).
  all: try (split; [done|]; split; [done|]; by eexists _, _).
Qed.

(* ===================================================================== *)
(** * The client: the convenience methods *)
(* ===================================================================== *)

(** [exec], going on where a property read was left unsplit. *)
Ltac run_all :=
  exec;
  repeat (match goal with
          | |- context [match prop ?v ?k with _ => _ end] =>
              destruct (prop v k) eqn:?
          | |- context [match body ?r with _ => _ end] =>
              destruct (body r) eqn:?
          end; exec).

(** Brings an accepted answer into the form in which the code reads it. *)
Ltac accept H :=
  apply accepted_answer_inv in H;
  destruct H as (?r & ?errorCode & ?Hanswer & ?Hok & ?Hbody & ?Hcode & ?Hfalsy
                 & ?Hvalue).

(** [getBalance] returns normally, with a truthy value or with 0. *)
Lemma getBalance_returns peer n st self address :
  exists balance,
    completion (run peer n (ConvexClient.getBalance self address) st)
    = Normal balance /\
    (truthy balance = true \/ balance = VNum (num_of_Z 0)).
Proof.
  unfold completion. name_run.
  unfold ConvexClient.getBalance, ConvexClient.query.
  rewrite run_client_this.
  unfold fetch, throw, console_error, emit.
  run_all; intros H; simplify_eq; simpl; eexists; (split; [done|]); auto.
  all: unfold or_else;
    match goal with
    | |- context [if truthy ?v then _ else _] => destruct (truthy v) eqn:?
    end; auto.
Qed.

(** X6. [getBalance] never hands out a falsy balance other than the
    number 0: on an accepted answer it returns the value of the answer, or
    0 when that value is missing or falsy ([null], [false], [""], [NaN]);
    and whatever the peer does it returns normally, with a truthy value or
    with 0. *)
Theorem getBalance_value peer n st self address :
  let o := run peer n (ConvexClient.getBalance self address) st in
  (forall result,
     accepted_answer (peer n) result ->
     completion o =
     Normal (or_else (opt_prop result "value") (VNum (num_of_Z 0)))) /\
  (exists balance,
     completion o = Normal balance /\
     (truthy balance = true \/ balance = VNum (num_of_Z 0))).
Proof.
  intros o. subst o. split; [|apply getBalance_returns].
  intros result Hacc. accept Hacc. unfold completion. name_run.
  unfold ConvexClient.getBalance, ConvexClient.query.
  rewrite run_client_this.
  unfold fetch, throw, console_error, emit.
  remember (VNum (num_of_Z 0)) as zero eqn:Hzero.
  simpl. rewrite Hanswer. simpl. rewrite Hok. simpl. unfold json.
  rewrite Hbody. simpl. unfold get_prop. rewrite Hcode. simpl.
  rewrite Hfalsy. simpl. rewrite Hvalue. simpl. intros H. by simplify_eq.
Qed.


(** X8. [requestFaucetCoins] cannot fail and writes nothing: whatever the
    peer answers, it returns normally, leaves the state as it was, and has
    sent one request, to [/api/v1/faucet], for the address of the client
    and the amount "10000000". *)
Theorem requestFaucetCoins_outcome peer n st self :
  let c := heap st self in
  let o := run peer n (ConvexClient.requestFaucetCoins self) st in
  completion o = Normal tt /\
  final o = st /\
  requests (events o) =
    [ConvexClient.post (Client.peerUrl c +:+ "/api/v1/faucet")
       [("address", Client.address c); ("amount", VStr "10000000")]].
Proof.
  intros c o. subst o. unfold completion, final, events. name_run.
  unfold ConvexClient.requestFaucetCoins. rewrite run_client_this. fold c.
  unfold fetch, console_log, emit.
  run_all; intros H; by simplify_eq.
Qed.

(** X9. [getAccountInfo] never throws and writes nothing. For an address
    that is a string it sends one GET request, for the address without its
    first "#", and returns the parsed body of an answer with a 2xx status;
    on every other answer it returns [null]. For an address that is not a
    string ([null] on a client without an account) it sends nothing and
    returns [null]. *)
Theorem getAccountInfo_outcome peer n st self address :
  let c := heap st self in
  let target :=
    match address with
    | None | Some VUndefined => Client.address c
    | Some a => a
    end in
  let o := run peer n (ConvexClient.getAccountInfo self address) st in
  final o = st /\
  match target with
  | VStr a =>
      requests (events o) = [account_info_request c a] /\
      completion o =
      Normal match peer n with
             | Responded r => if ok r then default VNull (body r) else VNull
             | Rejected _ => VNull
             end
  | _ => requests (events o) = [] /\ completion o = Normal VNull
  end.
Proof.
  intros c target o. subst o. unfold completion, final, events. name_run.
  unfold ConvexClient.getAccountInfo. rewrite run_client_this.
  fold c. fold target.
  unfold fetch, throw, console_error, emit, account_info_request.
  destruct target; run_all; intros H; by simplify_eq.
Qed.

(** Updates of the client at [self] leave the rest of the state alone. *)
Lemma on_client_same_but_client self f s s' :
  same_but_client self s s' -> same_but_client self s (on_client self f s').
Proof.
  intros (Hvx & Hinputs & Hnext & Hheap). repeat split; try done.
  intros l Hl. simpl. rewrite <- (Hheap l Hl).
  by destruct (Nat.eqb_spec l self).
Qed.

Lemma same_but_client_refl self s : same_but_client self s s.
Proof. by repeat split. Qed.

Lemma on_client_self self f s : heap (on_client self f s) self = f (heap s self).
Proof. simpl. by rewrite Nat.eqb_refl. Qed.

#[local] Hint Resolve on_client_same_but_client same_but_client_refl : core.

(** X10. When the account cannot be created (the request is rejected,
    the status is not 2xx, or the body is not JSON or is [null]),
    [createDemoAccount] falls back on the demo account without failing: it
    returns normally, the client has the address "#12", the key pair
    "demo" and the sequence 0, nothing else has changed, and the only
    request sent is the one for the account. *)
Theorem createDemoAccount_fallback peer n st self :
  let c := heap st self in
  let o := run peer n (ConvexClient.createDemoAccount self) st in
  (forall accountData address,
     ~ account_created (peer n) accountData address) ->
  completion o = Normal VUndefined /\
  heap (final o) self =
    Client.set_keyPair (VStr "demo")
      (Client.set_sequence (num_of_Z 0) (Client.set_address (VStr "#12") c)) /\
  same_but_client self st (final o) /\
  requests (events o) = [create_account_request c].
Proof.
  intros c o Hnone. subst o. unfold completion, final, events. name_run.
  unfold ConvexClient.createDemoAccount, ConvexClient.requestFaucetCoins,
    ConvexClient.setAddress, ConvexClient.setKeyPair, ConvexClient.update.
  rewrite run_client_this. fold c.
  unfold fetch, console_log, emit, modify, create_account_request.
  run_all; intros H; simplify_eq;
    try (exfalso; eapply Hnone; by eexists).
  all: split; [done|]; split; [by rewrite !on_client_self|]; split; [|done].
  all: auto 6.
Qed.

Lemma createDemoAccount_fallback_witness :
  (forall accountData address,
     ~ account_created (peer_down 0%nat) accountData address) /\
  heap (final (run peer_down 0 (ConvexClient.createDemoAccount 0%nat) st_fresh))
       0%nat
  = Client.set_keyPair (VStr "demo")
      (Client.set_sequence (num_of_Z 0)
         (Client.set_address (VStr "#12") (heap st_fresh 0%nat))).
Proof.
  assert (Hdown : forall accountData address,
             ~ account_created (peer_down 0%nat) accountData address).
  { intros accountData address (r & Hr & _). discriminate Hr. }
  split; [exact Hdown|].
  exact (proj1 (proj2 (createDemoAccount_fallback peer_down 0%nat st_fresh
                         0%nat Hdown))).
Defined.

(** X11. When the peer creates the account, [createDemoAccount] returns
    the account data as received; the client has the address the answer
    names ([undefined] when it names none), the built-in key as its key
    pair and the sequence 0, nothing else has changed. Coins were
    requested for that address right after, and whatever became of that
    request did not matter. *)
Theorem createDemoAccount_created peer n st self accountData address :
  let c := heap st self in
  let o := run peer n (ConvexClient.createDemoAccount self) st in
  account_created (peer n) accountData address ->
  completion o = Normal accountData /\
  heap (final o) self =
    Client.set_keyPair (VStr ConvexClient.demo_key)
      (Client.set_sequence (num_of_Z 0) (Client.set_address address c)) /\
  same_but_client self st (final o) /\
  requests (events o) = [create_account_request c; faucet_request c address].
Proof.
  intros c o (r & Hanswer & Hok & Hbody & Haddress).
  subst o. unfold completion, final, events. name_run.
  unfold ConvexClient.createDemoAccount, ConvexClient.requestFaucetCoins,
    ConvexClient.setAddress, ConvexClient.setKeyPair, ConvexClient.update.
  rewrite run_client_this. fold c.
  unfold fetch, console_log, emit, modify, create_account_request,
    faucet_request, json, get_prop.
  simpl. rewrite Hanswer. simpl. rewrite Hok. simpl. rewrite Hbody. simpl.
  rewrite Haddress. simpl. rewrite !Nat.eqb_refl. simpl.
  run_all; intros H; simplify_eq.
  all: split; [done|]; split; [by rewrite !on_client_self|]; split; [|done].
  all: auto 6.
Qed.

Lemma createDemoAccount_created_witness :
  account_created (peer_account 0%nat) (VObj [("address", VStr "#1234")])
                  (VStr "#1234") /\
  Client.address
    (heap (final (run peer_account 0 (ConvexClient.createDemoAccount 0%nat)
                      st_fresh)) 0%nat)
  = VStr "#1234".
Proof.
  assert (Hcreated : account_created (peer_account 0%nat)
                       (VObj [("address", VStr "#1234")]) (VStr "#1234"))
    by (by eexists).
  split; [exact Hcreated|].
  rewrite (proj1 (proj2 (createDemoAccount_created peer_account 0%nat st_fresh
                           0%nat _ _ Hcreated))).
  reflexivity.
Defined.

(* ===================================================================== *)
(** * The client: opening and closing a session *)
(* ===================================================================== *)

(** X12. [initialize] succeeds exactly when the peer's answer to the test
    query [(+ 2 2 2 1)], asked for the account "#12", is accepted and its
    value is the number 7 (the string "7" will not do). On success the
    client is marked connected and nothing else changes; on failure the
    state is left as it was. *)
Theorem initialize_outcome peer n st self :
  let c := heap st self in
  let o := run peer n (ConvexClient.initialize self) st in
  (completion o = Normal true <-> peer_available (peer n)) /\
  match completion o with
  | Normal _ => final o = on_client self (Client.set_isConnected true) st
  | Thrown _ => final o = st
  end /\
  requests (events o) = [query_request c "(+ 2 2 2 1)" (VStr "#12")].
Proof.
  intros c o. subst o. unfold completion, final, events. name_run.
  unfold ConvexClient.initialize, ConvexClient.query, ConvexClient.update,
    ConvexClient.this. subst c.
  unfold fetch, throw, console_log, console_error, emit, modify,
    query_request, peer_available, accepted_answer.
  remember (num_of_Z 7) as seven eqn:Hseven.
  intros Hrun. split; [split|]; revert Hrun.
  - run_all;
      repeat match goal with
             | |- context [strict_eq_num ?v ?w] =>
                 destruct (strict_eq_num v w) eqn:?; simpl
             end;
      intros H; simplify_eq; intros H; simplify_eq.
    all: eexists; split; [by eexists _, _|].
    all: unfold opt_prop;
      repeat match goal with H : prop _ _ = _ |- _ => rewrite H end; done.
  - intros Hrun (result & (r & ec & Ho & Hok & Hbody & Hcode & Hfalsy) & Hseven').
    revert Hrun. simpl. rewrite Ho. simpl. rewrite Hok. simpl.
    unfold json. rewrite Hbody. simpl. unfold get_prop. rewrite Hcode. simpl.
    rewrite Hfalsy. simpl.
    assert (Hvalue : prop result "value" = Some (opt_prop result "value")).
    { unfold opt_prop. by destruct result. }
    rewrite Hvalue. simpl. rewrite Hseven'. simpl. intros H. by simplify_eq.
  - run_all;
      repeat match goal with
             | |- context [strict_eq_num ?v ?w] =>
                 destruct (strict_eq_num v w) eqn:?; simpl
             end;
      intros H; by simplify_eq.
Qed.

(** Runs [connect] on every answer of the peer. *)
Ltac run_connect :=
  unfold ConvexClient.connect, ConvexClient.initialize,
    ConvexClient.createDemoAccount, ConvexClient.requestFaucetCoins,
    ConvexClient.query, ConvexClient.setAddress, ConvexClient.setKeyPair,
    ConvexClient.update, ConvexClient.this;
  unfold fetch, throw, get, console_log, console_error, emit, modify;
  run_all;
  repeat match goal with
         | |- context [strict_eq_num ?v ?w] =>
             destruct (strict_eq_num v w) eqn:?; run_all
         | |- context [if ?a && ?b then _ else _] =>
             destruct a eqn:?; [destruct b eqn:?|]; run_all
         end.

(** What [connect] does, on every answer of the peer. *)
Lemma connect_run peer n st url address keyPair :
  let l := next_loc st in
  let o := run peer n (ConvexClient.connect url address keyPair) st in
  (vx (final o) = vx st /\ numberInputs (final o) = numberInputs st /\
   next_loc (final o) = S l /\
   (forall l', l' <> l -> heap (final o) l' = heap st l') /\
   Client.peerUrl (heap (final o) l) = url) /\
  ((exists client, completion o = Normal client) <-> peer_available (peer n)) /\
  (forall client,
     completion o = Normal client ->
     client = l /\
     Client.isConnected (heap (final o) l) = true /\
     Client.sequence (heap (final o) l) = num_of_Z 0 /\
     truthy (Client.keyPair (heap (final o) l)) = true) /\
  (forall e, completion o = Thrown e -> heap (final o) l = Client.new url).
Proof.
  intros l o. subst o. unfold completion, final. name_run.
  remember (num_of_Z 7) as seven eqn:Hseven.
  run_connect; intros H; simplify_eq; simpl; rewrite ?Nat.eqb_refl.
  all: split;
    [repeat split; try done;
     intros l' Hl; by destruct (Nat.eqb_spec l' (next_loc st))|].
  all: split; [|split; [intros client H; by simplify_eq
                       |intros e' H; by simplify_eq]].
  all: unfold peer_available, accepted_answer; split.
  all: try (intros [client H]; by simplify_eq).
  all: try (intros _; by eexists).
  all: try (intros (result & (r' & ec & ? & ? & ? & ? & ?) & H7);
            simplify_eq; unfold opt_prop in *;
            repeat match goal with
                   | H : prop _ _ = _ |- _ => rewrite H in H7
                   end; simplify_eq;
            first [ congruence
                  | match goal with
                    | H1 : strict_eq_num ?a _ = true,
                      H2 : strict_eq_num ?a _ = false |- _ =>
                        exfalso;
                        assert (true = false) as Hno
                          by (rewrite <- H1; exact H2);
                        discriminate Hno
                    end ]).
  all: intros _; eexists; (split; [by eexists _, _|]); unfold opt_prop;
    repeat match goal with
           | H : prop ?v ?k = _ |- context [prop ?v ?k] => rewrite H
           end;
    match goal with H : strict_eq_num _ _ = true |- _ => exact H end.
Qed.

(** X13. [connect] makes a new client for the given peer and touches
    nothing else: the controller and the clients that exist stay as they
    were. It returns normally exactly when the peer passes the test of
    [initialize]; the client it returns is the new one, it is connected,
    its sequence is 0 and it has a key pair (the one given together with
    an address, or the built-in key, or "demo"). When [connect] fails the
    new client is as the constructor made it. *)
Theorem connect_outcome peer n st url address keyPair :
  let l := next_loc st in
  let o := run peer n (ConvexClient.connect url address keyPair) st in
  (vx (final o) = vx st /\ numberInputs (final o) = numberInputs st /\
   next_loc (final o) = S l /\
   (forall l', l' <> l -> heap (final o) l' = heap st l') /\
   Client.peerUrl (heap (final o) l) = url) /\
  ((exists client, completion o = Normal client) <-> peer_available (peer n)) /\
  (forall client,
     completion o = Normal client ->
     client = l /\
     Client.isConnected (heap (final o) l) = true /\
     Client.sequence (heap (final o) l) = num_of_Z 0 /\
     truthy (Client.keyPair (heap (final o) l)) = true) /\
  (forall e, completion o = Thrown e -> heap (final o) l = Client.new url).
Proof. apply connect_run. Qed.

(** X14. [close] ends the session for good: the client is no longer
    connected, has no address and no key pair, and its sequence is 0 (the
    peer and the timeout stay); nothing else changes and no request is
    sent. Every [transact] on the closed client fails with "Not connected
    to Convex network" before anything is sent. *)
Theorem close_ends_session peer n st self :
  let c := heap st self in
  let o := run peer n (ConvexClient.close self) st in
  completion o = Normal tt /\
  heap (final o) self =
    Client.mk (Client.peerUrl c) VNull VNull (num_of_Z 0) false
              (Client.timeout c) /\
  same_but_client self st (final o) /\
  requests (events o) = [] /\
  forall peer' n' source,
    run peer' n' (ConvexClient.transact self source) (final o) =
    (Thrown (Error "Not connected to Convex network"), final o, []).
Proof.
  intros c o. subst o c.
  unfold ConvexClient.close, ConvexClient.update, console_log, emit, modify.
  unfold completion, final, events. simpl.
  split; [done|]. split; [by rewrite Nat.eqb_refl|]. split; [auto 6|].
  split; [done|]. intros peer' n' source.
  unfold ConvexClient.transact, ConvexClient.this. simpl.
  by rewrite Nat.eqb_refl.
Qed.

(* ===================================================================== *)
(** * The interface: balances *)
(* ===================================================================== *)

(** [getTokenBalance] returns normally, with a truthy value or with 0. *)
Lemma getTokenBalance_returns peer n st sym :
  exists balance,
    completion (run peer n (VorteXInterface.getTokenBalance sym) st)
    = Normal balance /\
    (truthy balance = true \/ balance = VNum (num_of_Z 0)).
Proof.
  unfold VorteXInterface.getTokenBalance. rewrite run_this.
  destruct (Vx.convexClient (vx st)) as [client|]; [|by eexists; auto].
  rewrite run_try_catch. cbv zeta.
  destruct (negb (truthy _) || String.eqb sym "CVX" || String.eqb sym "CVM").
  - destruct (getBalance_returns peer n st client None)
      as (balance & Hbalance & Hvalue).
    unfold completion in *.
    destruct (run peer n (ConvexClient.getBalance client None) st)
      as [[r s1] evs1].
    simpl in Hbalance. subst r. by exists balance.
  - unfold completion. name_run. unfold ConvexClient.query.
    rewrite run_client_this.
    unfold ConvexClient.this, fetch, throw, console_error, emit.
    run_all; intros H; simplify_eq; simpl; eexists; (split; [done|]); auto.
    all: unfold or_else;
      match goal with
      | |- context [if truthy ?v then _ else _] => destruct (truthy v) eqn:?
      end; auto.
Qed.

(** X15. [getTokenBalance] cannot fail and writes nothing: it returns
    normally, with a truthy value or with the number 0, and leaves the
    state as it was. Without a client it returns 0 at once, with no
    request and no trace. *)
Theorem getTokenBalance_value peer n st sym :
  let o := run peer n (VorteXInterface.getTokenBalance sym) st in
  (exists balance,
     completion o = Normal balance /\
     (truthy balance = true \/ balance = VNum (num_of_Z 0))) /\
  final o = st /\
  (Vx.convexClient (vx st) = None ->
   o = (Normal (VNum (num_of_Z 0)), st, [])).
Proof.
  intros o. subst o.
  split; [apply getTokenBalance_returns|].
  split; [apply read_only_run, getTokenBalance_read_only|].
  intros Hnone. unfold VorteXInterface.getTokenBalance.
  by rewrite run_this, Hnone.
Qed.

(** What one balance lookup amounts to within a larger run. *)
Lemma getTokenBalance_run peer n st sym :
  exists balance evs,
    run peer n (VorteXInterface.getTokenBalance sym) st
    = (Normal balance, st, evs) /\
    requests evs =
      match Vx.convexClient (vx st) with
      | Some client => [balance_request st client sym]
      | None => []
      end.
Proof.
  destruct (getTokenBalance_returns peer n st sym) as (balance & Hb & _).
  pose proof (read_only_run _ peer n st (getTokenBalance_read_only sym)) as Hs.
  pose proof (getTokenBalance_requests peer n st sym) as Hr.
  unfold completion, final, events in *.
  destruct (run peer n (VorteXInterface.getTokenBalance sym) st)
    as [[r s1] evs]. simpl in *. subst r s1.
  exists balance, evs. split; [done|]. rewrite Hr. unfold balance_request.
  destruct (Vx.convexClient (vx st)); [|done]. cbv zeta.
  by destruct (negb _ || _).
Qed.

(** What [updateBalances] does, on every answer of the peer. *)
Lemma updateBalances_facts peer n st :
  let v := vx st in
  let o := run peer n VorteXInterface.updateBalances st in
  completion o = Normal tt /\
  final o = st /\
  match Vx.convexClient v with
  | Some client =>
      if Vx.isConnected v
      then requests (events o) =
             [balance_request st client (Vx.fromToken v);
              balance_request st client (Vx.toToken v)]
      else events o = []
  | None => events o = []
  end.
Proof.
  intros v o. subst o v. unfold completion, final, events.
  unfold VorteXInterface.updateBalances. rewrite run_this.
  destruct (Vx.isConnected (vx st)), (Vx.convexClient (vx st)) as [client|] eqn:Hc;
    simpl negb; simpl orb; cbv iota; try done;
    try (rewrite bool_decide_eq_true_2 by eauto; simpl);
    try (rewrite bool_decide_eq_false_2 by (by intros [? ?]); by simpl).
  rewrite run_try_catch, run_mbind.
  destruct (getTokenBalance_run peer n st (Vx.fromToken (vx st)))
    as (b1 & evs1 & -> & Hr1).
  rewrite run_this, run_mbind.
  destruct (getTokenBalance_run peer (n + length (requests evs1)) st
              (Vx.toToken (vx st))) as (b2 & evs2 & -> & Hr2).
  simpl. rewrite Hc in Hr1, Hr2.
  rewrite ?app_nil_r, !requests_app, Hr1, Hr2. done.
Qed.


(* ===================================================================== *)
(** * The interface: a swap goes through or leaves no trace *)
(* ===================================================================== *)

#[local] Opaque ConvexClient.transact VorteXInterface.updateBalances.

(** The state the [try] block of [executeSwap] leaves: at its end, that of
    a completed swap, with the flag still set; at an error, the state it
    found but for the flag. *)
Lemma executeSwap_try_state peer n st :
  match run peer n VorteXInterface.executeSwap_try st with
  | (Normal _, s, evs) =>
      In swap_completed evs /\
      exists client,
        Vx.convexClient (vx st) = Some client /\
        s = on_vx (Vx.set_toAmount (num_of_Z 0))
              (on_vx (Vx.set_fromAmount (num_of_Z 0))
                 (on_inputs (map (fun _ => ""))
                    (on_client client
                       (fun c => Client.set_sequence
                                   (num_add (Client.sequence c) (num_of_Z 1)) c)
                       (on_vx (Vx.set_isSwapping true) st))))
  | (Thrown _, s, evs) =>
      ~ In swap_completed evs /\ s = on_vx (Vx.set_isSwapping true) st
  end.
Proof.
  pose proof (executeSwap_try_outcomes peer n st) as Hevs.
  revert Hevs.
  unfold VorteXInterface.executeSwap_try, VorteXInterface.update,
    VorteXInterface.showLoading, VorteXInterface.hideLoading,
    VorteXInterface.showNotification, VorteXInterface.updateConnectionStatus,
    VorteXInterface.this, VorteXInterface.client_of,
    ConvexClient.buyTokens, ConvexClient.sellTokens,
    modify, emit, get, spawn, console_log.
  remember (num_of_Z 0) as zero eqn:Hzero.
  remember (num_of_Z 1) as one eqn:Hone.
  simpl.
  assert (Hthrown : forall evs, Forall not_a_call evs -> ~ In swap_completed evs).
  { intros evs Hall. by apply no_call_in in Hall as [_ ?]. }
  destruct (head (numberInputs st)) as [value|]; simpl; [|by (intros Hall; split; [exact (Hthrown _ Hall) | done])].
  destruct (negb (num_truthy (parseFloat value)) || num_leb (parseFloat value) zero);
    simpl; [by (intros Hall; split; [exact (Hthrown _ Hall) | done])|].
  destruct (VorteXInterface.is_native (Vx.fromToken (vx st))),
           (VorteXInterface.is_native (Vx.toToken (vx st))); simpl;
    try (by (intros Hall; split; [exact (Hthrown _ Hall) | done])).
  all: destruct (Vx.convexClient (vx st)) as [client|]; simpl; [|by (intros Hall; split; [exact (Hthrown _ Hall) | done])].
  all: rewrite run_mbind.
  all: match goal with
       | |- context [run ?p ?m (ConvexClient.transact ?self ?source) ?s] =>
           pose proof (transact_final p m s self source) as Hfinal;
           destruct (run p m (ConvexClient.transact self source) s)
             as [[[result|e] s1] evs1]; simpl
       end.
  all: try (by (intros Hall; split; [exact (Hthrown _ Hall) | done])).
  all: match goal with
       | |- context [run ?p ?m VorteXInterface.updateBalances ?s] =>
           pose proof (read_only_run VorteXInterface.updateBalances p m s
                         updateBalances_read_only) as Hro;
           unfold final in Hro;
           destruct (run p m VorteXInterface.updateBalances s)
             as [[r2 s2] evs2]; simpl in Hro; simpl
       end.
  all: intros [Hdone _]; split; [done|]; exists client; split; [done|].
  all: by subst s2 s1 one.
Qed.

#[local] Transparent ConvexClient.transact VorteXInterface.updateBalances.

(** X17. A swap goes through or leaves no trace in the state. Every run
    of [executeSwap] that begins (connected, no swap in flight) ends in
    one of two ways. Either the swap is announced as completed: then every
    number input is empty, both amounts are 0, the sequence of the client
    has gone up by one, and nothing else has changed. Or it is not: then
    the state is exactly what it was before the click, the in-flight flag
    included. *)
Theorem executeSwap_all_or_nothing peer n st :
  Vx.isConnected (vx st) = true ->
  Vx.isSwapping (vx st) = false ->
  let o := run peer n VorteXInterface.executeSwap st in
  (In swap_completed (events o) /\
   exists client,
     Vx.convexClient (vx st) = Some client /\
     final o =
       on_vx (Vx.set_toAmount (num_of_Z 0))
         (on_vx (Vx.set_fromAmount (num_of_Z 0))
            (on_inputs (map (fun _ => ""))
               (on_client client
                  (fun c => Client.set_sequence
                              (num_add (Client.sequence c) (num_of_Z 1)) c)
                  st))))
  \/
  (~ In swap_completed (events o) /\ final o = st).
Proof.
  intros Hconnected Hidle o. subst o.
  unfold VorteXInterface.executeSwap.
  rewrite run_this, Hconnected, Hidle. simpl negb. cbv iota.
  rewrite run_try_finally, run_try_catch.
  pose proof (executeSwap_try_state peer n st) as Htry.
  destruct (run peer n VorteXInterface.executeSwap_try st)
    as [[[[]|error] s1] evs1].
  - left. destruct Htry as (Hdone & client & Hclient & ->).
    unfold events, final. simpl. rewrite app_nil_r. split; [done|].
    exists client. split; [done|].
    destruct st as [[]]. simpl in *. by subst.
  - right. destruct Htry as [Hnot ->].
    rewrite executeSwap_catch_run. unfold events, final. simpl.
    rewrite app_nil_r. split; [|by apply isSwapping_reset].
    rewrite in_app_iff. intros [Hin|Hin]; [done|].
    unfold swap_completed in Hin. simpl in Hin.
    repeat (destruct Hin as [Hin|Hin]; [discriminate Hin|]). done.
Qed.

Lemma executeSwap_all_or_nothing_witness :
  (Vx.isConnected (vx st_connected) = true /\
   Vx.isSwapping (vx st_connected) = false) /\
  final (run peer_funds 0 VorteXInterface.executeSwap st_connected)
  = st_connected.
Proof.
  split; [by split|].
  destruct (executeSwap_all_or_nothing peer_funds 0%nat st_connected
              eq_refl eq_refl) as [[Hdone _]|[_ Hsame]]; [|exact Hsame].
  exfalso. revert Hdone. vm_compute. intros H.
  repeat (destruct H as [H|H]; [discriminate H|]). done.
Defined.

(** With a session [transact] sends its one request, whatever comes
    back. *)
Lemma transact_sends peer n st self source :
  Client.isConnected (heap st self) = true ->
  truthy (Client.address (heap st self)) = true ->
  requests (events (run peer n (ConvexClient.transact self source) st))
  = [transact_request (heap st self) source].
Proof.
  intros Hconnected Haddress. unfold events. name_run.
  unfold ConvexClient.transact, ConvexClient.update. rewrite run_client_this.
  rewrite Hconnected, Haddress.
  unfold fetch, throw, console_log, console_error, emit, modify.
  run_all; intros H; by simplify_eq.
Qed.

#[local] Opaque ConvexClient.transact VorteXInterface.updateBalances.

(** The first request of a swap that is a buy or a sell, on a page where
    a swap can begin and the client has a session. *)
Lemma executeSwap_first_request peer n st value client :
  Vx.isConnected (vx st) = true ->
  Vx.isSwapping (vx st) = false ->
  head (numberInputs st) = Some value ->
  num_truthy (parseFloat value) = true ->
  num_leb (parseFloat value) (num_of_Z 0) = false ->
  VorteXInterface.is_native (Vx.fromToken (vx st))
  <> VorteXInterface.is_native (Vx.toToken (vx st)) ->
  Vx.convexClient (vx st) = Some client ->
  Client.isConnected (heap st client) = true ->
  truthy (Client.address (heap st client)) = true ->
  let verb :=
    if VorteXInterface.is_native (Vx.fromToken (vx st))
    then "buy-tokens" else "sell-tokens" in
  let token :=
    if VorteXInterface.is_native (Vx.fromToken (vx st))
    then Vx.toToken (vx st) else Vx.fromToken (vx st) in
  exists rest,
    requests (events (run peer n VorteXInterface.executeSwap st)) =
    transact_request (heap st client)
      ("(do (import exchange.torus :as torus) (torus/" +:+ verb +:+ " " +:+
       to_string (VorteXInterface.token_address (vx st) token) +:+ " " +:+
       num_to_string (parseFloat value) +:+ "))") :: rest.
Proof.
  intros Hconnected Hidle Hinput Htruthy Hpos Hpair Hclient Hsession Haddress
    verb token.
  unfold VorteXInterface.executeSwap.
  rewrite run_this, Hconnected, Hidle. simpl negb. cbv iota.
  rewrite run_try_finally, run_try_catch.
  assert (Htry : exists r s1 evs1 rest,
    run peer n VorteXInterface.executeSwap_try st = (r, s1, evs1) /\
    requests evs1 =
    transact_request (heap st client)
      ("(do (import exchange.torus :as torus) (torus/" +:+ verb +:+ " " +:+
       to_string (VorteXInterface.token_address (vx st) token) +:+ " " +:+
       num_to_string (parseFloat value) +:+ "))") :: rest).
  { unfold VorteXInterface.executeSwap_try, VorteXInterface.update,
      VorteXInterface.showLoading, VorteXInterface.hideLoading,
      VorteXInterface.showNotification, VorteXInterface.updateConnectionStatus,
      VorteXInterface.this, VorteXInterface.client_of,
      ConvexClient.buyTokens, ConvexClient.sellTokens,
      modify, emit, get, spawn, console_log.
    remember (num_of_Z 0) as zero eqn:Hzero.
    simpl. rewrite Hinput. simpl. rewrite Htruthy, Hpos. simpl.
    subst verb token.
    destruct (VorteXInterface.is_native (Vx.fromToken (vx st))),
             (VorteXInterface.is_native (Vx.toToken (vx st))); try done; simpl.
    all: rewrite Hclient; simpl; rewrite run_mbind.
    all: match goal with
         | |- context [run ?p ?m (ConvexClient.transact ?self ?source) ?s] =>
             pose proof (transact_sends p m s self source Hsession Haddress)
               as Hsent;
             unfold events in Hsent;
             destruct (run p m (ConvexClient.transact self source) s)
               as [[[result|e] s1] evs1]; simpl in Hsent; simpl
         end.
    all: try (by eexists _, _, _, []).
    all: match goal with
         | |- context [run ?p ?m VorteXInterface.updateBalances ?s] =>
             destruct (run p m VorteXInterface.updateBalances s)
               as [[r2 s2] evs2]
         end.
    all: eexists _, _, _, _; split; [done|]; simpl.
    all: rewrite !requests_app, Hsent; simpl; done. }
  destruct Htry as (r & s1 & evs1 & rest & -> & Hreq).
  destruct r as [[]|error].
  - simpl. exists rest. unfold events. simpl. by rewrite app_nil_r.
  - rewrite executeSwap_catch_run. simpl. exists rest. unfold events. simpl.
    rewrite app_nil_r, requests_app. simpl. rewrite Hreq. by rewrite app_nil_r.
Qed.

#[local] Transparent ConvexClient.transact VorteXInterface.updateBalances.

(** X18. What a swap asks of the peer. On a page where a swap can begin,
    with a positive amount entered and a client that has a session, a swap
    from a native symbol to another one is a buy and a swap from another
    symbol to a native one is a sell: the first request of [executeSwap] is
    the transaction [(torus/buy-tokens <address> <amount>)] (or
    [sell-tokens]), where the address is what the registry holds for the
    symbol that is not native and the amount is [parseFloat] of the input
    as JavaScript prints it. With the registry the constructor installs
    that address is [null] for every symbol of the registry, so the
    transaction names no token. *)
Theorem executeSwap_request peer n st value client :
  Vx.isConnected (vx st) = true ->
  Vx.isSwapping (vx st) = false ->
  head (numberInputs st) = Some value ->
  num_truthy (parseFloat value) = true ->
  num_leb (parseFloat value) (num_of_Z 0) = false ->
  VorteXInterface.is_native (Vx.fromToken (vx st))
  <> VorteXInterface.is_native (Vx.toToken (vx st)) ->
  Vx.convexClient (vx st) = Some client ->
  Client.isConnected (heap st client) = true ->
  truthy (Client.address (heap st client)) = true ->
  let verb :=
    if VorteXInterface.is_native (Vx.fromToken (vx st))
    then "buy-tokens" else "sell-tokens" in
  let token :=
    if VorteXInterface.is_native (Vx.fromToken (vx st))
    then Vx.toToken (vx st) else Vx.fromToken (vx st) in
  let tokenAddress := VorteXInterface.token_address (vx st) token in
  (exists rest,
     requests (events (run peer n VorteXInterface.executeSwap st)) =
     transact_request (heap st client)
       ("(do (import exchange.torus :as torus) (torus/" +:+ verb +:+ " " +:+
        to_string tokenAddress +:+ " " +:+
        num_to_string (parseFloat value) +:+ "))") :: rest) /\
  (Vx.tokens (vx st) = Vx.default_tokens ->
   is_Some (Vx.default_tokens !! token) ->
   tokenAddress = VNull).
Proof.
  intros Hconnected Hidle Hinput Htruthy Hpos Hpair Hclient Hsession Haddress
    verb token tokenAddress.
  split; [by eapply executeSwap_first_request|].
  intros Hregistry Hkey. subst tokenAddress.
  unfold VorteXInterface.token_address. rewrite Hregistry.
  destruct (default_tokens_have_no_address token) as [Hnone | ->]; [|done].
  rewrite Hnone in Hkey. by destruct Hkey.
Qed.

Lemma executeSwap_request_witness :
  (Vx.isConnected (vx st_connected) = true /\
   Vx.isSwapping (vx st_connected) = false /\
   head (numberInputs st_connected) = Some "100" /\
   num_truthy (parseFloat "100") = true /\
   num_leb (parseFloat "100") (num_of_Z 0) = false /\
   VorteXInterface.is_native (Vx.fromToken (vx st_connected))
   <> VorteXInterface.is_native (Vx.toToken (vx st_connected)) /\
   Vx.convexClient (vx st_connected) = Some 0%nat /\
   Client.isConnected (heap st_connected 0%nat) = true /\
   truthy (Client.address (heap st_connected 0%nat)) = true) /\
  exists rest,
    requests (events (run peer_funds 0 VorteXInterface.executeSwap st_connected))
    = buy_100 :: rest.
Proof.
  split; [by repeat split|].
  exact (proj1 (executeSwap_request peer_funds 0%nat st_connected "100" 0%nat
                  eq_refl eq_refl eq_refl eq_refl eq_refl ltac:(done)
                  eq_refl eq_refl eq_refl)).
Defined.

(* ===================================================================== *)
(** * The event loop: the flag and the registry *)
(* ===================================================================== *)

(** X19. The in-flight flag tells the truth: in every configuration the
    page can reach, [isSwapping] is set exactly when a parked method waits
    for the answer to a transaction. The flag is never left set with
    nothing in flight, and no transaction is in flight with the flag
    clear. *)
Theorem isSwapping_iff_transaction_in_flight c :
  reachable c ->
  Vx.isSwapping (vx (state c)) = true <->
  exists i t, pending c !! i = Some t /\ awaits_transact t.
Proof.
  intros Hc.
  destruct (reachable_one_swap c Hc)
    as [[Hidle Hall]|(Hbusy & before & t & after & Hsplit & [Ht _] & Hall)].
  - split; [congruence|]. intros (i & t & Hi & Ht).
    rewrite Forall_forall in Hall. destruct (quiet_task_not_swap t); [|done].
    apply Hall. by eapply list_elem_of_lookup_2.
  - split; [|done]. intros _. exists (length before), t. split; [|done].
    rewrite Hsplit. by apply list_lookup_middle.
Qed.

Lemma isSwapping_iff_transaction_in_flight_witness :
  reachable loop_swap_parked /\
  Vx.isSwapping (vx (state loop_swap_parked)) = true /\
  exists i t, pending loop_swap_parked !! i = Some t /\ awaits_transact t.
Proof.
  assert (Hreach : reachable loop_swap_parked).
  { apply (reachable_step (mkLoop st_connected [])).
    - by apply reachable_start.
    - apply (step_listener (mkLoop st_connected [])), on_swap_click. }
  split; [done|]. split; [reflexivity|].
  by apply (isSwapping_iff_transaction_in_flight loop_swap_parked Hreach).
Defined.

(** ** The registry *)

Lemma on_vx_keeps_registry f :
  (forall v, Vx.tokens (f v) = Vx.tokens v) -> keeps_registry (on_vx f).
Proof. intros Hf s. apply Hf. Qed.

Lemma on_client_keeps_registry self f : keeps_registry (on_client self f).
Proof. by intros s. Qed.

Lemma on_inputs_keeps_registry f : keeps_registry (on_inputs f).
Proof. by intros s. Qed.

Lemma alloc_keeps_registry c : keeps_registry (alloc c).
Proof. by intros s. Qed.

(** Walks through a listener, with nothing asked of its events. *)
Local Ltac registry :=
  repeat first
    [ progress intros
    | exact I
    | apply on_client_keeps_registry
    | apply on_inputs_keeps_registry
    | apply alloc_keeps_registry
    | apply on_vx_keeps_registry; intros ?; reflexivity
    | match goal with
      | |- Within _ _ (match ?x with _ => _ end) => destruct x
      | |- Within _ _ (_ ≫= _) => apply within_mbind
      | |- Within _ _ (bind _ _) => apply within_bind
      | |- Within _ _ (prog_bind _ _ _ _) => apply within_bind
      | |- Within _ _ (try_catch _ _) => apply within_try_catch
      | |- Within _ _ (try_finally _ _) => apply within_try_finally
      | |- Within _ _ _ => constructor
      end ].

(** No listener writes the registry, nor does any method it starts. *)
Lemma listener_keeps_registry p :
  Listener p -> Within keeps_registry (fun _ => True) p.
Proof.
  intros [].
  all: unfold VorteXInterface.toggleConnection, VorteXInterface.connectWallet,
    VorteXInterface.executeSwap, VorteXInterface.executeSwap_try,
    VorteXInterface.executeSwap_catch, VorteXInterface.swapTokenPositions,
    VorteXInterface.onInput, VorteXInterface.onFromAmountChange,
    VorteXInterface.showTokenSelector, VorteXInterface.onTimer,
    VorteXInterface.updateBalances, VorteXInterface.getTokenBalance,
    VorteXInterface.updateTokenDisplays, VorteXInterface.client_of,
    VorteXInterface.showLoading, VorteXInterface.hideLoading,
    VorteXInterface.showNotification, VorteXInterface.updateConnectionStatus,
    VorteXInterface.update, VorteXInterface.this,
    ConvexClient.connect, ConvexClient.initialize,
    ConvexClient.createDemoAccount, ConvexClient.requestFaucetCoins,
    ConvexClient.close, ConvexClient.buyTokens, ConvexClient.sellTokens,
    ConvexClient.transact, ConvexClient.getBalance, ConvexClient.query,
    ConvexClient.setAddress, ConvexClient.setKeyPair, ConvexClient.update,
    ConvexClient.this, fetch, json, get_prop, console_log, console_error,
    throw, get, modify, emit, spawn.
  all: registry.
Qed.

Lemma launch_keeps_registry (p : Prog unit) s tasks :
  Within keeps_registry (fun _ => True) p ->
  Forall (task_within keeps_registry (fun _ => True)) tasks ->
  Vx.tokens (vx (state (launch p s tasks))) = Vx.tokens (vx s) /\
  Forall (task_within keeps_registry (fun _ => True))
         (pending (launch p s tasks)).
Proof.
  intros Hp Htasks. unfold launch.
  pose proof (within_advance keeps_registry (fun _ => True)
                (fun a b => Vx.tokens (vx b) = Vx.tokens (vx a)) p) as Hadv.
  specialize (Hadv ltac:(done) ltac:(intros; congruence)
                ltac:(intros f ? Hf; apply Hf) Hp s).
  destruct (advance p s) as [[[st s'] spawned] evs].
  destruct Hadv as (Hsame & _ & Hspawned & Hst). simpl.
  split; [done|]. rewrite !Forall_app. split; [done|]. split; [done|].
  destruct st as [r|req k]; [constructor|].
  constructor; [done|constructor].
Qed.

Lemma step_keeps_registry c c' :
  step c c' ->
  Forall (task_within keeps_registry (fun _ => True)) (pending c) ->
  Vx.tokens (vx (state c')) = Vx.tokens (vx (state c)) /\
  Forall (task_within keeps_registry (fun _ => True)) (pending c').
Proof.
  intros [c0 p Hp|c0 before req k after o Hpending] Htasks.
  - apply launch_keeps_registry; [by apply listener_keeps_registry | done].
  - rewrite Hpending in Htasks. apply Forall_app in Htasks as [Hb Ha].
    apply Forall_cons in Ha as [[_ Hk] Ha].
    apply launch_keeps_registry; [apply Hk | by apply Forall_app].
Qed.

(** X20. Nothing ever writes the token registry. From a page with nothing
    parked, whatever the user does and whatever the peer answers, the
    registry is in every configuration what it was at the start: the
    addresses the constructor leaves at [null] stay [null]. *)
Theorem registry_never_changes s c :
  reaches (mkLoop s []) c ->
  Vx.tokens (vx (state c)) = Vx.tokens (vx s).
Proof.
  intros Hc.
  cut (Vx.tokens (vx (state c)) = Vx.tokens (vx s) /\
       Forall (task_within keeps_registry (fun _ => True)) (pending c));
    [by intros [? _]|].
  revert c Hc. unfold reaches. apply rtc_ind_r; [by split|].
  intros c c' _ Hstep [Hsame Htasks].
  destruct (step_keeps_registry c c' Hstep Htasks) as [Hstay Htasks'].
  split; [congruence | done].
Qed.

Lemma registry_never_changes_witness :
  reaches (mkLoop st_connected []) loop_swap_parked /\
  Vx.tokens (vx (state loop_swap_parked)) = Vx.default_tokens.
Proof.
  assert (Hreach : reaches (mkLoop st_connected []) loop_swap_parked).
  { apply rtc_once.
    apply (step_listener (mkLoop st_connected [])), on_swap_click. }
  split; [exact Hreach|].
  exact (registry_never_changes st_connected loop_swap_parked Hreach).
Defined.

(* ===================================================================== *)
(** * The interface: connecting and disconnecting *)
(* ===================================================================== *)

#[local] Opaque ConvexClient.connect VorteXInterface.updateBalances.

(** The run of [connectWallet], in terms of that of [connect]. *)
Lemma connectWallet_run peer n st :
  exists evs,
    run peer n VorteXInterface.connectWallet st =
    match run peer n (ConvexClient.connect "http://peer.convex.live:8080"
                        VNull VNull) st with
    | (Normal client, s1, _) =>
        (Normal tt,
         on_vx (Vx.set_isConnected true)
           (on_vx (Vx.set_convexClient (Some client)) s1), evs)
    | (Thrown e, s1, _) => (Normal tt, s1, evs)
    end /\
    match run peer n (ConvexClient.connect "http://peer.convex.live:8080"
                        VNull VNull) st with
    | (Normal _, _, _) =>
        In (EvUi (Alert "✅ Connected to Convex network!")) evs
    | (Thrown _, _, _) =>
        In (EvUi (Alert "❌ Failed to connect to Convex network. Please try again."))
           evs
    end.
Proof.
  unfold VorteXInterface.connectWallet, VorteXInterface.showLoading,
    VorteXInterface.hideLoading, VorteXInterface.showNotification,
    VorteXInterface.updateConnectionStatus, VorteXInterface.update,
    VorteXInterface.this, console_log, console_error, emit, modify, spawn.
  rewrite run_try_catch. simpl. rewrite run_mbind.
  destruct (run peer n (ConvexClient.connect _ _ _) st)
    as [[[client|e] s1] evs1]; simpl.
  - match goal with
    | |- context [run ?p ?m VorteXInterface.updateBalances ?s] =>
        pose proof (read_only_run VorteXInterface.updateBalances p m s
                      updateBalances_read_only) as Hro;
        unfold final in Hro;
        destruct (run p m VorteXInterface.updateBalances s)
          as [[r2 s2] evs2]; simpl in Hro; simpl
    end.
    subst s2. eexists. split; [done|].
    right. apply in_or_app. right. simpl. right. right. apply in_or_app.
    right. simpl. tauto.
  - eexists. split; [done|]. right. apply in_or_app. right. simpl. tauto.
Qed.

#[local] Transparent ConvexClient.connect VorteXInterface.updateBalances.

(** What [connectWallet] does, on every answer of the peer. *)
Lemma connectWallet_outcome_facts peer n st :
  let l := next_loc st in
  let o := run peer n VorteXInterface.connectWallet st in
  completion o = Normal tt /\
  numberInputs (final o) = numberInputs st /\
  (forall l', l' <> l -> heap (final o) l' = heap st l') /\
  (peer_available (peer n) ->
   vx (final o) =
     Vx.set_isConnected true (Vx.set_convexClient (Some l) (vx st)) /\
   Client.isConnected (heap (final o) l) = true /\
   In (EvUi (Alert "✅ Connected to Convex network!")) (events o)) /\
  (~ peer_available (peer n) ->
   vx (final o) = vx st /\
   In (EvUi (Alert "❌ Failed to connect to Convex network. Please try again."))
      (events o)).
Proof.
  intros l o. subst o.
  destruct (connectWallet_run peer n st) as (evs & -> & Hevs).
  pose proof (connect_run peer n st "http://peer.convex.live:8080" VNull VNull)
    as ((Hvx & Hinputs & _ & Hheap & _) & Havailable & Hclient & _).
  fold l in Hheap, Hclient.
  unfold completion, final, events in *.
  destruct (run peer n (ConvexClient.connect _ _ _) st)
    as [[[client|e] s1] evs1]; simpl in *.
  - destruct (Hclient client eq_refl) as (-> & Hconnected & _).
    split; [done|]. split; [done|]. split; [done|]. split.
    + intros _. by rewrite Hvx.
    + intros Hnot. destruct Hnot. apply Havailable. by eexists.
  - split; [done|]. split; [done|]. split; [done|]. split.
    + intros Hyes. apply Havailable in Hyes as [client Hyes]. discriminate Hyes.
    + done.
Qed.

(** X21. [connectWallet] never throws, and the page is connected
    afterwards exactly when the peer passed the test of [initialize]. If it
    did, the controller holds the client just made, which is connected,
    [isConnected] is set and the user is told so. If it did not, the
    controller is as it was, still without a client, and the user is told
    that the connection failed. Either way the inputs and the clients that
    existed are untouched. *)
Theorem connectWallet_outcome peer n st :
  let l := next_loc st in
  let o := run peer n VorteXInterface.connectWallet st in
  completion o = Normal tt /\
  numberInputs (final o) = numberInputs st /\
  (forall l', l' <> l -> heap (final o) l' = heap st l') /\
  (peer_available (peer n) ->
   vx (final o) =
     Vx.set_isConnected true (Vx.set_convexClient (Some l) (vx st)) /\
   Client.isConnected (heap (final o) l) = true /\
   In (EvUi (Alert "✅ Connected to Convex network!")) (events o)) /\
  (~ peer_available (peer n) ->
   vx (final o) = vx st /\
   In (EvUi (Alert "❌ Failed to connect to Convex network. Please try again."))
      (events o)).
Proof. apply connectWallet_outcome_facts. Qed.

(** X22. Connecting and then disconnecting is a round trip for the
    controller. From a disconnected page without a client, with a peer that
    passes the test, the first click on the connect button connects; the
    second one returns the controller to exactly what it was, without
    sending anything, and leaves the client made in between closed (not
    connected, no address, no key pair). The inputs are untouched
    throughout. *)
Theorem connect_then_disconnect peer n peer' n' st :
  Vx.isConnected (vx st) = false ->
  Vx.convexClient (vx st) = None ->
  peer_available (peer n) ->
  let s1 := final (run peer n VorteXInterface.toggleConnection st) in
  let o2 := run peer' n' VorteXInterface.toggleConnection s1 in
  Vx.isConnected (vx s1) = true /\
  completion o2 = Normal tt /\
  vx (final o2) = vx st /\
  numberInputs (final o2) = numberInputs st /\
  requests (events o2) = [] /\
  let closed := heap (final o2) (next_loc st) in
  Client.isConnected closed = false /\
  Client.address closed = VNull /\ Client.keyPair closed = VNull.
Proof.
  intros Hdisconnected Hnone Havailable s1 o2.
  assert (Hs1 : vx s1 = Vx.set_isConnected true
                          (Vx.set_convexClient (Some (next_loc st)) (vx st))
                /\ numberInputs s1 = numberInputs st).
  { subst s1. unfold VorteXInterface.toggleConnection.
    rewrite run_this, Hdisconnected.
    destruct (connectWallet_outcome_facts peer n st)
      as (_ & Hinputs & _ & Hyes & _).
    by destruct (Hyes Havailable) as (-> & _). }
  destruct Hs1 as [Hvx1 Hinputs1]. clearbody s1.
  split; [by rewrite Hvx1|].
  subst o2. unfold VorteXInterface.toggleConnection.
  rewrite run_this, Hvx1. simpl Vx.isConnected. cbv iota.
  unfold VorteXInterface.client_of, ConvexClient.close, ConvexClient.update,
    VorteXInterface.update, VorteXInterface.updateConnectionStatus,
    VorteXInterface.showNotification, console_log, emit, modify.
  unfold completion, final, events. simpl.
  rewrite Nat.eqb_refl, Hinputs1, Hvx1. repeat split.
  destruct (vx st). simpl in *. by subst.
Qed.

Lemma connect_then_disconnect_witness :
  (Vx.isConnected (vx st_fresh) = false /\
   Vx.convexClient (vx st_fresh) = None /\
   peer_available (peer_seven 0%nat)) /\
  vx (final (run peer_down 0 VorteXInterface.toggleConnection
               (final (run peer_seven 0 VorteXInterface.toggleConnection
                           st_fresh))))
  = vx st_fresh.
Proof.
  assert (Hseven : peer_available (peer_seven 0%nat)).
  { eexists. split; [by eexists _, _|reflexivity]. }
  split; [by repeat split|].
  exact (proj1 (proj2 (proj2 (connect_then_disconnect peer_seven 0%nat
                                peer_down 0%nat st_fresh eq_refl eq_refl
                                Hseven)))).
Defined.

(* ===================================================================== *)
(** * The interface: choosing tokens and typing amounts *)
(* ===================================================================== *)

#[local] Opaque VorteXInterface.updateBalances.

(** The state [showTokenSelector] leaves. *)
Lemma showTokenSelector_final peer n st position selected :
  final (run peer n (VorteXInterface.showTokenSelector position selected) st) =
  match selected with
  | Some s =>
      if negb (String.eqb s "")
         && bool_decide (is_Some (Vx.tokens (vx st) !! toUpperCase s))
      then
        if String.eqb position "from"
        then on_vx (fun v => Vx.set_pair (toUpperCase s) (Vx.toToken v) v) st
        else on_vx (fun v => Vx.set_pair (Vx.fromToken v) (toUpperCase s) v) st
      else st
  | None => st
  end.
Proof.
  unfold VorteXInterface.showTokenSelector, VorteXInterface.update,
    VorteXInterface.updateTokenDisplays, VorteXInterface.this, modify, emit,
    spawn, final.
  simpl. destruct selected as [s|]; [|done].
  destruct (negb (String.eqb s "") && _); [|done].
  destruct (String.eqb position "from"); simpl.
  all: match goal with
       | |- context [if ?b then _ else _] => destruct b; [|done]
       end; simpl.
  all: match goal with
       | |- context [run ?p ?m VorteXInterface.updateBalances ?s] =>
           pose proof (read_only_run VorteXInterface.updateBalances p m s
                         updateBalances_read_only) as Hro;
           unfold final in Hro;
           destruct (run p m VorteXInterface.updateBalances s)
             as [[r2 s2] evs2]; simpl in Hro; simpl
       end.
  all: done.
Qed.

#[local] Transparent VorteXInterface.updateBalances.

(** X23. The token selector changes one side of the pair and nothing
    else. An answer to the prompt (of ASCII characters) is accepted when it
    is not empty and is, in upper case, a symbol of the registry: that
    side of the pair becomes the symbol in upper case, whatever the other
    side holds (so both sides can name the same token), and the other
    side, the amounts, the inputs and the clients stay as they are. A
    dismissed prompt, an empty answer or a symbol the registry does not
    have leaves the state as it was. Any position but "from" counts as
    "to". *)
Theorem showTokenSelector_outcome peer n st position selected :
  from_option ascii_only true selected = true ->
  let v := vx st in
  let s' := final (run peer n
                     (VorteXInterface.showTokenSelector position selected) st) in
  (forall s,
     selected = Some s -> s <> "" ->
     is_Some (Vx.tokens v !! toUpperCase s) ->
     s' = on_vx (Vx.set_pair
                   (if String.eqb position "from"
                    then toUpperCase s else Vx.fromToken v)
                   (if String.eqb position "from"
                    then Vx.toToken v else toUpperCase s)) st) /\
  (selected = None \/ selected = Some "" \/
   (exists s, selected = Some s /\ Vx.tokens v !! toUpperCase s = None) ->
   s' = st).
Proof.
  intros _ v s'. subst s'. rewrite showTokenSelector_final. split.
  - intros s -> Hnonempty Hknown.
    destruct (String.eqb_spec s ""); [done|]. simpl.
    rewrite bool_decide_eq_true_2 by done.
    by destruct (String.eqb position "from").
  - intros [->|[->|(s & -> & Hunknown)]]; [done|done|].
    rewrite bool_decide_eq_false_2, andb_false_r; [done|].
    fold v. rewrite Hunknown. by intros [? ?].
Qed.

Lemma showTokenSelector_outcome_witness :
  from_option ascii_only true (Some "usdc") = true /\
  Vx.fromToken
    (vx (final (run peer_down 0
                  (VorteXInterface.showTokenSelector "from" (Some "usdc"))
                  st_fresh)))
  = "USDC".
Proof.
  split; [reflexivity|].
  rewrite (proj1 (showTokenSelector_outcome peer_down 0%nat st_fresh "from"
                    (Some "usdc") eq_refl) "usdc" eq_refl ltac:(done)
                 ltac:(by eexists)).
  reflexivity.
Defined.

(** X24. [onFromAmountChange] is a local, repeatable update. On every
    amount and in every state it returns normally without sending or
    logging anything, and it writes nothing but [fromAmount], [toAmount]
    and the "you receive" field: the clients, the "you pay" field and the
    number of inputs stay as they are. Handling the same amount a second
    time changes nothing more. *)
Theorem onFromAmountChange_idempotent peer n peer' n' st amount :
  let o := run peer n (VorteXInterface.onFromAmountChange amount) st in
  let o' := run peer' n' (VorteXInterface.onFromAmountChange amount) (final o) in
  completion o = Normal tt /\
  events o = [] /\
  heap (final o) = heap st /\
  numberInputs (final o) !! 0%nat = numberInputs st !! 0%nat /\
  length (numberInputs (final o)) = length (numberInputs st) /\
  final o' = final o.
Proof.
  intros o o'. subst o' o.
  unfold VorteXInterface.onFromAmountChange, VorteXInterface.update,
    VorteXInterface.this, console_error, get, modify, emit.
  unfold completion, events, final.
  remember (num_of_Z 0) as zero eqn:Hzero.
  remember (num_of_decimal false 97 (-2)) as rate eqn:Hrate.
  simpl.
  destruct (negb (Vx.isConnected (vx st)) || String.eqb amount ""
            || num_isNaN (StringToNumber amount)
            || num_leb (StringToNumber amount) zero) eqn:Hguard; simpl.
  - rewrite Hguard. simpl. rewrite length_insert.
    repeat split; try done.
    + by rewrite list_lookup_insert_ne.
    + unfold on_inputs. simpl. by rewrite list_insert_insert_eq.
  - destruct (numberInputs st !! 1%nat) as [old|] eqn:Hfield; simpl.
    + rewrite Hguard. simpl. rewrite length_insert.
      rewrite list_lookup_insert_eq by (by eapply lookup_lt_Some). simpl.
      repeat split; try done.
      * by rewrite list_lookup_insert_ne.
      * unfold on_vx, on_inputs. simpl. by rewrite list_insert_insert_eq.
    + rewrite Hguard. simpl. rewrite Hfield. simpl. repeat split; try done.
Qed.

#[local] Opaque VorteXInterface.updateBalances.


#[local] Transparent VorteXInterface.updateBalances.

(* ===================================================================== *)
(** * The event loop: connected means there is a client *)
(* ===================================================================== *)

Section Turns.

Context (I : State -> Prop).

(** [turn] is sound for the event loop. *)
Lemma turn_advance {A : Type} (p : Prog A) s Q B Q' :
  turn I p s Q B Q' ->
  let '(st, s', tasks, _) := advance p s in
  Forall (resumable I) tasks /\
  match st with
  | Done r => Q r s'
  | Blocked req k => B s' /\ forall o s'', I s'' -> turn I (k o) s'' Q' I Q'
  end.
Proof.
  revert s Q B Q'.
  induction p as [A a|A e|A k IH|A g k IH|A ef k IH|A req k IH|A name task IHt k IHk]
    using Prog_ind; intros s Q B Q' Hp; simpl in *.
  - by split.
  - by split.
  - by apply IH.
  - by apply IH.
  - specialize (IH s Q B Q' Hp).
    by destruct (advance k s) as [[[st s'] tasks] evs].
  - by split.
  - specialize (IHt s _ _ _ Hp).
    destruct (advance task s) as [[[st1 s1] tasks1] evs1].
    destruct IHt as [Htasks1 Hst1].
    assert (Hk : turn I k s1 Q B Q' /\
                 Forall (resumable I)
                   match st1 with
                   | Blocked req kt => [(req, kt)]
                   | Done _ => []
                   end).
    { destruct st1 as [r|req kt]; [by split|].
      destruct Hst1 as [Hmain Hkt]. split; [done|].
      constructor; [|constructor]. intros o s'' Hs''. by apply Hkt. }
    destruct Hk as [Hk Hparked]. specialize (IHk s1 Q B Q' Hk).
    destruct (advance k s1) as [[[st2 s2] tasks2] evs2].
    destruct IHk as [Htasks2 Hst2]. split; [|done].
    rewrite !Forall_app. by repeat split.
Qed.

(** A program that writes nothing keeps whatever holds. *)
Lemma turn_read_only {A : Type} (p : Prog A) s Q B Q' :
  ReadOnly p ->
  (forall r, Q r s) -> B s -> (forall r s', I s' -> Q' r s') ->
  turn I p s Q B Q'.
Proof.
  intros Hp. revert s Q B Q'. unfold ReadOnly in Hp.
  induction Hp as [A a|A e|A k _ IH|A f k Hf _ IH|A e k He _ IH
                  |A req k Hreq _ IH|A name task k Hname _ IHt _ IHk];
    intros s Q B Q' HQ HB HQ'; simpl; auto.
  destruct Hf.
Qed.

(** The invariant of the page at rest is kept by every step, if the
    listeners keep it. *)
Lemma keeps_step c c' :
  (forall p, Listener p -> keeps I p) ->
  step c c' ->
  I (state c) -> Forall (resumable I) (pending c) ->
  I (state c') /\ Forall (resumable I) (pending c').
Proof.
  intros Hlisteners Hstep Hs Htasks.
  assert (Hlaunch : forall (p : Prog unit) tasks,
    turn I p (state c) (fun _ s' => I s') I (fun _ s' => I s') ->
    Forall (resumable I) tasks ->
    I (state (launch p (state c) tasks)) /\
    Forall (resumable I) (pending (launch p (state c) tasks))).
  { intros p tasks Hp Hrest. unfold launch.
    pose proof (turn_advance p (state c) _ _ _ Hp) as Hadv.
    destruct (advance p (state c)) as [[[st s'] spawned] evs].
    destruct Hadv as [Hspawned Hst]. simpl.
    destruct st as [r|req k].
    - split; [done|]. rewrite !Forall_app. by repeat split.
    - destruct Hst as [Hs' Hk]. split; [done|].
      rewrite !Forall_app. repeat split; try done.
      constructor; [|constructor]. intros o s'' Hs''. by apply Hk. }
  destruct Hstep as [c0 p Hp|c0 before req k after o Hpending].
  - apply Hlaunch; [by apply Hlisteners | done].
  - rewrite Hpending in Htasks. apply Forall_app in Htasks as [Hb Ha].
    apply Forall_cons in Ha as [Hk Ha].
    apply Hlaunch; [by apply Hk | by apply Forall_app].
Qed.

End Turns.

(** ** The listeners keep the controller coherent *)

Lemma coherent_on_vx f s :
  Vx.isConnected (f (vx s)) = Vx.isConnected (vx s) ->
  Vx.convexClient (f (vx s)) = Vx.convexClient (vx s) ->
  coherent s -> coherent (on_vx f s).
Proof. unfold coherent. simpl. by intros -> ->. Qed.

#[local] Opaque VorteXInterface.updateBalances.

(** Walks through a listener, turn by turn. *)
Local Ltac turns :=
  repeat first
    [ progress intros
    | assumption
    | match goal with
      | |- _ /\ _ => split
      | |- turn _ VorteXInterface.updateBalances _ _ _ _ =>
          apply turn_read_only; [apply updateBalances_read_only|..]
      | |- coherent (on_vx _ _) =>
          apply coherent_on_vx; [reflexivity | reflexivity |]
      | |- coherent _ => progress simpl
      | |- turn _ _ _ _ _ _ => progress simpl
      | |- context [match ?x with _ => _ end] => destruct x eqn:?
      end ].

Lemma onTimer_keeps : keeps coherent VorteXInterface.onTimer.
Proof.
  intros s Hs.
  unfold VorteXInterface.onTimer, VorteXInterface.this, spawn.
  turns.
Qed.

Lemma swapTokenPositions_keeps : keeps coherent VorteXInterface.swapTokenPositions.
Proof.
  intros s Hs.
  unfold VorteXInterface.swapTokenPositions,
    VorteXInterface.updateTokenDisplays, VorteXInterface.update,
    VorteXInterface.this, modify, emit, spawn.
  turns.
Qed.

Lemma onInput_keeps value : keeps coherent (VorteXInterface.onInput value).
Proof.
  intros s Hs.
  unfold VorteXInterface.onInput, VorteXInterface.onFromAmountChange,
    VorteXInterface.update, VorteXInterface.this, console_error, get, modify,
    emit.
  remember (num_of_Z 0) as zero eqn:Hzero.
  remember (num_of_decimal false 97 (-2)) as rate eqn:Hrate.
  turns.
Qed.

Lemma showTokenSelector_keeps position selected :
  keeps coherent (VorteXInterface.showTokenSelector position selected).
Proof.
  intros s Hs.
  unfold VorteXInterface.showTokenSelector,
    VorteXInterface.updateTokenDisplays, VorteXInterface.update,
    VorteXInterface.this, modify, emit, spawn.
  turns.
Qed.

Lemma executeSwap_keeps : keeps coherent VorteXInterface.executeSwap.
Proof.
  intros s Hs.
  unfold VorteXInterface.executeSwap, VorteXInterface.executeSwap_try,
    VorteXInterface.executeSwap_catch, VorteXInterface.client_of,
    VorteXInterface.showLoading, VorteXInterface.hideLoading,
    VorteXInterface.showNotification, VorteXInterface.updateConnectionStatus,
    VorteXInterface.update, VorteXInterface.this,
    ConvexClient.buyTokens, ConvexClient.sellTokens, ConvexClient.transact,
    ConvexClient.update, ConvexClient.this,
    fetch, json, get_prop, console_log, console_error, throw, get, modify,
    emit, spawn.
  remember (num_of_Z 0) as zero eqn:Hzero.
  remember (num_of_Z 1) as one eqn:Hone.
  turns.
Qed.

Lemma toggleConnection_keeps : keeps coherent VorteXInterface.toggleConnection.
Proof.
  intros s Hs.
  unfold VorteXInterface.toggleConnection, VorteXInterface.connectWallet,
    VorteXInterface.client_of, VorteXInterface.showLoading,
    VorteXInterface.hideLoading, VorteXInterface.showNotification,
    VorteXInterface.updateConnectionStatus, VorteXInterface.update,
    VorteXInterface.this,
    ConvexClient.connect, ConvexClient.initialize,
    ConvexClient.createDemoAccount, ConvexClient.requestFaucetCoins,
    ConvexClient.close, ConvexClient.query, ConvexClient.setAddress,
    ConvexClient.setKeyPair, ConvexClient.update, ConvexClient.this,
    fetch, json, get_prop, console_log, console_error, throw, get, modify,
    emit, spawn.
  remember (num_of_Z 0) as zero eqn:Hzero.
  remember (num_of_Z 7) as seven eqn:Hseven.
  turns.
  all: unfold coherent; simpl; split; first [done | by eexists | by intros []].
Qed.

#[local] Transparent VorteXInterface.updateBalances.

Lemma listener_keeps_coherent p : Listener p -> keeps coherent p.
Proof.
  intros [].
  - apply toggleConnection_keeps.
  - apply executeSwap_keeps.
  - apply swapTokenPositions_keeps.
  - apply onInput_keeps.
  - apply showTokenSelector_keeps.
  - apply onTimer_keeps.
Qed.

(** On a coherent page the connect button never fails. *)
Lemma toggleConnection_returns peer n s :
  coherent s ->
  completion (run peer n VorteXInterface.toggleConnection s) = Normal tt.
Proof.
  intros Hs. unfold VorteXInterface.toggleConnection. rewrite run_this.
  destruct (Vx.isConnected (vx s)) eqn:Hconnected.
  - destruct (proj1 Hs Hconnected) as [client Hclient].
    unfold VorteXInterface.client_of. by rewrite Hclient.
  - apply connectWallet_outcome_facts.
Qed.

(** X26. Connected means there is a client. From a page on which
    [isConnected] is set exactly when the controller holds a client (as
    the constructor leaves it: not connected, no client) and nothing is
    parked, every configuration the page reaches is like that too,
    whatever the user does and in whatever order the peer answers. So the
    connect button, which closes [this.convexClient] without looking at it,
    never fails: [toggleConnection] returns normally there. *)
Theorem connected_means_client s c :
  coherent s ->
  reaches (mkLoop s []) c ->
  coherent (state c) /\
  forall peer n,
    completion (run peer n VorteXInterface.toggleConnection (state c))
    = Normal tt.
Proof.
  intros Hs Hc.
  cut (coherent (state c) /\ Forall (resumable coherent) (pending c)).
  { intros [Hstate _]. split; [done|]. intros peer n.
    by apply toggleConnection_returns. }
  revert c Hc. unfold reaches. apply rtc_ind_r; [by split|].
  intros c c' _ Hstep [Hstate Htasks].
  by apply (keeps_step coherent c c' listener_keeps_coherent).
Qed.

Lemma connected_means_client_witness :
  (coherent st_fresh /\
   reaches (mkLoop st_fresh [])
           (launch VorteXInterface.toggleConnection st_fresh [])) /\
  coherent (state (launch VorteXInterface.toggleConnection st_fresh [])).
Proof.
  assert (Hfresh : coherent st_fresh).
  { split; [discriminate | by intros [? ?]]. }
  assert (Hreach : reaches (mkLoop st_fresh [])
                     (launch VorteXInterface.toggleConnection st_fresh [])).
  { apply rtc_once.
    apply (step_listener (mkLoop st_fresh [])), on_connect_click. }
  split; [by split|].
  exact (proj1 (connected_means_client st_fresh _ Hfresh Hreach)).
Defined.

(* ===================================================================== *)
(** * The swap button never fails, and every answer ends the swap *)
(* ===================================================================== *)

(** X27. [executeSwap] never throws: in every state and whatever the peer
    answers it returns normally, so a click on the swap button cannot end
    in an unhandled rejection. On a page that is not connected it only
    tells the user to connect the wallet: the state is unchanged (the
    in-flight flag is not even looked at) and nothing is sent. *)
Theorem executeSwap_never_throws peer n st :
  let o := run peer n VorteXInterface.executeSwap st in
  completion o = Normal tt /\
  (Vx.isConnected (vx st) = false ->
   final o = st /\
   events o =
     [EvUi (Alert "❌ Please connect your wallet first");
      EvUi (Console LLog [VStr "❌ Please connect your wallet first"])]).
Proof.
  intros o. subst o. unfold VorteXInterface.executeSwap.
  rewrite run_this.
  destruct (Vx.isConnected (vx st)); simpl negb; cbv iota; [|by split].
  split; [|done].
  destruct (Vx.isSwapping (vx st)); [done|].
  rewrite run_try_finally, run_try_catch.
  destruct (run peer n VorteXInterface.executeSwap_try st)
    as [[[[]|error] s1] evs1]; [done|].
  by rewrite executeSwap_catch_run.
Qed.

(** X28. Every answer to the transaction ends the swap. In a
    configuration the page can reach, when the answer to a parked
    transaction arrives, whatever it is (a success, an error of the peer, a
    failure of the transport), the method that was waiting for it runs to
    its end in that turn and [isSwapping] is clear afterwards: the next
    click on the swap button can begin a swap. *)
Theorem transaction_answer_clears_flag c before req k after o :
  reachable c ->
  pending c = before ++ (req, k) :: after ->
  awaits_transact (req, k) ->
  let c' := launch (k o) (state c) (before ++ after) in
  step c c' /\
  Vx.isSwapping (vx (state c')) = false /\
  forall t, In t (pending c') -> ~ awaits_transact t.
Proof.
  intros Hc Hpending Hawaits c'. split; [by eapply step_answer|].
  destruct (reachable_one_swap c Hc)
    as [[_ Hall]|(_ & before' & t & after' & Hsplit & [_ Hk] & Hall)].
  - rewrite Hpending in Hall. apply Forall_app in Hall as [_ Hall].
    apply Forall_cons in Hall as [Hquiet _].
    by destruct (quiet_task_not_swap _ Hquiet).
  - rewrite Hpending in Hsplit.
    destruct (split_twice _ _ _ _ _ _ Hsplit)
      as [(<- & <- & <-)|[[m [-> ->]]|[m [-> ->]]]].
    + subst c'. simpl in Hk.
      destruct (swap_answer_launch k o (state c) (before ++ after) Hk)
        as (Hflag & new & -> & Hnew).
      split; [done|]. intros t' Hin.
      apply quiet_task_not_swap.
      assert (Hquiet : Forall quiet_task ((before ++ after) ++ new))
        by (by apply Forall_app).
      rewrite Forall_forall in Hquiet. apply Hquiet.
      by apply list_elem_of_In.
    + rewrite <- app_assoc in Hall. simpl in Hall.
      apply Forall_app in Hall as [_ Hall].
      apply Forall_cons in Hall as [Hquiet _].
      by destruct (quiet_task_not_swap _ Hquiet).
    + apply Forall_app in Hall as [_ Hall].
      apply Forall_app in Hall as [_ Hall].
      apply Forall_cons in Hall as [Hquiet _].
      by destruct (quiet_task_not_swap _ Hquiet).
Qed.

Lemma transaction_answer_clears_flag_witness :
  reachable loop_swap_parked /\
  exists k,
    pending loop_swap_parked = [] ++ (buy_100, k) :: [] /\
    awaits_transact (buy_100, k) /\
    Vx.isSwapping
      (vx (state (launch (k (peer_funds 0%nat)) (state loop_swap_parked)
                         ([] ++ [])))) = false.
Proof.
  assert (Hreach : reachable loop_swap_parked).
  { apply (reachable_step (mkLoop st_connected [])).
    - by apply reachable_start.
    - apply (step_listener (mkLoop st_connected [])), on_swap_click. }
  split; [done|]. eexists. split; [reflexivity|].
  assert (Hawaits : awaits_transact
                      (buy_100, snd (List.hd (buy_100, fun _ => Ret tt)
                                             (pending loop_swap_parked))))
    by (by eexists demo_client, _).
  split; [exact Hawaits|].
  exact (proj1 (proj2 (transaction_answer_clears_flag loop_swap_parked [] _ _ []
                         (peer_funds 0%nat) Hreach eq_refl Hawaits))).
Defined.
